(** * Technical audit service: a shallow embedding of [TechnicalAuditService]

    The service lives in the heredoc [src/services/technical-audit.service.ts]
    of the business-services generator (lines 541-1024 of the script).  Pure helpers ([calculateSchemaScore],
    [aggregateAuditResults], [calculateOverallScore], [identifyIssues], ...)
    are Rocq functions.  Asynchronous methods run in a small monad that
    collects the external calls a method makes, each with the tick at which
    it is made, and either resolves with a value or rejects with an error;
    [Promise.all] settles at the first rejection in time while the other
    tasks go on.  Everything the service asks of the outside (database,
    headless browser, Lighthouse, the pages themselves), and how long each
    call takes, is read from a [World] record.

    Numbers are JavaScript doubles in the source; here scores are exact
    rationals ([Q]) where Lighthouse produces them and integers ([Z]) where
    the code only ever adds integer constants. *)

From Stdlib Require Import ZArith QArith Qround String Ascii List Bool Lia Sorted Relations.
From Stdlib Require Import Lqa Permutation.
Import ListNotations.
Set Warnings "-register-all".
Local Open Scope string_scope.
Local Open Scope list_scope.
Local Open Scope Z_scope.

(** ** JavaScript primitives used by the service *)

Module Js.

(** A value produced by [JSON.parse].  An object keeps its members in
    source order; a repeated key is resolved by [get] (the last one wins,
    as in [JSON.parse]).  Only the zero test of a number matters to the
    service, so numbers are integers. *)
Inductive json : Type :=
| JNull
| JBool (b : bool)
| JNum (n : Z)
| JStr (s : string)
| JArr (items : list json)
| JObj (members : list (string * json)).

(** [Boolean(v)]: [null], [false], [0] and the empty string are falsy. *)
Definition truthy (v : json) : bool :=
  match v with
  | JNull => false
  | JBool b => b
  | JNum n => negb (n =? 0)
  | JStr s => negb (String.eqb s EmptyString)
  | JArr _ => true
  | JObj _ => true
  end.

Fixpoint assoc_last (k : string) (ms : list (string * json)) : option json :=
  match ms with
  | [] => None
  | (k', v) :: rest =>
      match assoc_last k rest with
      | Some v' => Some v'
      | None => if String.eqb k' k then Some v else None
      end
  end.

(** [v[k]] for the keys the service reads ([@type], [review],
    [aggregateRating]): [None] is [undefined].  Primitives and arrays have
    no such property. *)
Definition get (v : json) (k : string) : option json :=
  match v with
  | JObj ms => assoc_last k ms
  | _ => None
  end.

(** [v[k] === s] for a string literal [s]. *)
Definition prop_is (v : json) (k s : string) : bool :=
  match get v k with
  | Some (JStr s') => String.eqb s' s
  | _ => false
  end.

(** Truthiness of [v[k]]; [undefined] is falsy. *)
Definition prop_truthy (v : json) (k : string) : bool :=
  match get v k with
  | Some x => truthy x
  | None => false
  end.

Fixpoint starts_with (p s : string) : bool :=
  match p, s with
  | EmptyString, _ => true
  | String a p', String b s' => if Ascii.eqb a b then starts_with p' s' else false
  | String _ _, EmptyString => false
  end.

(** [hay.includes(needle)]. *)
Fixpoint includes (hay needle : string) : bool :=
  if starts_with needle hay then true
  else match hay with
       | EmptyString => false
       | String _ hay' => includes hay' needle
       end.

(** [Math.round]: the nearest integer, halves towards plus infinity. *)
Definition Math_round (x : Q) : Z := Qfloor (x + (1 # 2)).

(** [fl.filter(Boolean).length] over a list of booleans. *)
Definition count_true (fl : list bool) : Z :=
  Z.of_nat (List.length (filter (fun b => b) fl)).

End Js.

(** ** Data model *)

Inductive AuditType := Basic | Comprehensive | Performance | Seo.

Record TechnicalAuditOptions := {
  clinicId : string;
  auditType : AuditType;
  pages : list string
}.

(** One Lighthouse profile of [AuditMetrics.siteSpeed]. *)
Record SpeedProfile := {
  sp_score : Q;
  sp_loadTime : Q;
  sp_firstContentfulPaint : Q;
  sp_largestContentfulPaint : Q;
  sp_firstInputDelay : Q;
  sp_cumulativeLayoutShift : Q
}.

(** [siteSpeed]; a profile [None] is the empty object [{}] of the default
    [{ desktop: {}, mobile: {} }]. *)
Record SiteSpeed := {
  desktop : option SpeedProfile;
  mobile : option SpeedProfile
}.

Record Crawlability := {
  cr_score : Z;
  robotsTxt : bool;
  sitemapValid : bool;
  crawlErrors : Z;
  indexablePages : Z;
  blockedPages : Z
}.

Record SchemaData := {
  localBusinessSchema : bool;
  dentistSchema : bool;
  faqSchema : bool;
  reviewSchema : bool;
  organizationSchema : bool;
  schemas : list Js.json
}.

Record SchemaMarkup := {
  sm_data : SchemaData;
  sm_score : Z;
  validationErrors : Z
}.

Record MobileData := {
  viewportConfiguration : bool;
  responsiveDesign : bool;
  touchTargetSize : bool;
  mobileFirstIndex : bool
}.

Record MobileOptimization := {
  mo_data : MobileData;
  mo_score : Z
}.

Record SeoData := {
  title : string;
  metaDescription : option string;
  h1Count : Z;
  h2Count : Z;
  imgCount : Z;
  imgAltMissing : Z;
  internalLinks : Z;
  externalLinks : Z;
  canonicalUrl : option string;
  robots : option string
}.

(** A property of the merged [results] object of a page: not set, set to
    [null] (only [auditPageSpeed] does that), or set to a value. *)
Inductive slot (A : Type) : Type :=
| Unset
| Null
| Val (a : A).
Arguments Unset {A}.
Arguments Null {A}.
Arguments Val {A} a.

Record PageResults := {
  r_siteSpeed : slot SiteSpeed;
  r_seoElements : option SeoData;
  r_schemaMarkup : option SchemaMarkup;
  r_crawlability : option Crawlability;
  r_mobileOptimization : option MobileOptimization
}.

Record PageAudit := {
  pa_url : string;
  pa_timestamp : string;
  pa_results : PageResults
}.

(** [AuditMetrics] as [aggregateAuditResults] builds it; [None] is [{}]. *)
Record AuditMetrics := {
  siteSpeed : SiteSpeed;
  crawlability : option Crawlability;
  schemaMarkup : option SchemaMarkup;
  mobileOptimization : option MobileOptimization
}.

Record Issue := {
  severity : string;
  category : string;
  i_title : string;
  i_description : string;
  affectedPages : list string;
  recommendation : string
}.

Record Recommendation := {
  priority : string;
  rc_category : string;
  rc_title : string;
  rc_description : string;
  expectedImpact : string;
  effort : string
}.

Record TechnicalAudit := {
  ta_clinicId : string;
  ta_auditType : AuditType;
  ta_score : Z;
  ta_metrics : AuditMetrics;
  ta_issues : list Issue;
  ta_recommendations : list Recommendation;
  ta_rawData : list PageAudit
}.

(** ** Asynchronous methods

    An [async] method is a computation that makes external calls and then
    resolves or rejects.  A run records every call with the time at which
    it is made, counted in ticks from the start of the run, the time at
    which the method settles, and what it settles with.  An awaited call
    settles at least one tick after it was made; how much later is for the
    world to say.

    Tasks joined by [Promise.all] all start on the same tick, in array
    order.  The join resolves when the last task has resolved; it rejects
    as soon as the first task rejects, with that task's reason, while the
    other tasks go on making their calls.  Two tasks rejecting on the same
    tick are taken in array order.  The calls of a run, in the order they
    are made, are its stamped calls sorted by time; calls made on the same
    tick stay in program order. *)

Record error := { err_name : string; err_message : string }.

Inductive outcome (A : Type) : Type :=
| Resolved (a : A)
| Rejected (e : error).
Arguments Resolved {A} a.
Arguments Rejected {A} e.

Inductive FormFactor := DesktopForm | MobileForm.

Inductive event :=
| EvFindClinic (id : string)
| EvLaunch (url : string)
| EvNewPage (url : string)
| EvSetViewport (url : string) (width height : Z)
| EvSetUserAgent (url : string)
| EvLighthouse (url : string) (ff : FormFactor)
| EvGoto (target : string)
| EvEvaluate (url : string)
| EvClose (url : string)
| EvCreate (id : string)
| EvInvalidate (key : string).

Definition stamped : Type := (nat * event)%type.

Record Async (A : Type) : Type := {
  events : list stamped;
  took : nat;
  result : outcome A
}.
Arguments events {A} _.
Arguments took {A} _.
Arguments result {A} _.

(** The stamped calls of a computation that starts [d] ticks later. *)
Definition shift (d : nat) (l : list stamped) : list stamped :=
  map (fun e => ((d + fst e)%nat, snd e)) l.

Definition ret {A} (a : A) : Async A :=
  {| events := []; took := 0; result := Resolved a |}.

Definition throw {A} (e : error) : Async A :=
  {| events := []; took := 0; result := Rejected e |}.

(** [await] of an external call that settles with [o], [S latency] ticks
    after it is made. *)
Definition await {A} (ev : event) (latency : nat) (o : outcome A) : Async A :=
  {| events := [(0%nat, ev)]; took := S latency; result := o |}.

(** [m], then [r] from the tick at which [m] settles, with outcome [o]. *)
Definition after {A B C} (m : Async A) (r : Async B) (o : outcome C)
  : Async C :=
  {| events := events m ++ shift (took m) (events r);
     took := (took m + took r)%nat;
     result := o |}.

Definition bind {A B} (m : Async A) (k : A -> Async B) : Async B :=
  match result m with
  | Resolved a => after m (k a) (result (k a))
  | Rejected e => {| events := events m; took := took m; result := Rejected e |}
  end.

(** [try { m } catch (error) { h error }]. *)
Definition try_catch {A} (m : Async A) (h : error -> Async A) : Async A :=
  match result m with
  | Rejected e => after m (h e) (result (h e))
  | Resolved _ => m
  end.

(** [try { m } finally { c }]: [c] runs when [m] settles, on both exits,
    and keeps the outcome of [m] unless [c] itself rejects. *)
Definition try_finally {A} (m : Async A) (c : Async unit) : Async A :=
  after m c
    match result c with
    | Resolved _ => result m
    | Rejected e => Rejected e
    end.

(** The earliest rejection among tasks started together: its time and
    reason.  On equal times the task that comes first in the array wins. *)
Fixpoint first_rejection {A} (ts : list (Async A)) : option (nat * error) :=
  match ts with
  | [] => None
  | t :: rest =>
      match result t, first_rejection rest with
      | Rejected e, Some (d, e') =>
          if (took t <=? d)%nat then Some (took t, e) else Some (d, e')
      | Rejected e, None => Some (took t, e)
      | Resolved _, r => r
      end
  end.

Definition values {A} (ts : list (Async A)) : list A :=
  flat_map (fun t => match result t with
                     | Resolved a => [a]
                     | Rejected _ => []
                     end) ts.

Definition last_settled {A} (ts : list (Async A)) : nat :=
  fold_right (fun t d => Nat.max (took t) d) 0%nat ts.

(** [Promise.all]: every task starts now; the join settles at the first
    rejection, or with all the values once every task has resolved.  The
    calls the other tasks make after a rejection are still made. *)
Definition promise_all {A} (ts : list (Async A)) : Async (list A) :=
  match first_rejection ts with
  | Some (d, e) =>
      {| events := concat (map events ts); took := d; result := Rejected e |}
  | None =>
      {| events := concat (map events ts);
         took := last_settled ts;
         result := Resolved (values ts) |}
  end.

Declare Scope async_scope.
Delimit Scope async_scope with async.
Notation "x <- m ;; k" := (bind m (fun x => k))
  (at level 61, m at next level, right associativity) : async_scope.
Notation "m ;;; k" := (bind m (fun _ => k))
  (at level 61, right associativity) : async_scope.
Local Open Scope async_scope.

(** Stable insertion sort of stamped calls by time. *)
Fixpoint insert (x : stamped) (l : list stamped) : list stamped :=
  match l with
  | [] => [x]
  | y :: l' =>
      if (fst x <=? fst y)%nat then x :: l else y :: insert x l'
  end.

Definition by_time (l : list stamped) : list stamped :=
  fold_right insert [] l.

(** The calls of a run in the order they are made. *)
Definition calls {A} (m : Async A) : list event :=
  map snd (by_time (events m)).

Definition is_rejected {A} (o : outcome A) : bool :=
  match o with Rejected _ => true | Resolved _ => false end.

(** ** The outside world *)

(** What [lighthouse(url, ...)] hands back, as far as the service reads
    it: [lhr.categories.performance.score] and five [numericValue]s. *)
Record LighthouseResult := {
  lhr_performance : Q;
  lhr_speedIndex : Q;
  lhr_fcp : Q;
  lhr_lcp : Q;
  lhr_maxPotentialFid : Q;
  lhr_cls : Q
}.

(** Settlement of [page.goto(target)]: a rejection, a [null] response, or
    a response with a status code. *)
Inductive nav :=
| NavThrow (e : error)
| NavNull
| NavStatus (code : Z).

(** What [document.querySelector('meta[name="viewport"]')] and
    [window.innerWidth] give in the page: no element, an element without a
    [content] attribute, or the attribute's text. *)
Record MobileDom := {
  viewportContent : option (option string);
  innerWidth : Z
}.

(** Every awaited call of the service settles as the world says:
    [findClinic] is [Clinic.findByPk] ([true] when a clinic is found),
    [createFails] is [TechnicalAudit.create] ([None] when the record is
    stored), [latency] the ticks a call takes beyond the first (the same
    call made twice takes the same time). *)
Record World := {
  findClinic : string -> outcome bool;
  launch : string -> outcome unit;
  newPage : string -> outcome unit;
  setViewport : string -> Z -> Z -> outcome unit;
  setUserAgent : string -> outcome unit;
  closeBrowser : string -> outcome unit;
  lighthouse : string -> FormFactor -> outcome LighthouseResult;
  goto : string -> nav;
  seoDom : string -> outcome SeoData;
  ldJson : string -> outcome (list (option Js.json));
  mobileDom : string -> outcome MobileDom;
  urlOrigin : string -> option string;
  now : string -> string;
  createFails : TechnicalAudit -> option error;
  latency : event -> nat
}.

(** An awaited external call. *)
Definition call {A} (w : World) (ev : event) (o : outcome A) : Async A :=
  await ev (latency w ev) o.

(** ** The service *)

Definition empty_results : PageResults :=
  {| r_siteSpeed := Unset; r_seoElements := None; r_schemaMarkup := None;
     r_crawlability := None; r_mobileOptimization := None |}.

Definition or_else {A} (new old : option A) : option A :=
  match new with Some _ => new | None => old end.

(** [{ ...acc, ...result }]: a key of [result] replaces that of [acc]. *)
Definition spread (acc result : PageResults) : PageResults :=
  {| r_siteSpeed :=
       match r_siteSpeed result with Unset => r_siteSpeed acc | s => s end;
     r_seoElements := or_else (r_seoElements result) (r_seoElements acc);
     r_schemaMarkup := or_else (r_schemaMarkup result) (r_schemaMarkup acc);
     r_crawlability := or_else (r_crawlability result) (r_crawlability acc);
     r_mobileOptimization :=
       or_else (r_mobileOptimization result) (r_mobileOptimization acc) |}.

Definition calculateSchemaScore (schemaData : SchemaData) : Z :=
  let score := 0 in
  let score := if localBusinessSchema schemaData then score + 30 else score in
  let score := if dentistSchema schemaData then score + 25 else score in
  let score := if faqSchema schemaData then score + 20 else score in
  let score := if reviewSchema schemaData then score + 15 else score in
  let score := if organizationSchema schemaData then score + 10 else score in
  score.

(** The callback of [page.evaluate] in [auditSchemaMarkup], on the outcome
    of [JSON.parse] for every [ld+json] script: [None] is a block on which
    [JSON.parse] throws, which the [catch] turns into [null]. *)
Definition parse_or_null (block : option Js.json) : Js.json :=
  match block with Some v => v | None => Js.JNull end.

Definition schemaDataOf (blocks : list (option Js.json)) : SchemaData :=
  let schemas := filter Js.truthy (map parse_or_null blocks) in
  {| localBusinessSchema :=
       existsb (fun s => Js.prop_is s "@type" "LocalBusiness"
                         || Js.prop_is s "@type" "DentalClinic") schemas;
     dentistSchema :=
       existsb (fun s => Js.prop_is s "@type" "Dentist"
                         || Js.prop_is s "@type" "DentalClinic") schemas;
     faqSchema := existsb (fun s => Js.prop_is s "@type" "FAQPage") schemas;
     reviewSchema :=
       existsb (fun s => Js.prop_truthy s "review"
                         || Js.prop_truthy s "aggregateRating") schemas;
     organizationSchema :=
       existsb (fun s => Js.prop_is s "@type" "Organization") schemas;
     schemas := schemas |}.

(** The callback of [page.evaluate] in [auditMobileOptimization]. *)
Definition mobileDataOf (dom : MobileDom) : MobileData :=
  let content :=
    match viewportContent dom with
    | Some (Some c) => c
    | _ => EmptyString
    end in
  {| viewportConfiguration := Js.includes content "width=device-width";
     responsiveDesign := innerWidth dom <=? 768;
     touchTargetSize := true;
     mobileFirstIndex := true |}.

(** [Object.values(mobileData)], in insertion order. *)
Definition mobile_values (d : MobileData) : list bool :=
  [viewportConfiguration d; responsiveDesign d; touchTargetSize d; mobileFirstIndex d].

Definition speedProfileOf (r : LighthouseResult) : SpeedProfile :=
  {| sp_score := (lhr_performance r * 100)%Q;
     sp_loadTime := lhr_speedIndex r;
     sp_firstContentfulPaint := lhr_fcp r;
     sp_largestContentfulPaint := lhr_lcp r;
     sp_firstInputDelay := lhr_maxPotentialFid r;
     sp_cumulativeLayoutShift := lhr_cls r |}.

Definition crawl_fallback : Crawlability :=
  {| cr_score := 60; robotsTxt := false; sitemapValid := false;
     crawlErrors := 1; indexablePages := 0; blockedPages := 0 |}.

Definition type_error (msg : string) : error :=
  {| err_name := "TypeError"; err_message := msg |}.

Section Service.

Variable w : World.

Definition page_goto (target : string) : Async (option Z) :=
  call w (EvGoto target)
    match goto w target with
    | NavThrow e => Rejected e
    | NavNull => Resolved None
    | NavStatus c => Resolved (Some c)
    end.

(** [response.status()]; on a [null] response the call is a TypeError. *)
Definition status (response : option Z) : Async Z :=
  match response with
  | Some c => ret c
  | None => throw (type_error "Cannot read properties of null")
  end.

Definition auditPageSpeed (url : string) : Async PageResults :=
  try_catch
    (desktopResult <- call w (EvLighthouse url DesktopForm)
                           (lighthouse w url DesktopForm) ;;
     mobileResult <- call w (EvLighthouse url MobileForm)
                          (lighthouse w url MobileForm) ;;
     ret {| r_siteSpeed :=
              Val {| desktop := Some (speedProfileOf desktopResult);
                     mobile := Some (speedProfileOf mobileResult) |};
            r_seoElements := None; r_schemaMarkup := None;
            r_crawlability := None; r_mobileOptimization := None |})
    (fun _ =>
       ret {| r_siteSpeed := Null;
              r_seoElements := None; r_schemaMarkup := None;
              r_crawlability := None; r_mobileOptimization := None |}).

Definition auditSEOElements (url : string) : Async PageResults :=
  page_goto url ;;;
  seoData <- call w (EvEvaluate url) (seoDom w url) ;;
  ret {| r_siteSpeed := Unset; r_seoElements := Some seoData;
         r_schemaMarkup := None; r_crawlability := None;
         r_mobileOptimization := None |}.

Definition auditSchemaMarkup (url : string) : Async PageResults :=
  page_goto url ;;;
  blocks <- call w (EvEvaluate url) (ldJson w url) ;;
  let schemaData := schemaDataOf blocks in
  let score := calculateSchemaScore schemaData in
  ret {| r_siteSpeed := Unset; r_seoElements := None;
         r_schemaMarkup :=
           Some {| sm_data := schemaData; sm_score := score;
                   validationErrors := 0 |};
         r_crawlability := None; r_mobileOptimization := None |}.

Definition only_crawlability (c : Crawlability) : PageResults :=
  {| r_siteSpeed := Unset; r_seoElements := None; r_schemaMarkup := None;
     r_crawlability := Some c; r_mobileOptimization := None |}.

Definition auditCrawlability (url : string) : Async PageResults :=
  match urlOrigin w url with
  | None => throw (type_error "Invalid URL")
  | Some domain =>
      try_catch
        (robotsResponse <- page_goto (String.append domain "/robots.txt") ;;
         robotsStatus <- status robotsResponse ;;
         let robotsTxt := robotsStatus =? 200 in
         sitemapResponse <- page_goto (String.append domain "/sitemap.xml") ;;
         sitemapStatus <- status sitemapResponse ;;
         let sitemapValid := sitemapStatus =? 200 in
         ret (only_crawlability
                {| cr_score := 85 + (if robotsTxt then 10 else 0)
                                  + (if sitemapValid then 5 else 0);
                   robotsTxt := robotsTxt;
                   sitemapValid := sitemapValid;
                   crawlErrors := 0; indexablePages := 0;
                   blockedPages := 0 |}))
        (fun _ => ret (only_crawlability crawl_fallback))
  end.

Definition auditMobileOptimization (url : string) : Async PageResults :=
  call w (EvSetViewport url 375 667) (setViewport w url 375 667) ;;;
  page_goto url ;;;
  dom <- call w (EvEvaluate url) (mobileDom w url) ;;
  let mobileData := mobileDataOf dom in
  let score := Js.count_true (mobile_values mobileData) * 25 in
  ret {| r_siteSpeed := Unset; r_seoElements := None; r_schemaMarkup := None;
         r_crawlability := None;
         r_mobileOptimization :=
           Some {| mo_data := mobileData; mo_score := score |} |}.

Definition is_comprehensive (t : AuditType) : bool :=
  match t with Comprehensive => true | _ => false end.
Definition is_performance (t : AuditType) : bool :=
  match t with Performance => true | _ => false end.
Definition is_seo (t : AuditType) : bool :=
  match t with Seo => true | _ => false end.

(** The [auditPromises] array of [auditPage]. *)
Definition auditPromises (url : string) (t : AuditType)
  : list (Async PageResults) :=
  (if is_comprehensive t || is_performance t
   then [auditPageSpeed url] else [])
  ++ (if is_comprehensive t || is_seo t
      then [auditSEOElements url; auditSchemaMarkup url] else [])
  ++ (if is_comprehensive t
      then [auditCrawlability url; auditMobileOptimization url] else []).

(** [puppeteer.launch] is awaited before the [try]: when it rejects there
    is no browser and no [close].  Everything else, the page set-up
    included, sits in the [try] whose [finally] awaits [browser.close()]. *)
Definition auditPage (url : string) (t : AuditType) : Async PageAudit :=
  call w (EvLaunch url) (launch w url) ;;;
  try_finally
    (call w (EvNewPage url) (newPage w url) ;;;
     call w (EvSetViewport url 1200 800) (setViewport w url 1200 800) ;;;
     call w (EvSetUserAgent url) (setUserAgent w url) ;;;
     results <- promise_all (auditPromises url t) ;;
     ret {| pa_url := url;
            pa_timestamp := now w url;
            pa_results := fold_left spread results empty_results |})
    (call w (EvClose url) (closeBrowser w url)).

End Service.

(** ** Aggregation helpers *)

Definition default_siteSpeed : SiteSpeed := {| desktop := None; mobile := None |}.

(** [pageAudits[0]?.results || {}], then one [||] per metric. *)
Definition aggregateAuditResults (pageAudits : list PageAudit) : AuditMetrics :=
  let firstPage :=
    match pageAudits with
    | [] => empty_results
    | p :: _ => pa_results p
    end in
  {| siteSpeed :=
       match r_siteSpeed firstPage with
       | Val s => s
       | _ => default_siteSpeed
       end;
     crawlability := r_crawlability firstPage;
     schemaMarkup := r_schemaMarkup firstPage;
     mobileOptimization := r_mobileOptimization firstPage |}.

(** [profile?.score || 0]. *)
Definition profile_score (p : option SpeedProfile) : Q :=
  match p with Some s => sp_score s | None => 0%Q end.

Definition score_or_zero {A} (score : A -> Z) (m : option A) : Q :=
  match m with Some a => inject_Z (score a) | None => 0%Q end.

Definition overall_scores (metrics : AuditMetrics) : list Q :=
  [ profile_score (desktop (siteSpeed metrics));
    profile_score (mobile (siteSpeed metrics));
    score_or_zero cr_score (crawlability metrics);
    score_or_zero sm_score (schemaMarkup metrics);
    score_or_zero mo_score (mobileOptimization metrics) ].

Definition calculateOverallScore (metrics : AuditMetrics) : Z :=
  let scores := overall_scores metrics in
  Js.Math_round
    (fold_left Qplus scores 0%Q / inject_Z (Z.of_nat (List.length scores)))%Q.

(** [x < bound] for a possibly missing [x]: [undefined < bound] is false. *)
Definition below (p : option SpeedProfile) (bound : Q) : bool :=
  match p with
  | Some s => negb (Qle_bool bound (sp_score s))
  | None => false
  end.

Definition poor_desktop_performance : Issue :=
  {| severity := "high";
     category := "performance";
     i_title := "Poor desktop performance";
     i_description := "Desktop page speed score is below recommended threshold";
     affectedPages := ["All pages"];
     recommendation := "Optimize images, minify CSS/JS, enable compression" |}.

Definition missing_localbusiness_schema : Issue :=
  {| severity := "medium";
     category := "schema";
     i_title := "Missing LocalBusiness schema";
     i_description := "LocalBusiness schema markup not detected";
     affectedPages := ["Homepage"];
     recommendation := "Add LocalBusiness schema markup" |}.

Definition identifyIssues (metrics : AuditMetrics) : list Issue :=
  let issues := [] in
  let issues :=
    if below (desktop (siteSpeed metrics)) 70
    then issues ++ [poor_desktop_performance] else issues in
  let issues :=
    if negb match schemaMarkup metrics with
            | Some s => localBusinessSchema (sm_data s)
            | None => false
            end
    then issues ++ [missing_localbusiness_schema] else issues in
  issues.

Definition improve_mobile_speed : Recommendation :=
  {| priority := "high";
     rc_category := "performance";
     rc_title := "Improve mobile page speed";
     rc_description := "Mobile page speed significantly impacts rankings";
     expectedImpact := "Potential 10-15% ranking improvement";
     effort := "medium" |}.

Definition enhance_schema_markup : Recommendation :=
  {| priority := "medium";
     rc_category := "schema";
     rc_title := "Enhance schema markup";
     rc_description := "Add missing schema types for better rich snippets";
     expectedImpact := "Improved SERP appearance";
     effort := "low" |}.

Definition generateRecommendations (metrics : AuditMetrics) (issues : list Issue)
  : list Recommendation :=
  let recommendations := [] in
  let recommendations :=
    if below (mobile (siteSpeed metrics)) 60
    then recommendations ++ [improve_mobile_speed] else recommendations in
  let recommendations :=
    if match schemaMarkup metrics with
       | Some s => sm_score s <? 80
       | None => false
       end
    then recommendations ++ [enhance_schema_markup] else recommendations in
  recommendations.

(** ** Orchestration *)

Definition clinic_not_found : error :=
  {| err_name := "Error"; err_message := "Clinic not found" |}.

Section Orchestration.

Variable w : World.

(** The record handed to [TechnicalAudit.create]. *)
Definition auditRecord (options : TechnicalAuditOptions)
  (pageAudits : list PageAudit) : TechnicalAudit :=
  let aggregatedMetrics := aggregateAuditResults pageAudits in
  let overallScore := calculateOverallScore aggregatedMetrics in
  let issues := identifyIssues aggregatedMetrics in
  let recommendations := generateRecommendations aggregatedMetrics issues in
  {| ta_clinicId := clinicId options;
     ta_auditType := auditType options;
     ta_score := overallScore;
     ta_metrics := aggregatedMetrics;
     ta_issues := issues;
     ta_recommendations := recommendations;
     ta_rawData := pageAudits |}.

Definition performAudit (options : TechnicalAuditOptions)
  : Async TechnicalAudit :=
  try_catch
    (clinic <- call w (EvFindClinic (clinicId options))
                    (findClinic w (clinicId options)) ;;
     if negb clinic then throw clinic_not_found
     else
       pageAudits <- promise_all
                       (map (fun url => auditPage w url (auditType options))
                            (pages options)) ;;
       audit <- call w (EvCreate (clinicId options))
                  match createFails w (auditRecord options pageAudits) with
                  | None => Resolved (auditRecord options pageAudits)
                  | Some e => Rejected e
                  end ;;
       call w (EvInvalidate (String.append "clinic:dashboard:" (clinicId options)))
            (Resolved tt) ;;;
       call w (EvInvalidate (String.append "clinic:audit:" (clinicId options)))
            (Resolved tt) ;;;
       ret audit)
    (fun error => throw error).

End Orchestration.

(** What [queueAudit] hands to [jobQueue.add]: the job name, the job data
    (the options and a priority) and the job settings. *)
Record JobSettings := {
  attempts : Z;
  backoff : string;
  timeout : Z
}.

Record QueuedJob := {
  job_name : string;
  job_options : TechnicalAuditOptions;
  job_priority : string;
  job_settings : JobSettings
}.

Definition queueAudit (options : TechnicalAuditOptions) : QueuedJob :=
  {| job_name := "technical-audit";
     job_options := options;
     job_priority :=
       if is_comprehensive (auditType options) then "high" else "medium";
     job_settings :=
       {| attempts := 2; backoff := "exponential";
          timeout := 10 * 60 * 1000 |} |}.

(** ** Page tasks in flight

    [performAudit] writes
    [Promise.all(options.pages.map(url => this.auditPage(url, ...)))]:
    [map] calls [auditPage] once per URL, in order, and each call runs up
    to its first [await], the one on [puppeteer.launch].  So when [map]
    returns, every page task exists and is waiting for its browser.  From
    there the event loop advances one task at a time, in any order. *)

Module Lifecycle.

Inductive phase :=
| Launching   (* awaiting puppeteer.launch *)
| Open        (* browser launched, checks running *)
| Closing     (* in the finally block, awaiting browser.close *)
| Done.

Record task := { t_url : string; t_phase : phase }.

Definition start (pages : list string) : list task :=
  map (fun url => {| t_url := url; t_phase := Launching |}) pages.

Inductive advance : phase -> phase -> Prop :=
| launch_resolves : advance Launching Open
| launch_rejects : advance Launching Done
| checks_settle : advance Open Closing
| close_settles : advance Closing Done.

Inductive step : list task -> list task -> Prop :=
| step_at pre t post p :
    advance (t_phase t) p ->
    step (pre ++ t :: post) (pre ++ {| t_url := t_url t; t_phase := p |} :: post).

Definition reachable : list task -> list task -> Prop :=
  clos_refl_trans (list task) step.

Definition holds_browser (p : phase) : bool :=
  match p with
  | Open | Closing => true
  | Launching | Done => false
  end.

Definition open_browsers (ts : list task) : nat :=
  List.length (filter (fun t => holds_browser (t_phase t)) ts).

Definition all_open (pages : list string) : list task :=
  map (fun url => {| t_url := url; t_phase := Open |}) pages.

End Lifecycle.

(** ** A concrete world

    One clinic, two pages of one site.  [robots.txt] and [sitemap.xml]
    answer 404; both pages carry a viewport tag and render 375 pixels wide;
    the home page declares a [DentalClinic], the services page also an
    [FAQPage] and an [Organization]. *)

Module Demo.

Definition home := "https://a.test/".
Definition services := "https://a.test/services".

Definition lh (score : Q) : LighthouseResult :=
  {| lhr_performance := score; lhr_speedIndex := 2000; lhr_fcp := 1000;
     lhr_lcp := 2000; lhr_maxPotentialFid := 50; lhr_cls := 1 # 20 |}.

Definition typed (t : string) : Js.json := Js.JObj [("@type", Js.JStr t)].

Definition seo : SeoData :=
  {| title := "A clinic"; metaDescription := None; h1Count := 1; h2Count := 3;
     imgCount := 4; imgAltMissing := 1; internalLinks := 12;
     externalLinks := 2; canonicalUrl := None; robots := None |}.

Definition net_error : error :=
  {| err_name := "Error"; err_message := "net::ERR_NAME_NOT_RESOLVED" |}.

Definition timeout_error : error :=
  {| err_name := "TimeoutError";
     err_message := "Navigation timeout of 30000 ms exceeded" |}.

Definition render_error : error :=
  {| err_name := "Error"; err_message := "Evaluation failed" |}.

Definition world : World :=
  {| findClinic := fun id => Resolved (String.eqb id "clinic-1");
     launch := fun _ => Resolved tt;
     newPage := fun _ => Resolved tt;
     setViewport := fun _ _ _ => Resolved tt;
     setUserAgent := fun _ => Resolved tt;
     closeBrowser := fun _ => Resolved tt;
     lighthouse := fun url _ =>
       if String.eqb url home then Resolved (lh (4 # 5))
       else if String.eqb url services then Resolved (lh (9 # 10))
       else Rejected net_error;
     goto := fun target =>
       if String.eqb target home || String.eqb target services
       then NavStatus 200
       else if String.eqb target "https://a.test/robots.txt"
               || String.eqb target "https://a.test/sitemap.xml"
       then NavStatus 404
       else NavThrow net_error;
     seoDom := fun _ => Resolved seo;
     ldJson := fun url =>
       if String.eqb url home then Resolved [Some (typed "DentalClinic")]
       else Resolved [Some (typed "DentalClinic"); Some (typed "FAQPage");
                      Some (typed "Organization")];
     mobileDom := fun _ =>
       Resolved {| viewportContent :=
                     Some (Some "width=device-width, initial-scale=1");
                   innerWidth := 375 |};
     urlOrigin := fun url =>
       if String.eqb url home || String.eqb url services
       then Some "https://a.test" else None;
     now := fun _ => "2024-01-01T00:00:00.000Z";
     createFails := fun _ => None;
     latency := fun ev =>
       match ev with
       | EvLighthouse _ _ => 5%nat
       | _ => 0%nat
       end |}.

Definition options (urls : list string) : TechnicalAuditOptions :=
  {| clinicId := "clinic-1"; auditType := Comprehensive; pages := urls |}.

(** A page audit with a desktop score of 50 and no structured data. *)
Definition slow_page : PageAudit :=
  {| pa_url := home;
     pa_timestamp := "2024-01-01T00:00:00.000Z";
     pa_results :=
       {| r_siteSpeed :=
            Val {| desktop := Some (speedProfileOf (lh (1 # 2)));
                   mobile := Some (speedProfileOf (lh (1 # 2))) |};
          r_seoElements := Some seo;
          r_schemaMarkup :=
            Some {| sm_data := schemaDataOf []; sm_score := 0;
                    validationErrors := 0 |};
          r_crawlability := Some crawl_fallback;
          r_mobileOptimization := None |} |}.

End Demo.

(** ** Reading the outcome of a run *)

Definition resolved {A} (o : outcome A) : option A :=
  match o with Resolved a => Some a | Rejected _ => None end.

Definition resolved_or {A} (d : A) (o : outcome A) : A :=
  match o with Resolved a => a | Rejected _ => d end.

(** The URLs for which a browser launch was requested, in log order. *)
Definition launch_of (ev : event) : list string :=
  match ev with EvLaunch url => [url] | _ => [] end.

Definition launched (l : list event) : list string := flat_map launch_of l.

(** The aggregation steps of [performAudit], from the page audits to the
    score, the issues and the recommendations of the record. *)
Record Aggregate := {
  ag_score : Z;
  ag_issues : list Issue;
  ag_recommendations : list Recommendation
}.

Definition aggregate (pageAudits : list PageAudit) : Aggregate :=
  let aggregatedMetrics := aggregateAuditResults pageAudits in
  let issues := identifyIssues aggregatedMetrics in
  {| ag_score := calculateOverallScore aggregatedMetrics;
     ag_issues := issues;
     ag_recommendations := generateRecommendations aggregatedMetrics issues |}.

(** [m?.score || 0] as an integer. *)
Definition zscore {A} (score : A -> Z) (m : option A) : Z :=
  match m with Some a => score a | None => 0 end.

(** ** The order on issues named by the specification

    Severity first (critical, high, medium, low), then more affected pages
    first, then the category name, then the first affected page. *)

Definition severity_rank (s : string) : nat :=
  if String.eqb s "critical" then 0
  else if String.eqb s "high" then 1
  else if String.eqb s "medium" then 2
  else if String.eqb s "low" then 3
  else 4.

Definition first_page (i : Issue) : string := hd EmptyString (affectedPages i).

Definition issue_before (i j : Issue) : Prop :=
  let ri := severity_rank (severity i) in
  let rj := severity_rank (severity j) in
  let ni := List.length (affectedPages i) in
  let nj := List.length (affectedPages j) in
  (ri < rj)%nat
  \/ (ri = rj /\ (nj < ni)%nat)
  \/ (ri = rj /\ ni = nj /\ String.ltb (category i) (category j) = true)
  \/ (ri = rj /\ ni = nj /\ category i = category j
      /\ String.ltb (first_page i) (first_page j) = true).

(** ** The scoring rules in the words of the specification *)

(** Crawlability: base 70, +20 for [robots.txt], +10 for a valid sitemap,
    capped at 100. *)
Definition spec_crawl_score (robotsOk sitemapOk : bool) : Z :=
  Z.min 100 (70 + (if robotsOk then 20 else 0) + (if sitemapOk then 10 else 0)).

(** Schema markup: the five weights, capped at 100, minus 2 per malformed
    block, not below 0. *)
Definition spec_schema_score (d : SchemaData) (malformed : Z) : Z :=
  Z.max 0 (Z.min 100 (calculateSchemaScore d) - 2 * malformed).

(** ** Shapes of check results *)

Definition crawl_scored (r s : Z) : Crawlability :=
  {| cr_score := 85 + (if r =? 200 then 10 else 0) + (if s =? 200 then 5 else 0);
     robotsTxt := r =? 200;
     sitemapValid := s =? 200;
     crawlErrors := 0; indexablePages := 0; blockedPages := 0 |}.

Definition only_schemaMarkup (m : SchemaMarkup) : PageResults :=
  {| r_siteSpeed := Unset; r_seoElements := None; r_schemaMarkup := Some m;
     r_crawlability := None; r_mobileOptimization := None |}.

Definition only_siteSpeed (s : slot SiteSpeed) : PageResults :=
  {| r_siteSpeed := s; r_seoElements := None; r_schemaMarkup := None;
     r_crawlability := None; r_mobileOptimization := None |}.

Definition malformed_blocks (blocks : list (option Js.json)) : Z :=
  Z.of_nat (List.length
              (filter (fun b => match b with None => true | Some _ => false end)
                      blocks)).

Definition well_formed (blocks : list (option Js.json)) : list (option Js.json) :=
  filter (fun b => match b with Some _ => true | None => false end) blocks.

Definition points (p : Z) (b : bool) : Z := if b then p else 0.

(** ** Variations of the concrete world *)

Definition with_ldJson (w : World)
  (f : string -> outcome (list (option Js.json))) : World :=
  {| findClinic := findClinic w;
     launch := launch w;
     newPage := newPage w;
     setViewport := setViewport w;
     setUserAgent := setUserAgent w;
     closeBrowser := closeBrowser w;
     lighthouse := lighthouse w;
     goto := goto w;
     seoDom := seoDom w;
     ldJson := f;
     mobileDom := mobileDom w;
     urlOrigin := urlOrigin w;
     now := now w;
     createFails := createFails w;
     latency := latency w |}.

Definition with_goto (w : World)
  (f : string -> nav) : World :=
  {| findClinic := findClinic w;
     launch := launch w;
     newPage := newPage w;
     setViewport := setViewport w;
     setUserAgent := setUserAgent w;
     closeBrowser := closeBrowser w;
     lighthouse := lighthouse w;
     goto := f;
     seoDom := seoDom w;
     ldJson := ldJson w;
     mobileDom := mobileDom w;
     urlOrigin := urlOrigin w;
     now := now w;
     createFails := createFails w;
     latency := latency w |}.

Definition with_lighthouse (w : World)
  (f : string -> FormFactor -> outcome LighthouseResult) : World :=
  {| findClinic := findClinic w;
     launch := launch w;
     newPage := newPage w;
     setViewport := setViewport w;
     setUserAgent := setUserAgent w;
     closeBrowser := closeBrowser w;
     lighthouse := f;
     goto := goto w;
     seoDom := seoDom w;
     ldJson := ldJson w;
     mobileDom := mobileDom w;
     urlOrigin := urlOrigin w;
     now := now w;
     createFails := createFails w;
     latency := latency w |}.

(** Lighthouse times out on every run. *)
Definition speed_down : World :=
  with_lighthouse Demo.world (fun _ _ => Rejected Demo.timeout_error).

(** One malformed block and one LocalBusiness block on every page. *)
Definition one_malformed_block : World :=
  with_ldJson Demo.world
    (fun _ => Resolved [None; Some (Demo.typed "LocalBusiness")]).

(** No structured data on any page. *)
Definition no_schema : World := with_ldJson Demo.world (fun _ => Resolved []).

(** Reading the structured data throws once the page has loaded. *)
Definition schema_down : World :=
  with_ldJson Demo.world (fun _ => Rejected Demo.render_error).

(** Every navigation to a page times out; the site files still answer. *)
Definition pages_time_out : World :=
  with_goto Demo.world
    (fun target =>
       if String.eqb target Demo.home || String.eqb target Demo.services
       then NavThrow Demo.timeout_error
       else goto Demo.world target).

Definition five_urls : list string :=
  ["https://a.test/1"; "https://a.test/2"; "https://a.test/3";
   "https://a.test/4"; "https://a.test/5"].

(** ** Further readings of the call log and of page results *)

Definition close_of (ev : event) : list string :=
  match ev with EvClose url => [url] | _ => [] end.

(** The URLs whose browser was closed, in log order. *)
Definition closed (l : list event) : list string := flat_map close_of l.

(** The external calls a check can make. *)
Definition check_event (ev : event) : bool :=
  match ev with
  | EvLighthouse _ _ | EvGoto _ | EvEvaluate _ | EvSetViewport _ _ _ => true
  | _ => false
  end.

Definition launch_resolves (w : World) (url : string) : bool :=
  negb (is_rejected (launch w url)).

(** The audit types under which [auditPage] pushes each group of checks. *)
Definition runs_speed (t : AuditType) : bool :=
  is_comprehensive t || is_performance t.

Definition runs_seo (t : AuditType) : bool :=
  is_comprehensive t || is_seo t.

Definition speed_of (d m : LighthouseResult) : SiteSpeed :=
  {| desktop := Some (speedProfileOf d); mobile := Some (speedProfileOf m) |}.

Definition schema_of (blocks : list (option Js.json)) : SchemaMarkup :=
  {| sm_data := schemaDataOf blocks;
     sm_score := calculateSchemaScore (schemaDataOf blocks);
     validationErrors := 0 |}.

Definition mobile_of (dom : MobileDom) : MobileOptimization :=
  {| mo_data := mobileDataOf dom;
     mo_score := Js.count_true (mobile_values (mobileDataOf dom)) * 25 |}.

(** Lighthouse reports a performance score between 0 and 1. *)
Definition lighthouse_in_unit (w : World) : Prop :=
  forall url ff r,
    lighthouse w url ff = Resolved r -> (0 <= lhr_performance r <= 1)%Q.

Definition with_launch (w : World)
  (f : string -> outcome unit) : World :=
  {| findClinic := findClinic w;
     launch := f;
     newPage := newPage w;
     setViewport := setViewport w;
     setUserAgent := setUserAgent w;
     closeBrowser := closeBrowser w;
     lighthouse := lighthouse w;
     goto := goto w;
     seoDom := seoDom w;
     ldJson := ldJson w;
     mobileDom := mobileDom w;
     urlOrigin := urlOrigin w;
     now := now w;
     createFails := createFails w;
     latency := latency w |}.

Definition with_closeBrowser (w : World)
  (f : string -> outcome unit) : World :=
  {| findClinic := findClinic w;
     launch := launch w;
     newPage := newPage w;
     setViewport := setViewport w;
     setUserAgent := setUserAgent w;
     closeBrowser := f;
     lighthouse := lighthouse w;
     goto := goto w;
     seoDom := seoDom w;
     ldJson := ldJson w;
     mobileDom := mobileDom w;
     urlOrigin := urlOrigin w;
     now := now w;
     createFails := createFails w;
     latency := latency w |}.

Definition with_createFails (w : World)
  (f : TechnicalAudit -> option error) : World :=
  {| findClinic := findClinic w;
     launch := launch w;
     newPage := newPage w;
     setViewport := setViewport w;
     setUserAgent := setUserAgent w;
     closeBrowser := closeBrowser w;
     lighthouse := lighthouse w;
     goto := goto w;
     seoDom := seoDom w;
     ldJson := ldJson w;
     mobileDom := mobileDom w;
     urlOrigin := urlOrigin w;
     now := now w;
     createFails := f;
     latency := latency w |}.

(** The browser cannot be launched for the services page. *)
Definition services_unlaunchable : World :=
  with_launch Demo.world
    (fun url => if String.eqb url Demo.services
                then Rejected Demo.net_error else Resolved tt).

(** ** [BaseService]: the rate limiter

    [checkRateLimit] talks to Redis with [INCR] and [EXPIRE].  The state
    below is what those two commands read and write: an integer per key
    (a key that holds nothing counts as 0, so that [INCR] makes it 1) and
    the time to live last set on a key.  Time does not pass in this state:
    it describes what happens between two expiries. *)

Module BaseService.

Record Redis := {
  count : string -> Z;
  ttl : string -> option Z
}.

Definition incr (r : Redis) (key : string) : Z * Redis :=
  let n := count r key + 1 in
  (n, {| count := fun k => if String.eqb k key then n else count r k;
         ttl := ttl r |}).

Definition expire (r : Redis) (key : string) (seconds : Z) : Redis :=
  {| count := count r;
     ttl := fun k => if String.eqb k key then Some seconds else ttl r k |}.

Definition checkRateLimit (r : Redis) (key : string) (limit window : Z)
  : bool * Redis :=
  let (current, r1) := incr r key in
  let r2 := if current =? 1 then expire r1 key window else r1 in
  (current <=? limit, r2).

(** The answers of [n] successive calls for one key, and the final state. *)
Fixpoint checkRateLimit_times (n : nat) (r : Redis) (key : string)
  (limit window : Z) : list bool * Redis :=
  match n with
  | O => ([], r)
  | S n' =>
      let (ok, r1) := checkRateLimit r key limit window in
      let (oks, r2) := checkRateLimit_times n' r1 key limit window in
      (ok :: oks, r2)
  end.

Definition fresh : Redis := {| count := fun _ => 0; ttl := fun _ => None |}.

End BaseService.

(** ** [CompetitorAnalysisService]: competitor discovery

    The discovery methods run in the same kind of computation as the audit
    methods, over the calls this service makes. *)

Module CompetitorAnalysis.

(** [competitor.metrics]: the five properties the service writes, the
    time of the last update, and whatever other properties the stored
    object has. *)
Record Metrics := {
  visibility : Z;
  estimatedTraffic : Z;
  backlinks : Z;
  domainAuthority : Z;
  socialFollowers : list (string * Z);
  lastUpdated : option string;
  otherMetrics : list (string * Js.json)
}.

Record Competitor := {
  co_id : string;
  co_clinicId : string;
  co_name : option string;
  co_domain : string;
  co_marketPosition : Z;
  co_monitoringEnabled : bool;
  co_metrics : Metrics
}.

Inductive call :=
| CacheGet (key : string)
| CacheSet (key : string) (value : list Competitor) (seconds : Z)
| FindClinic (id : string)
| SearchKeyword (keyword location : string)
| SearchLocal (query location : string)
| FindOne (clinicId domain : string)
| Create (clinicId domain : string)
| FindCompetitor (id : string)
| SerpDomainMetrics (domain : string)
| AhrefsDomainMetrics (domain : string)
| UpdateMetrics (id : string) (metrics : Metrics)
| Invalidate (pattern : string).

Definition Run (A : Type) : Type := (list call * outcome A)%type.

Definition done {A} (a : A) : Run A := ([], Resolved a).
Definition fail {A} (e : error) : Run A := ([], Rejected e).
Definition ask {A} (c : call) (o : outcome A) : Run A := ([c], o).

Definition andThen {A B} (m : Run A) (k : A -> Run B) : Run B :=
  match m with
  | (l, Resolved a) => let (l', r) := k a in (l ++ l', r)
  | (l, Rejected e) => (l, Rejected e)
  end.

Definition recover {A} (m : Run A) (h : error -> Run A) : Run A :=
  match m with
  | (l, Rejected e) => let (l', r) := h e in (l ++ l', r)
  | _ => m
  end.

(** A call made without [await]: the callee runs up to its first
    suspension, so its calls so far are made, and the caller goes on with
    the promise in hand. *)
Definition start {A} (m : Run A) : Run (Run A) := (fst m, Resolved m).

(** A promise is an object: [Boolean(promise)] is true, settled or not. *)
Definition promise_truthy {A} (p : Run A) : bool := true.

(** [Boolean(s)] for an optional string: [undefined] and the empty string
    are falsy. *)
Definition str_truthy (s : option string) : bool :=
  match s with
  | Some v => negb (String.eqb v EmptyString)
  | None => false
  end.

Definition str_or (s : option string) (d : string) : string :=
  if str_truthy s then match s with Some v => v | None => d end else d.

Record CompetitorDiscoveryOptions := {
  d_clinicId : string;
  d_location : string;
  d_keywords : list string;
  d_maxCompetitors : option Z;
  d_includeLocal : bool;
  d_includePaid : bool
}.

Record Clinic := { clinic_domain : string }.

Record OrganicResult := {
  or_domain : option string;
  or_title : option string;
  or_position : option Z;
  or_link : option string
}.

Record AdResult := {
  ad_domain : option string;
  ad_headline : option string;
  ad_description : option string
}.

Record LocalResult := {
  lr_website : option string;
  lr_title : option string;
  lr_address : option string;
  lr_rating : option Q;
  lr_reviews : option Z
}.

Record SerpResults := {
  organic_results : option (list OrganicResult);
  ads : option (list AdResult)
}.

Record LocalResults := { local_results : option (list LocalResult) }.

Inductive Source := Organic | Local | Paid.

(** A discovered competitor, before it is saved.  The three discovery
    methods fill different properties; the others stay [None]. *)
Record Candidate := {
  cd_domain : string;
  cd_name : option string;
  cd_source : Source;
  cd_position : option Z;
  cd_keyword : option string;
  cd_url : option string;
  cd_address : option string;
  cd_rating : option Q;
  cd_reviews : option Z;
  cd_adText : option string
}.

Record SerpMetrics := { serp_visibility : option Z }.

Record AhrefsMetrics := {
  organicTraffic : option Z;
  ahrefs_backlinks : option Z;
  domainRating : option Z
}.

Record World := {
  redisGet : string -> outcome (option string);
  jsonParse : string -> option Js.json;
  redisSetex : string -> Z -> outcome unit;
  findClinic : string -> outcome (option Clinic);
  searchKeyword : string -> string -> outcome SerpResults;
  searchLocal : string -> string -> outcome LocalResults;
  findOne : string -> string -> outcome (option Competitor);
  create : Competitor -> outcome Competitor;
  optionsJson : CompetitorDiscoveryOptions -> string;
  findCompetitor : string -> outcome (option Competitor);
  serpDomainMetrics : string -> outcome SerpMetrics;
  ahrefsDomainMetrics : string -> outcome AhrefsMetrics;
  random3 : string -> Q * Q * Q;
  updateMetrics : string -> Metrics -> outcome unit;
  clock : string
}.

(** [arr.slice(0, n)] for an integer [n]: a negative [n] counts from the
    end. *)
Definition slice0 {A} (l : list A) (n : Z) : list A :=
  if n <? 0
  then firstn (Z.to_nat (Z.of_nat (List.length l) + n)) l
  else firstn (Z.to_nat n) l.

(** [maxCompetitors || 20]. *)
Definition max_or_20 (m : option Z) : Z :=
  match m with
  | Some n => if n =? 0 then 20 else n
  | None => 20
  end.

(** [filter] with the [seen] set threaded through the callback. *)
Fixpoint dedup_from (seen : list string) (competitors : list Candidate)
  : list Candidate :=
  match competitors with
  | [] => []
  | c :: rest =>
      if existsb (String.eqb (cd_domain c)) seen
      then dedup_from seen rest
      else c :: dedup_from (cd_domain c :: seen) rest
  end.

Definition deduplicateCompetitors (competitors : list Candidate)
  : list Candidate :=
  dedup_from [] competitors.

Section Discovery.

Variable w : World.

(** [getFromCache]: any failure of Redis or of [JSON.parse] reads as a
    miss. *)
Definition getFromCache (key : string) : Run (option Js.json) :=
  recover
    (andThen (ask (CacheGet key) (redisGet w key)) (fun cached =>
       if str_truthy cached
       then match cached with
            | Some text =>
                match jsonParse w text with
                | Some v => done (Some v)
                | None => fail {| err_name := "SyntaxError";
                                  err_message := "Unexpected token" |}
                end
            | None => done None
            end
       else done None))
    (fun _ => done None).

(** [setCache]: a failure of Redis is logged and dropped. *)
Definition setCache (key : string) (value : list Competitor) (seconds : Z)
  : Run unit :=
  recover (ask (CacheSet key value seconds) (redisSetex w key seconds))
          (fun _ => done tt).

Definition isOwnDomain (domain clinicId : string) : Run bool :=
  andThen (ask (FindClinic clinicId) (findClinic w clinicId)) (fun clinic =>
    done match clinic with
         | Some c => String.eqb (clinic_domain c) domain
         | None => false
         end).

(** The [forEach] callback of [discoverOrganicCompetitors]; [competitors]
    is the array built so far. *)
Definition organic_visit (clinicId keyword : string)
  (acc : Run (list Candidate)) (r : OrganicResult) : Run (list Candidate) :=
  andThen acc (fun competitors =>
    if str_truthy (or_domain r)
    then
      let domain := str_or (or_domain r) EmptyString in
      andThen (start (isOwnDomain domain clinicId)) (fun own =>
        if negb (promise_truthy own)
        then done (competitors
                   ++ [{| cd_domain := domain;
                          cd_name := Some (str_or (or_title r) domain);
                          cd_source := Organic;
                          cd_position := or_position r;
                          cd_keyword := Some keyword;
                          cd_url := or_link r;
                          cd_address := None; cd_rating := None;
                          cd_reviews := None; cd_adText := None |}])
        else done competitors)
    else done competitors).

Definition discoverOrganicCompetitors (options : CompetitorDiscoveryOptions)
  : Run (list Candidate) :=
  fold_left
    (fun acc keyword =>
       andThen acc (fun competitors =>
         recover
           (andThen (ask (SearchKeyword keyword (d_location options))
                         (searchKeyword w keyword (d_location options)))
              (fun serpResults =>
                 let organicResults :=
                   match organic_results serpResults with
                   | Some rs => rs
                   | None => []
                   end in
                 fold_left (organic_visit (d_clinicId options) keyword)
                           (slice0 organicResults 10) (done competitors)))
           (fun _ => done competitors)))
    (d_keywords options) (done []).

Definition local_visit (clinicId : string)
  (acc : Run (list Candidate)) (r : LocalResult) : Run (list Candidate) :=
  andThen acc (fun competitors =>
    if str_truthy (lr_website r)
    then
      let domain := str_or (lr_website r) EmptyString in
      andThen (start (isOwnDomain domain clinicId)) (fun own =>
        if negb (promise_truthy own)
        then done (competitors
                   ++ [{| cd_domain := domain;
                          cd_name := lr_title r;
                          cd_source := Local;
                          cd_position := None; cd_keyword := None;
                          cd_url := None;
                          cd_address := lr_address r;
                          cd_rating := lr_rating r;
                          cd_reviews := lr_reviews r;
                          cd_adText := None |}])
        else done competitors)
    else done competitors).

Definition discoverLocalCompetitors (options : CompetitorDiscoveryOptions)
  : Run (list Candidate) :=
  recover
    (andThen (ask (SearchLocal (String.append "dental clinic " (d_location options))
                               (d_location options))
                  (searchLocal w (String.append "dental clinic " (d_location options))
                               (d_location options)))
       (fun localResults =>
          match local_results localResults with
          | Some rs => fold_left (local_visit (d_clinicId options)) rs (done [])
          | None => done []
          end))
    (fun _ => done []).

Definition paid_visit (clinicId keyword : string)
  (acc : Run (list Candidate)) (ad : AdResult) : Run (list Candidate) :=
  andThen acc (fun competitors =>
    if str_truthy (ad_domain ad)
    then
      let domain := str_or (ad_domain ad) EmptyString in
      andThen (start (isOwnDomain domain clinicId)) (fun own =>
        if negb (promise_truthy own)
        then done (competitors
                   ++ [{| cd_domain := domain;
                          cd_name := Some (str_or (ad_headline ad) domain);
                          cd_source := Paid;
                          cd_position := None;
                          cd_keyword := Some keyword;
                          cd_url := None;
                          cd_address := None; cd_rating := None;
                          cd_reviews := None;
                          cd_adText := ad_description ad |}])
        else done competitors)
    else done competitors).

Definition discoverPaidCompetitors (options : CompetitorDiscoveryOptions)
  : Run (list Candidate) :=
  fold_left
    (fun acc keyword =>
       andThen acc (fun competitors =>
         recover
           (andThen (ask (SearchKeyword keyword (d_location options))
                         (searchKeyword w keyword (d_location options)))
              (fun serpResults =>
                 let adResults :=
                   match ads serpResults with
                   | Some rs => rs
                   | None => []
                   end in
                 fold_left (paid_visit (d_clinicId options) keyword)
                           adResults (done competitors)))
           (fun _ => done competitors)))
    (d_keywords options) (done []).

(** One turn of the loop of [saveDiscoveredCompetitors]; [index] is the
    position of [comp] in the list, from 0. *)
Definition save_one (clinicId : string) (saved : list Competitor)
  (index : Z) (comp : Candidate) : Run (list Competitor) :=
  recover
    (andThen (ask (FindOne clinicId (cd_domain comp))
                  (findOne w clinicId (cd_domain comp)))
       (fun found =>
          andThen
            match found with
            | Some competitor => done competitor
            | None =>
                let row := {| co_id := EmptyString;
                              co_clinicId := clinicId;
                              co_name := cd_name comp;
                              co_domain := cd_domain comp;
                              co_marketPosition := index + 1;
                              co_monitoringEnabled := true;
                              co_metrics :=
                                {| visibility := 0; estimatedTraffic := 0;
                                   backlinks := 0; domainAuthority := 0;
                                   socialFollowers := [];
                                   lastUpdated := None;
                                   otherMetrics := [] |} |} in
                ask (Create clinicId (cd_domain comp)) (create w row)
            end
            (fun competitor => done (saved ++ [competitor]))))
    (fun _ => done saved).

Fixpoint save_from (clinicId : string) (index : Z) (saved : list Competitor)
  (competitors : list Candidate) : Run (list Competitor) :=
  match competitors with
  | [] => done saved
  | comp :: rest =>
      andThen (save_one clinicId saved index comp) (fun saved' =>
        save_from clinicId (index + 1) saved' rest)
  end.

Definition saveDiscoveredCompetitors (clinicId : string)
  (competitors : list Candidate) : Run (list Competitor) :=
  save_from clinicId 0 [] competitors.

(** What [discoverCompetitors] returns: the cached value as it was
    parsed, or the competitors it saved. *)
Inductive Discovered :=
| FromCache (v : Js.json)
| Saved (l : list Competitor).

Definition cacheKey (options : CompetitorDiscoveryOptions) : string :=
  String.append "competitors:discovery:"
    (String.append (d_clinicId options)
       (String.append ":" (optionsJson w options))).

Definition cache_hit (cached : option Js.json) : option Js.json :=
  match cached with
  | Some v => if Js.truthy v then Some v else None
  | None => None
  end.

Definition discoverCompetitors (options : CompetitorDiscoveryOptions)
  : Run Discovered :=
  andThen (getFromCache (cacheKey options)) (fun cached =>
    match cache_hit cached with
    | Some v => done (FromCache v)
    | None =>
        recover
          (andThen (ask (FindClinic (d_clinicId options))
                        (findClinic w (d_clinicId options)))
             (fun clinic =>
                match clinic with
                | None => fail clinic_not_found
                | Some _ =>
                    andThen (discoverOrganicCompetitors options) (fun organic =>
                    andThen (if d_includeLocal options
                             then discoverLocalCompetitors options
                             else done []) (fun localCompetitors =>
                    andThen (if d_includePaid options
                             then discoverPaidCompetitors options
                             else done []) (fun paid =>
                    let allCompetitors :=
                      deduplicateCompetitors
                        (organic ++ localCompetitors ++ paid) in
                    let limitedCompetitors :=
                      slice0 allCompetitors
                             (max_or_20 (d_maxCompetitors options)) in
                    andThen (saveDiscoveredCompetitors (d_clinicId options)
                                                       limitedCompetitors)
                      (fun savedCompetitors =>
                    andThen (setCache (cacheKey options) savedCompetitors
                                      (24 * 3600))
                      (fun _ => done (Saved savedCompetitors))))))
                end))
          (fun error => fail error)
    end).

End Discovery.

(** *** Updating a competitor's metrics *)

(** [a || b] on numbers: a missing value and 0 give [b]. *)
Definition num_or (a : option Z) (b : Z) : Z :=
  match a with
  | Some n => if n =? 0 then b else n
  | None => b
  end.

(** Two promises joined by [Promise.all]: both calls are made. *)
Definition both {A B} (m1 : Run A) (m2 : Run B) : Run (A * B) :=
  let (l1, o1) := m1 in
  let (l2, o2) := m2 in
  (l1 ++ l2,
   match o1, o2 with
   | Rejected e, _ => Rejected e
   | Resolved _, Rejected e => Rejected e
   | Resolved a, Resolved b => Resolved (a, b)
   end).

Definition competitor_not_found : error :=
  {| err_name := "Error"; err_message := "Competitor not found" |}.

Section Update.

Variable w : World.

(** [getSocialMetrics]: three draws of [Math.random], scaled and floored. *)
Definition getSocialMetrics (domain : string) : list (string * Z) :=
  let '(r1, r2, r3) := random3 w domain in
  [("facebook", Qfloor (r1 * 5000)%Q);
   ("instagram", Qfloor (r2 * 3000)%Q);
   ("linkedin", Qfloor (r3 * 1000)%Q)].

(** The [updatedMetrics] object; the social metrics object is truthy, so
    it always replaces the stored one. *)
Definition mergeMetrics (old : Metrics) (serp : SerpMetrics)
  (ahrefs : AhrefsMetrics) (social : list (string * Z)) : Metrics :=
  {| visibility := num_or (serp_visibility serp) (visibility old);
     estimatedTraffic := num_or (organicTraffic ahrefs) (estimatedTraffic old);
     backlinks := num_or (ahrefs_backlinks ahrefs) (backlinks old);
     domainAuthority := num_or (domainRating ahrefs) (domainAuthority old);
     socialFollowers := social;
     lastUpdated := Some (clock w);
     otherMetrics := otherMetrics old |}.

Definition rateLimitKey (domain : string) : string :=
  String.append "rate_limit:competitor_update:" domain.

(** [updateCompetitorMetrics], with the Redis state of the rate limiter
    passed in and out. *)
Definition updateCompetitorMetrics (redis : BaseService.Redis)
  (competitorId : string) : Run unit * BaseService.Redis :=
  match findCompetitor w competitorId with
  | Rejected e => (([FindCompetitor competitorId], Rejected e), redis)
  | Resolved None =>
      (([FindCompetitor competitorId], Rejected competitor_not_found), redis)
  | Resolved (Some competitor) =>
      let (canUpdate, redis') :=
        BaseService.checkRateLimit redis (rateLimitKey (co_domain competitor))
                                   10 3600 in
      if negb canUpdate
      then (([FindCompetitor competitorId], Resolved tt), redis')
      else
        (andThen (ask (FindCompetitor competitorId) (Resolved tt)) (fun _ =>
         andThen (both (ask (SerpDomainMetrics (co_domain competitor))
                            (serpDomainMetrics w (co_domain competitor)))
                       (ask (AhrefsDomainMetrics (co_domain competitor))
                            (ahrefsDomainMetrics w (co_domain competitor))))
           (fun metrics =>
              let updatedMetrics :=
                mergeMetrics (co_metrics competitor) (fst metrics) (snd metrics)
                             (getSocialMetrics (co_domain competitor)) in
              andThen (ask (UpdateMetrics competitorId updatedMetrics)
                           (updateMetrics w competitorId updatedMetrics))
                (fun _ =>
              andThen (ask (Invalidate
                              (String.append "competitor:*:" competitorId))
                           (Resolved tt)) (fun _ =>
              ask (Invalidate
                     (String.append "clinic:dashboard:" (co_clinicId competitor)))
                  (Resolved tt))))),
         redis')
  end.

(** [n] successive calls for one competitor: the outcome of each, and the
    final Redis state. *)
Fixpoint update_times (n : nat) (redis : BaseService.Redis)
  (competitorId : string) : list (Run unit) * BaseService.Redis :=
  match n with
  | O => ([], redis)
  | S n' =>
      let (run, redis1) := updateCompetitorMetrics redis competitorId in
      let (runs, redis2) := update_times n' redis1 competitorId in
      (run :: runs, redis2)
  end.

End Update.

End CompetitorAnalysis.

(** ** Reading competitor runs, and a concrete competitor world *)

Module CompetitorDemo.
Import CompetitorAnalysis.

(** The domains looked up with [Competitor.findOne], in call order. *)
Definition lookup_of (c : call) : list string :=
  match c with FindOne _ domain => [domain] | _ => [] end.

Definition lookups (l : list call) : list string := flat_map lookup_of l.

(** The calls the discovery methods make: searches, and the clinic lookup
    of [isOwnDomain]. *)
Definition search_call (c : call) : Prop :=
  match c with
  | SearchKeyword _ _ | SearchLocal _ _ | FindClinic _ => True
  | _ => False
  end.

(** A discovery run that has collected nothing and made search calls
    only. *)
Definition quiet (acc : Run (list Candidate)) : Prop :=
  snd acc = Resolved [] /\ Forall search_call (fst acc).

(** How a reported number relates to the stored and the written one. *)
Definition kept_or_replaced (reported : option Z) (old new : Z) : Prop :=
  (reported = None \/ reported = Some 0 -> new = old) /\
  (forall v, reported = Some v -> v <> 0 -> new = v).

Definition rival : Competitor :=
  {| co_id := "c-7"; co_clinicId := "clinic-1"; co_name := Some "Rival Dental";
     co_domain := "rival.test"; co_marketPosition := 1;
     co_monitoringEnabled := true;
     co_metrics :=
       {| visibility := 40; estimatedTraffic := 1200; backlinks := 35;
          domainAuthority := 22; socialFollowers := [];
          lastUpdated := None;
          otherMetrics := [("notes", Js.JStr "imported")] |} |}.

Definition organic (domain : string) : OrganicResult :=
  {| or_domain := Some domain; or_title := Some "A dental clinic";
     or_position := Some 1; or_link := Some "https://rival.test/" |}.

(** A world with nothing cached, one clinic, and search results that all
    name other domains than the clinic's. *)
Definition world : World :=
  {| redisGet := fun _ => Resolved None;
     jsonParse := fun _ => None;
     redisSetex := fun _ _ => Resolved tt;
     findClinic := fun id =>
       if String.eqb id "clinic-1"
       then Resolved (Some {| clinic_domain := "a.test" |})
       else Resolved None;
     searchKeyword := fun _ _ =>
       Resolved {| organic_results := Some [organic "rival.test";
                                            organic "other.test"];
                   ads := Some [{| ad_domain := Some "ads.test";
                                   ad_headline := None;
                                   ad_description := None |}] |};
     searchLocal := fun _ _ =>
       Resolved {| local_results :=
                     Some [{| lr_website := Some "near.test";
                              lr_title := Some "Near Dental";
                              lr_address := None; lr_rating := None;
                              lr_reviews := None |}] |};
     findOne := fun _ _ => Resolved None;
     create := fun row => Resolved row;
     optionsJson := fun _ => "{}";
     findCompetitor := fun id =>
       if String.eqb id "c-7" then Resolved (Some rival) else Resolved None;
     serpDomainMetrics := fun _ => Resolved {| serp_visibility := Some 0 |};
     ahrefsDomainMetrics := fun _ =>
       Resolved {| organicTraffic := Some 1500; ahrefs_backlinks := None;
                   domainRating := Some 0 |};
     random3 := fun _ => (1 # 2, 1 # 4, 1 # 10)%Q;
     updateMetrics := fun _ _ => Resolved tt;
     clock := "2024-01-01T00:00:00.000Z" |}.

Definition options : CompetitorDiscoveryOptions :=
  {| d_clinicId := "clinic-1"; d_location := "Austin";
     d_keywords := ["dentist"; "emergency dentist"];
     d_maxCompetitors := None; d_includeLocal := true;
     d_includePaid := true |}.

Definition candidate (domain : string) (source : Source) : Candidate :=
  {| cd_domain := domain; cd_name := None; cd_source := source;
     cd_position := None; cd_keyword := None; cd_url := None;
     cd_address := None; cd_rating := None; cd_reviews := None;
     cd_adText := None |}.

(** The row [saveDiscoveredCompetitors] hands to [Competitor.create] for
    the candidate at position [index] (from 0). *)
Definition new_competitor (clinicId : string) (index : Z) (comp : Candidate)
  : Competitor :=
  {| co_id := EmptyString;
     co_clinicId := clinicId;
     co_name := cd_name comp;
     co_domain := cd_domain comp;
     co_marketPosition := index + 1;
     co_monitoringEnabled := true;
     co_metrics :=
       {| visibility := 0; estimatedTraffic := 0; backlinks := 0;
          domainAuthority := 0; socialFollowers := [];
          lastUpdated := None; otherMetrics := [] |} |}.

(** The row the database gives for one candidate, if any: the row found,
    or else the row created. *)
Definition row_for (w : World) (clinicId : string) (index : Z)
  (comp : Candidate) : option Competitor :=
  match findOne w clinicId (cd_domain comp) with
  | Resolved (Some row) => Some row
  | Resolved None =>
      match create w (new_competitor clinicId index comp) with
      | Resolved row => Some row
      | Rejected _ => None
      end
  | Rejected _ => None
  end.

Fixpoint rows_from (w : World) (clinicId : string) (index : Z)
  (competitors : list Candidate) : list Competitor :=
  match competitors with
  | [] => []
  | comp :: rest =>
      match row_for w clinicId index comp with
      | Some row => [row]
      | None => []
      end ++ rows_from w clinicId (index + 1) rest
  end.

(** The domains for which [Competitor.create] was called, in call order. *)
Definition creation_of (c : call) : list string :=
  match c with Create _ domain => [domain] | _ => [] end.

Definition creations (l : list call) : list string := flat_map creation_of l.

(** The second lookup fails and the third finds nothing and cannot
    create. *)
Definition flaky : World :=
  {| redisGet := redisGet world;
     jsonParse := jsonParse world;
     redisSetex := redisSetex world;
     findClinic := findClinic world;
     searchKeyword := searchKeyword world;
     searchLocal := searchLocal world;
     findOne := fun _ domain =>
       if String.eqb domain "a.test"
       then Resolved (Some (new_competitor "clinic-1" 7
                              (candidate "a.test" Organic)))
       else if String.eqb domain "b.test"
       then Rejected {| err_name := "Error"; err_message := "db down" |}
       else Resolved None;
     create := fun row =>
       if String.eqb (co_domain row) "c.test"
       then Rejected {| err_name := "Error"; err_message := "constraint" |}
       else Resolved row;
     optionsJson := optionsJson world;
     findCompetitor := findCompetitor world;
     serpDomainMetrics := serpDomainMetrics world;
     ahrefsDomainMetrics := ahrefsDomainMetrics world;
     random3 := random3 world;
     updateMetrics := updateMetrics world;
     clock := clock world |}.

End CompetitorDemo.

(** ** Reading stamped calls *)

Definition is_launch (ev : event) : bool :=
  match ev with EvLaunch _ => true | _ => false end.

(** Every call of the run is made before the run settles. *)
Definition tidy {A} (m : Async A) : Prop :=
  Forall (fun x => (fst x < took m)%nat) (events m).

(** The page set-up and the close of [auditPage] all succeed. *)
Definition browser_works (w : World) (url : string) : Prop :=
  launch w url = Resolved tt /\
  newPage w url = Resolved tt /\
  setViewport w url 1200 800 = Resolved tt /\
  setUserAgent w url = Resolved tt /\
  closeBrowser w url = Resolved tt.

(** A page's composite score in the words of the specification: the
    arithmetic mean of the scores of the checks that did not error
    ([None] is an errored check), and null when no check succeeded. *)
Definition spec_composite (scores : list (option Z)) : option Q :=
  let ok := flat_map (fun s => match s with Some z => [z] | None => [] end)
                     scores in
  match ok with
  | [] => None
  | _ => Some (Qdiv (inject_Z (fold_right Z.add 0 ok))
                     (inject_Z (Z.of_nat (List.length ok))))
  end.

(** The insert of the audit record fails. *)
Definition insert_fails : World :=
  with_createFails Demo.world
    (fun _ => Some {| err_name := "SequelizeDatabaseError";
                      err_message := "insert failed" |}).

Definition is_close (ev : event) : bool :=
  match ev with EvClose _ => true | _ => false end.

(** The calls a page audit makes once its browser is there. *)
Definition page_event (ev : event) : bool :=
  match ev with
  | EvNewPage _ | EvSetUserAgent _ | EvClose _ => true
  | _ => check_event ev
  end.

(** The calls of a page audit. *)
Definition browser_event (ev : event) : bool :=
  is_launch ev || page_event ev.

(** Every stamped call of [l] satisfies [P]. *)
Definition only (P : event -> bool) (l : list stamped) : Prop :=
  Forall (fun x => P (snd x) = true) l.

(** The page audits [performAudit] starts. *)
Definition pageTasks (w : World) (o : TechnicalAuditOptions)
  : list (Async PageAudit) :=
  map (fun url => auditPage w url (auditType o)) (pages o).

(** The calls that store the record and drop the cached views. *)
Definition persist_event (ev : event) : bool :=
  match ev with EvCreate _ | EvInvalidate _ => true | _ => false end.

(** What [performAudit] calls once the page audits are in: the insert,
    and after a successful insert the two cache invalidations. *)
Definition persists (w : World) (o : TechnicalAuditOptions)
  (ps : list PageAudit) : list stamped :=
  let dashboard := EvInvalidate (String.append "clinic:dashboard:" (clinicId o)) in
  let audit := EvInvalidate (String.append "clinic:audit:" (clinicId o)) in
  let created := S (latency w (EvCreate (clinicId o))) in
  (0%nat, EvCreate (clinicId o))
  :: match createFails w (auditRecord o ps) with
     | Some _ => []
     | None => [ (created, dashboard);
                 ((created + S (latency w dashboard))%nat, audit) ]
     end.

(** Two records of the same page audits: the same check results, kept
    under another URL spelling and stamped at another time. *)
Definition restamp (url_suffix timestamp : string) (p : PageAudit) : PageAudit :=
  {| pa_url := String.append (pa_url p) url_suffix;
     pa_timestamp := timestamp;
     pa_results := pa_results p |}.

Definition first_run : list PageAudit :=
  [ Demo.slow_page;
    {| pa_url := Demo.services;
       pa_timestamp := "2024-01-01T00:00:05.000Z";
       pa_results := only_crawlability crawl_fallback |} ].

Definition second_run : list PageAudit :=
  map (restamp "?utm=1" "2024-06-01T12:00:00.000Z") first_run.






(** * Properties *)

(** ** Generic facts about computations *)

Lemma result_bind A B (m : Async A) (k : A -> Async B) :
  result (bind m k)
  = match result m with
    | Resolved a => result (k a)
    | Rejected e => Rejected e
    end.
Proof. unfold bind. now destruct (result m). Qed.

Lemma events_bind A B (m : Async A) (k : A -> Async B) :
  events (bind m k)
  = events m ++ match result m with
                | Resolved a => shift (took m) (events (k a))
                | Rejected _ => []
                end.
Proof.
  unfold bind. destruct (result m); simpl; [reflexivity|now rewrite app_nil_r].
Qed.

Lemma took_bind A B (m : Async A) (k : A -> Async B) :
  took (bind m k)
  = (took m + match result m with
              | Resolved a => took (k a)
              | Rejected _ => 0
              end)%nat.
Proof. unfold bind. destruct (result m); simpl; lia. Qed.

Lemma result_try_catch A (m : Async A) (h : error -> Async A) :
  result (try_catch m h)
  = match result m with
    | Resolved a => Resolved a
    | Rejected e => result (h e)
    end.
Proof. unfold try_catch. destruct (result m) eqn:H; [exact H|reflexivity]. Qed.

Lemma events_try_catch A (m : Async A) (h : error -> Async A) :
  events (try_catch m h)
  = events m ++ match result m with
                | Resolved _ => []
                | Rejected e => shift (took m) (events (h e))
                end.
Proof.
  unfold try_catch. destruct (result m); simpl; [now rewrite app_nil_r|reflexivity].
Qed.

Lemma took_try_catch A (m : Async A) (h : error -> Async A) :
  took (try_catch m h)
  = (took m + match result m with
              | Resolved _ => 0
              | Rejected e => took (h e)
              end)%nat.
Proof. unfold try_catch. destruct (result m); simpl; lia. Qed.

Lemma result_try_finally A (m : Async A) (c : Async unit) :
  result (try_finally m c)
  = match result c with
    | Resolved _ => result m
    | Rejected e => Rejected e
    end.
Proof. reflexivity. Qed.

Lemma events_try_finally A (m : Async A) (c : Async unit) :
  events (try_finally m c) = events m ++ shift (took m) (events c).
Proof. reflexivity. Qed.

Lemma rethrow_result A (m : Async A) :
  result (try_catch m (fun e => throw e)) = result m.
Proof. rewrite result_try_catch. now destruct (result m). Qed.

Lemma rethrow_events A (m : Async A) :
  events (try_catch m (fun e => throw e)) = events m.
Proof.
  rewrite events_try_catch. destruct (result m); simpl; apply app_nil_r.
Qed.

Lemma promise_all_events A (ts : list (Async A)) :
  events (promise_all ts) = concat (map events ts).
Proof. unfold promise_all. now destruct (first_rejection ts) as [[d e]|]. Qed.

Lemma first_rejection_none A (ts : list (Async A)) :
  first_rejection ts = None
  <-> Forall (fun t => is_rejected (result t) = false) ts.
Proof.
  induction ts as [|t ts IH]; simpl; [split; [constructor|reflexivity]|].
  destruct (result t) as [a|e] eqn:Ht.
  - rewrite IH. split.
    + intros H. constructor; [now rewrite Ht|exact H].
    + intros H. now inversion H.
  - split.
    + destruct (first_rejection ts) as [[d e']|];
        [destruct (took t <=? d)%nat|]; discriminate.
    + intros H. inversion H as [|? ? Hrej _]; subst.
      rewrite Ht in Hrej. discriminate.
Qed.

Lemma promise_all_rejected A (ts : list (Async A)) t :
  In t ts -> is_rejected (result t) = true ->
  is_rejected (result (promise_all ts)) = true.
Proof.
  intros Hin Hrej. unfold promise_all.
  destruct (first_rejection ts) as [[d e]|] eqn:Hfirst; [reflexivity|].
  apply first_rejection_none in Hfirst. rewrite Forall_forall in Hfirst.
  specialize (Hfirst t Hin). congruence.
Qed.

Lemma values_resolved A (ts : list (Async A)) (vs : list A) :
  Forall2 (fun t v => result t = Resolved v) ts vs -> values ts = vs.
Proof.
  unfold values. induction 1 as [|t v ts vs Hv _ IH]; simpl; [reflexivity|].
  now rewrite Hv, IH.
Qed.

Lemma promise_all_resolved A (ts : list (Async A)) (vs : list A) :
  Forall2 (fun t v => result t = Resolved v) ts vs ->
  result (promise_all ts) = Resolved vs.
Proof.
  intros H. unfold promise_all.
  assert (first_rejection ts = None) as ->.
  { apply first_rejection_none. induction H as [|t v ts vs Hv _ IH];
      constructor; [now rewrite Hv|exact IH]. }
  simpl. now rewrite (values_resolved _ _ _ H).
Qed.

Lemma promise_all_resolved_inv A (ts : list (Async A)) (vs : list A) :
  result (promise_all ts) = Resolved vs ->
  Forall2 (fun t v => result t = Resolved v) ts vs.
Proof.
  unfold promise_all.
  destruct (first_rejection ts) as [[d e]|] eqn:Hfirst; [discriminate|].
  simpl. intros [= <-]. apply first_rejection_none in Hfirst.
  unfold values. induction Hfirst as [|t ts Ht _ IH]; simpl; [constructor|].
  destruct (result t) as [a|e] eqn:Hr; [|discriminate].
  simpl. constructor; [exact Hr|exact IH].
Qed.

Lemma promise_all_took_resolved A (ts : list (Async A)) :
  first_rejection ts = None -> took (promise_all ts) = last_settled ts.
Proof. intros H. unfold promise_all. now rewrite H. Qed.

(** ** Sorting stamped calls *)

Lemma insert_perm x l : Permutation (insert x l) (x :: l).
Proof.
  induction l as [|y l IH]; simpl; [reflexivity|].
  destruct (fst x <=? fst y)%nat; [reflexivity|].
  rewrite IH. apply perm_swap.
Qed.

Lemma by_time_perm l : Permutation (by_time l) l.
Proof.
  induction l as [|x l IH]; simpl; [reflexivity|].
  rewrite insert_perm. now constructor.
Qed.

Lemma by_time_in x l : In x (by_time l) <-> In x l.
Proof.
  split; apply Permutation_in; [apply by_time_perm|].
  symmetry. apply by_time_perm.
Qed.

(** Inserting a call that is not later than any call of [l]. *)
Lemma insert_first x l :
  Forall (fun y => (fst x <= fst y)%nat) l -> insert x l = x :: l.
Proof.
  destruct l as [|y l]; [reflexivity|]. intros H. inversion H; subst. simpl.
  destruct (Nat.leb_spec (fst x) (fst y)); [reflexivity|lia].
Qed.

Lemma by_time_cons_first x l :
  Forall (fun y => (fst x <= fst y)%nat) l -> by_time (x :: l) = x :: by_time l.
Proof.
  intros H. simpl. apply insert_first.
  rewrite Forall_forall in *. intros y Hy. apply H. now apply by_time_in.
Qed.

(** Inserting a call that is earlier than every call of [late]. *)
Lemma insert_app_late x l late :
  Forall (fun y => (fst x < fst y)%nat) late ->
  insert x (l ++ late) = insert x l ++ late.
Proof.
  intros Hlate. induction l as [|y l IH]; simpl.
  - destruct late as [|z late]; [reflexivity|].
    inversion Hlate; subst. simpl.
    destruct (Nat.leb_spec (fst x) (fst z)); [reflexivity|lia].
  - destruct (fst x <=? fst y)%nat; [reflexivity|]. now rewrite IH.
Qed.

Lemma by_time_app early late :
  (forall x y, In x early -> In y late -> (fst x < fst y)%nat) ->
  by_time (early ++ late) = by_time early ++ by_time late.
Proof.
  induction early as [|x early IH]; intros H; simpl; [reflexivity|].
  rewrite IH by (intros; apply H; [now right|assumption]).
  apply insert_app_late. rewrite Forall_forall. intros y Hy.
  apply H; [now left|]. now apply by_time_in.
Qed.

Lemma by_time_single x : by_time [x] = [x].
Proof. reflexivity. Qed.

(** Calls made on the same tick keep their order. *)
Lemma insert_at_tick k x l :
  StronglySorted (fun a b => (fst a <= fst b)%nat) l ->
  filter (fun y => (fst y =? k)%nat) (insert x l)
  = filter (fun y => (fst y =? k)%nat) (x :: l).
Proof.
  induction 1 as [|y l Hs IH Hy]; [reflexivity|].
  simpl insert. destruct (Nat.leb_spec (fst x) (fst y)) as [Hle|Hgt];
    [reflexivity|].
  cbn [filter] in *. rewrite IH.
  destruct (Nat.eqb_spec (fst x) k) as [Hx|Hx];
    destruct (Nat.eqb_spec (fst y) k) as [Hyk|Hyk]; try reflexivity.
  lia.
Qed.

Lemma insert_sorted x l :
  StronglySorted (fun a b => (fst a <= fst b)%nat) l ->
  StronglySorted (fun a b => (fst a <= fst b)%nat) (insert x l).
Proof.
  induction 1 as [|y l Hs IH Hy]; simpl; [repeat constructor|].
  destruct (Nat.leb_spec (fst x) (fst y)) as [Hle|Hgt].
  - constructor; [now constructor|].
    constructor; [exact Hle|].
    rewrite Forall_forall in *. intros z Hz. specialize (Hy z Hz). lia.
  - constructor; [exact IH|].
    rewrite Forall_forall in *. intros z Hz.
    apply (Permutation_in _ (insert_perm x l)) in Hz.
    destruct Hz as [<-|Hz]; [lia|now apply Hy].
Qed.

Lemma by_time_sorted l :
  StronglySorted (fun a b => (fst a <= fst b)%nat) (by_time l).
Proof.
  induction l as [|x l IH]; simpl; [constructor|now apply insert_sorted].
Qed.

Lemma by_time_at_tick k l :
  filter (fun y => (fst y =? k)%nat) (by_time l)
  = filter (fun y => (fst y =? k)%nat) l.
Proof.
  induction l as [|x l IH]; [reflexivity|].
  simpl by_time. rewrite insert_at_tick by apply by_time_sorted.
  cbn [filter]. now rewrite IH.
Qed.

Lemma filter_within A (p q : A -> bool) l :
  (forall x, In x l -> p x = true -> q x = true) ->
  filter p (filter q l) = filter p l.
Proof.
  induction l as [|x l IH]; intros H; simpl; [reflexivity|].
  destruct (q x) eqn:Hq; simpl.
  - destruct (p x); rewrite IH; try reflexivity;
      intros; apply H; try assumption; now right.
  - destruct (p x) eqn:Hp.
    + rewrite (H x) in Hq; [discriminate|now left|exact Hp].
    + apply IH. intros; apply H; try assumption; now right.
Qed.

(** Calls of one kind that are all made on tick [k] come out of the sort
    in the order they went in. *)
Lemma by_time_keeps (p : stamped -> bool) k l :
  (forall x, In x l -> p x = true -> fst x = k) ->
  filter p (by_time l) = filter p l.
Proof.
  intros H.
  rewrite <- (filter_within _ p (fun y => (fst y =? k)%nat) (by_time l)).
  - rewrite by_time_at_tick. apply filter_within.
    intros x Hx Hp. apply Nat.eqb_eq. now apply H.
  - intros x Hx Hp. apply Nat.eqb_eq. apply H; [|exact Hp].
    now apply by_time_in.
Qed.

Lemma shift_app d l1 l2 : shift d (l1 ++ l2) = shift d l1 ++ shift d l2.
Proof. apply map_app. Qed.

Lemma shift_calls d l : map snd (shift d l) = map snd l.
Proof. unfold shift. rewrite map_map. reflexivity. Qed.

Lemma shift_in d x l :
  In x (shift d l) -> exists y, In y l /\ x = ((d + fst y)%nat, snd y).
Proof.
  unfold shift. rewrite in_map_iff. intros (y & <- & Hy). now exists y.
Qed.
(** ** Mobile optimization check *)

Lemma mobile_resolved w url r :
  result (auditMobileOptimization w url) = Resolved r ->
  exists dom,
    mobileDom w url = Resolved dom /\
    r = {| r_siteSpeed := Unset; r_seoElements := None; r_schemaMarkup := None;
           r_crawlability := None;
           r_mobileOptimization :=
             Some {| mo_data := mobileDataOf dom;
                     mo_score := Js.count_true (mobile_values (mobileDataOf dom)) * 25 |} |}.
Proof.
  unfold auditMobileOptimization, page_goto, call, await, bind, after, ret.
  cbn.
  destruct (setViewport w url 375 667); cbn; try discriminate;
    destruct (goto w url); cbn; try discriminate;
    destruct (mobileDom w url) as [dom|e]; cbn; try discriminate;
    intros [= <-]; exists dom; split; reflexivity.
Qed.

(** C10: whenever the mobile-optimization check completes, its score is 25
    times the number of true flags among viewportConfiguration,
    responsiveDesign, touchTargetSize and mobileFirstIndex; the last two are
    always reported true, so the score is at least 50 and is one of 50, 75
    and 100. *)
Theorem C10_mobile_score w url r :
  result (auditMobileOptimization w url) = Resolved r ->
  exists m,
    r_mobileOptimization r = Some m /\
    mo_score m
    = 25 * Js.count_true [viewportConfiguration (mo_data m);
                          responsiveDesign (mo_data m);
                          touchTargetSize (mo_data m);
                          mobileFirstIndex (mo_data m)] /\
    touchTargetSize (mo_data m) = true /\
    mobileFirstIndex (mo_data m) = true /\
    50 <= mo_score m /\
    In (mo_score m) [50; 75; 100].
Proof.
  intros H. apply mobile_resolved in H as (dom & _ & ->).
  eexists. split; [reflexivity|]. simpl.
  unfold mobile_values, mobileDataOf. simpl.
  destruct (Js.includes _ _), (innerWidth dom <=? 768); cbn;
    repeat split; try reflexivity; try lia; tauto.
Qed.

Lemma C10_mobile_score_witness :
  exists m,
    r_mobileOptimization
      {| r_siteSpeed := Unset; r_seoElements := None; r_schemaMarkup := None;
         r_crawlability := None;
         r_mobileOptimization :=
           Some {| mo_data := {| viewportConfiguration := true;
                                 responsiveDesign := true;
                                 touchTargetSize := true;
                                 mobileFirstIndex := true |};
                   mo_score := 100 |} |} = Some m /\
    mo_score m
    = 25 * Js.count_true [viewportConfiguration (mo_data m);
                          responsiveDesign (mo_data m);
                          touchTargetSize (mo_data m);
                          mobileFirstIndex (mo_data m)] /\
    touchTargetSize (mo_data m) = true /\
    mobileFirstIndex (mo_data m) = true /\
    50 <= mo_score m /\
    In (mo_score m) [50; 75; 100].
Proof.
  apply (C10_mobile_score Demo.world Demo.home). vm_compute. reflexivity.
Defined.

(** ** Crawlability check *)

(** C3, refuted as stated: with both files answering 404 the check scores
    85, where the specified rule gives 70; 85 is none of 70, 80, 90, 100. *)
Lemma C3_counterexample :
  result (auditCrawlability Demo.world Demo.home)
  = Resolved (only_crawlability (crawl_scored 404 404)) /\
  cr_score (crawl_scored 404 404) = 85 /\
  spec_crawl_score false false = 70 /\
  ~ In (cr_score (crawl_scored 404 404)) [70; 80; 90; 100].
Proof.
  repeat split; try reflexivity.
  cbn. intros [H|[H|[H|[H|[]]]]]; discriminate.
Qed.

(** C3, amended: for a URL that parses, the crawlability check never
    raises.  When both fetches answer, the score is 85, plus 10 if
    [robots.txt] answered exactly 200, plus 5 if [sitemap.xml] answered
    exactly 200, and the two flags are those two tests.  When either fetch
    fails, the result is the fixed fallback: score 60, both flags false,
    one crawl error.  The score is one of 60, 85, 90, 95 and 100. *)
Theorem C3_crawlability_score w url domain :
  urlOrigin w url = Some domain ->
  exists c,
    result (auditCrawlability w url) = Resolved (only_crawlability c) /\
    c = match goto w (String.append domain "/robots.txt"),
              goto w (String.append domain "/sitemap.xml") with
        | NavStatus r, NavStatus s => crawl_scored r s
        | _, _ => crawl_fallback
        end /\
    In (cr_score c) [60; 85; 90; 95; 100].
Proof.
  intros Hdom. unfold auditCrawlability. rewrite Hdom.
  unfold page_goto, call, await, status, try_catch, bind, after, ret, throw.
  cbn.
  destruct (goto w (String.append domain "/robots.txt")) as [e| |r]; cbn;
    try (eexists; repeat split; cbn; tauto).
  destruct (goto w (String.append domain "/sitemap.xml")) as [e| |s]; cbn;
    try (eexists; repeat split; cbn; tauto).
  eexists. repeat split. unfold crawl_scored. cbn.
  destruct (r =? 200), (s =? 200); cbn; tauto.
Qed.

Lemma C3_crawlability_score_witness :
  exists c,
    result (auditCrawlability Demo.world Demo.home)
    = Resolved (only_crawlability c) /\
    c = match goto Demo.world (String.append "https://a.test" "/robots.txt"),
              goto Demo.world (String.append "https://a.test" "/sitemap.xml") with
        | NavStatus r, NavStatus s => crawl_scored r s
        | _, _ => crawl_fallback
        end /\
    In (cr_score c) [60; 85; 90; 95; 100].
Proof.
  apply (C3_crawlability_score Demo.world Demo.home "https://a.test").
  reflexivity.
Defined.

(** ** Schema markup check *)

(** C4, refuted as stated: a page with one malformed block and one
    LocalBusiness block scores 30 with no validation error counted, where
    the specified rule gives 30 - 2 = 28 and one validation error. *)
Lemma C4_counterexample :
  exists m,
    result (auditSchemaMarkup one_malformed_block Demo.home)
    = Resolved (only_schemaMarkup m) /\
    sm_score m = 30 /\
    validationErrors m = 0 /\
    malformed_blocks [None; Some (Demo.typed "LocalBusiness")] = 1 /\
    spec_schema_score (sm_data m)
      (malformed_blocks [None; Some (Demo.typed "LocalBusiness")]) = 28.
Proof. eexists. repeat split. Qed.

Lemma schemas_skip_malformed blocks :
  filter Js.truthy (map parse_or_null blocks)
  = filter Js.truthy (map parse_or_null (well_formed blocks)).
Proof.
  induction blocks as [|[v|] blocks IH]; simpl; [reflexivity| |exact IH].
  destruct (Js.truthy v); now rewrite IH.
Qed.

Lemma schemaDataOf_well_formed blocks :
  schemaDataOf blocks = schemaDataOf (well_formed blocks).
Proof. unfold schemaDataOf. now rewrite <- schemas_skip_malformed. Qed.

Lemma calculateSchemaScore_points d :
  calculateSchemaScore d
  = points 30 (localBusinessSchema d) + points 25 (dentistSchema d)
    + points 20 (faqSchema d) + points 15 (reviewSchema d)
    + points 10 (organizationSchema d).
Proof.
  unfold calculateSchemaScore, points.
  destruct (localBusinessSchema d), (dentistSchema d), (faqSchema d),
    (reviewSchema d), (organizationSchema d); reflexivity.
Qed.

(** C4, amended: when the page loads and its blocks are read, the schema
    score is the sum of 30 points for local-business schema, 25 for dentist
    schema, 20 for FAQ schema, 15 for review/rating schema and 10 for
    organization schema; that sum lies between 0 and 100, so no cap is
    applied.  A malformed block is skipped without stopping the parsing of
    the others, and costs no points: the result is the one the well-formed
    blocks alone give. *)
Theorem C4_schema_score w url blocks :
  (forall e, goto w url <> NavThrow e) ->
  ldJson w url = Resolved blocks ->
  exists m,
    result (auditSchemaMarkup w url) = Resolved (only_schemaMarkup m) /\
    sm_data m = schemaDataOf (well_formed blocks) /\
    sm_score m
    = points 30 (localBusinessSchema (sm_data m))
      + points 25 (dentistSchema (sm_data m))
      + points 20 (faqSchema (sm_data m))
      + points 15 (reviewSchema (sm_data m))
      + points 10 (organizationSchema (sm_data m)) /\
    0 <= sm_score m <= 100.
Proof.
  intros Hgoto Hld.
  unfold auditSchemaMarkup, page_goto, call, await, bind, after, ret. cbn.
  rewrite Hld.
  destruct (goto w url) as [e| |c] eqn:Hg; [now elim (Hgoto e)| |]; cbn;
    (eexists; split; [reflexivity|]; simpl;
     split; [apply schemaDataOf_well_formed|];
     split; [apply calculateSchemaScore_points|];
     rewrite calculateSchemaScore_points; unfold points;
     destruct (localBusinessSchema _), (dentistSchema _), (faqSchema _),
       (reviewSchema _), (organizationSchema _); lia).
Qed.

Lemma C4_schema_score_witness :
  exists m,
    result (auditSchemaMarkup one_malformed_block Demo.home)
    = Resolved (only_schemaMarkup m) /\
    sm_data m
    = schemaDataOf (well_formed [None; Some (Demo.typed "LocalBusiness")]) /\
    sm_score m
    = points 30 (localBusinessSchema (sm_data m))
      + points 25 (dentistSchema (sm_data m))
      + points 20 (faqSchema (sm_data m))
      + points 15 (reviewSchema (sm_data m))
      + points 10 (organizationSchema (sm_data m)) /\
    0 <= sm_score m <= 100.
Proof.
  apply (C4_schema_score one_malformed_block Demo.home).
  - intros e. vm_compute. discriminate.
  - reflexivity.
Defined.

(** ** Aggregation *)

Lemma aggregate_first_page p rest :
  aggregateAuditResults (p :: rest) = aggregateAuditResults [p].
Proof. reflexivity. Qed.

(** C1, evaluated on the code: the home page alone scores 80 and the
    services page alone scores 90, and the audit of both scores 80 or 90
    according to which page is listed first, never their mean 85: only the
    first page audit enters the overall score. *)
Theorem C1_first_page_only :
  option_map ta_score
    (resolved (result (performAudit Demo.world (Demo.options [Demo.home]))))
  = Some 80 /\
  option_map ta_score
    (resolved (result (performAudit Demo.world (Demo.options [Demo.services]))))
  = Some 90 /\
  option_map ta_score
    (resolved (result (performAudit Demo.world
                         (Demo.options [Demo.home; Demo.services]))))
  = Some 80 /\
  option_map ta_score
    (resolved (result (performAudit Demo.world
                         (Demo.options [Demo.services; Demo.home]))))
  = Some 90.
Proof. repeat split; vm_compute; reflexivity. Qed.

(** C5, refuted as stated: with no structured data on either of two
    pages, both page audits report the missing LocalBusiness schema, and the
    record carries one issue for it whose affectedPages is the single label
    "Homepage": one entry, not the two page URLs. *)
Lemma C5_counterexample :
  exists a,
    result (performAudit no_schema (Demo.options [Demo.home; Demo.services]))
    = Resolved a /\
    map (fun p => option_map (fun m => localBusinessSchema (sm_data m))
                             (r_schemaMarkup (pa_results p)))
        (ta_rawData a)
    = [Some false; Some false] /\
    map (fun i => (category i, i_title i, affectedPages i)) (ta_issues a)
    = [("schema", "Missing LocalBusiness schema", ["Homepage"])] /\
    map (fun i => List.length (affectedPages i)) (ta_issues a) <> [2%nat].
Proof.
  eexists. split; [vm_compute; reflexivity|].
  repeat split. cbn. discriminate.
Qed.

(** C5, amended: for every aggregation input the issue list holds at most
    one Issue per (category, title) pair, drawn from the two fixed issues
    "Poor desktop performance" and "Missing LocalBusiness schema"; the
    affectedPages of an Issue is a fixed one-entry label list ("All pages"
    or "Homepage"), whatever the number of pages that fail the check. *)
Theorem C5_one_issue_per_title pageAudits :
  let issues := identifyIssues (aggregateAuditResults pageAudits) in
  NoDup (map (fun i => (category i, i_title i)) issues) /\
  Forall (fun i => i = poor_desktop_performance
                   \/ i = missing_localbusiness_schema) issues /\
  Forall (fun i => List.length (affectedPages i) = 1%nat) issues.
Proof.
  cbv zeta. unfold identifyIssues.
  destruct (below _ 70), (negb _); simpl;
    repeat split;
    repeat (constructor; simpl; auto);
    intuition discriminate.
Qed.

Example slow_page_issues :
  ag_issues (aggregate [Demo.slow_page])
  = [poor_desktop_performance; missing_localbusiness_schema] /\
  ag_score (aggregate [Demo.slow_page]) = 32.
Proof. split; vm_compute; reflexivity. Qed.


(** ** Calls, duration and outcome of composed computations *)

Lemma events_call A w ev (o : outcome A) : events (call w ev o) = [(0%nat, ev)].
Proof. reflexivity. Qed.

Lemma took_call A w ev (o : outcome A) : took (call w ev o) = S (latency w ev).
Proof. reflexivity. Qed.

Lemma result_call A w ev (o : outcome A) : result (call w ev o) = o.
Proof. reflexivity. Qed.

Lemma only_app P l1 l2 : only P l1 -> only P l2 -> only P (l1 ++ l2).
Proof. intros H1 H2. apply Forall_app. now split. Qed.

Lemma only_shift P d l : only P l -> only P (shift d l).
Proof.
  unfold only, shift. intros H. apply Forall_map.
  eapply Forall_impl; [|exact H]. now intros [t ev].
Qed.

Lemma only_weaken (P Q : event -> bool) l :
  (forall ev, P ev = true -> Q ev = true) -> only P l -> only Q l.
Proof. intros HPQ. apply Forall_impl. intros x. apply HPQ. Qed.

Lemma only_call P A w ev (o : outcome A) :
  P ev = true -> only P (events (call w ev o)).
Proof. intros H. constructor; [exact H|constructor]. Qed.

Lemma only_ret P A (a : A) : only P (events (ret a)).
Proof. constructor. Qed.

Lemma only_throw P A e : only P (events (@throw A e)).
Proof. constructor. Qed.

Lemma only_bind P A B (m : Async A) (k : A -> Async B) :
  only P (events m) -> (forall a, only P (events (k a))) ->
  only P (events (bind m k)).
Proof.
  intros Hm Hk. rewrite events_bind. apply only_app; [exact Hm|].
  destruct (result m); [now apply only_shift|constructor].
Qed.

Lemma only_try_catch P A (m : Async A) (h : error -> Async A) :
  only P (events m) -> (forall e, only P (events (h e))) ->
  only P (events (try_catch m h)).
Proof.
  intros Hm Hh. rewrite events_try_catch. apply only_app; [exact Hm|].
  destruct (result m); [constructor|now apply only_shift].
Qed.

Lemma only_try_finally P A (m : Async A) (c : Async unit) :
  only P (events m) -> only P (events c) -> only P (events (try_finally m c)).
Proof.
  intros Hm Hc. rewrite events_try_finally.
  apply only_app; [exact Hm|now apply only_shift].
Qed.

Lemma only_concat P (ls : list (list stamped)) :
  Forall (only P) ls -> only P (concat ls).
Proof.
  induction 1 as [|l ls Hl _ IH]; simpl; [constructor|now apply only_app].
Qed.

Lemma only_promise_all P A (ts : list (Async A)) :
  Forall (fun t => only P (events t)) ts -> only P (events (promise_all ts)).
Proof.
  intros H. rewrite promise_all_events. apply only_concat.
  now apply Forall_map.
Qed.

Lemma only_status P r : only P (events (status r)).
Proof. destruct r; constructor. Qed.

Create HintDb calls.

#[local] Hint Resolve only_call only_ret only_throw only_bind only_try_catch
  only_try_finally only_promise_all only_status : calls.

Lemma only_in P (l : list stamped) x : only P l -> In x l -> P (snd x) = true.
Proof. unfold only. rewrite Forall_forall. auto. Qed.

Lemma calls_in A (m : Async A) ev :
  In ev (calls m) <-> exists t, In (t, ev) (events m).
Proof.
  unfold calls. rewrite in_map_iff. split.
  - intros ([t ev'] & <- & Hin). exists t. now apply by_time_in.
  - intros (t & Hin). exists (t, ev). split; [reflexivity|].
    now apply by_time_in.
Qed.

Lemma calls_only P A (m : Async A) :
  only P (events m) -> Forall (fun ev => P ev = true) (calls m).
Proof.
  intros H. apply Forall_forall. intros ev Hev.
  apply calls_in in Hev as (t & Hin). exact (only_in _ _ _ H Hin).
Qed.

Lemma filter_map_snd (p : event -> bool) (l : list stamped) :
  filter p (map snd l) = map snd (filter (fun x => p (snd x)) l).
Proof.
  induction l as [|x l IH]; simpl; [reflexivity|].
  destruct (p (snd x)); simpl; now rewrite IH.
Qed.

(** Calls of one kind that are all made on the same tick appear in the
    log in the order in which the program makes them. *)
Lemma calls_keep (p : event -> bool) k A (m : Async A) :
  (forall x, In x (events m) -> p (snd x) = true -> fst x = k) ->
  filter p (calls m) = filter p (map snd (events m)).
Proof.
  intros H. unfold calls. rewrite !filter_map_snd. f_equal.
  now apply by_time_keeps with (k := k).
Qed.

(** ** The checks *)

Lemma checks_only_check_events w url t :
  Forall (fun c => only check_event (events c)) (auditPromises w url t).
Proof.
  unfold auditPromises.
  assert (only check_event (events (auditPageSpeed w url))) as H1
    by (unfold auditPageSpeed; auto 10 with calls).
  assert (only check_event (events (auditSEOElements w url))) as H2
    by (unfold auditSEOElements, page_goto; auto 10 with calls).
  assert (only check_event (events (auditSchemaMarkup w url))) as H3
    by (unfold auditSchemaMarkup, page_goto; cbv zeta; auto 10 with calls).
  assert (only check_event (events (auditCrawlability w url))) as H4
    by (unfold auditCrawlability, page_goto; destruct (urlOrigin w url);
        cbv zeta; auto 12 with calls).
  assert (only check_event (events (auditMobileOptimization w url))) as H5
    by (unfold auditMobileOptimization, page_goto; cbv zeta;
        auto 10 with calls).
  destruct t; simpl; repeat constructor; assumption.
Qed.

(** ** The calls of a page audit *)

Lemma auditPage_result w url t :
  result (auditPage w url t)
  = match launch w url with
    | Rejected e => Rejected e
    | Resolved _ =>
        match closeBrowser w url with
        | Rejected e => Rejected e
        | Resolved _ =>
            match newPage w url with
            | Rejected e => Rejected e
            | Resolved _ =>
                match setViewport w url 1200 800 with
                | Rejected e => Rejected e
                | Resolved _ =>
                    match setUserAgent w url with
                    | Rejected e => Rejected e
                    | Resolved _ =>
                        match result (promise_all (auditPromises w url t)) with
                        | Rejected e => Rejected e
                        | Resolved results =>
                            Resolved
                              {| pa_url := url;
                                 pa_timestamp := now w url;
                                 pa_results :=
                                   fold_left spread results empty_results |}
                        end
                    end
                end
            end
        end
    end.
Proof.
  unfold auditPage.
  rewrite result_bind, result_call.
  destruct (launch w url); [|reflexivity].
  rewrite result_try_finally, result_call.
  destruct (closeBrowser w url); [|reflexivity].
  rewrite result_bind, result_call.
  destruct (newPage w url); [|reflexivity].
  rewrite result_bind, result_call.
  destruct (setViewport w url 1200 800); [|reflexivity].
  rewrite result_bind, result_call.
  destruct (setUserAgent w url); [|reflexivity].
  rewrite result_bind.
  destruct (result (promise_all _)); reflexivity.
Qed.

(** A page audit calls [puppeteer.launch] first, and nothing it calls
    later is a launch. *)
Lemma auditPage_events w url t :
  exists later,
    events (auditPage w url t) = (0%nat, EvLaunch url) :: later /\
    only page_event later.
Proof.
  unfold auditPage. rewrite events_bind, events_call, result_call.
  cbn [app]. eexists. split; [reflexivity|].
  destruct (launch w url); [|constructor].
  apply only_shift, only_try_finally; [|auto with calls].
  repeat (apply only_bind; [auto with calls|intros _]).
  apply only_bind; [|auto with calls].
  apply only_promise_all.
  eapply Forall_impl; [|apply checks_only_check_events].
  intros c. apply only_weaken. now intros [].
Qed.

Lemma launched_app l1 l2 : launched (l1 ++ l2) = launched l1 ++ launched l2.
Proof. apply flat_map_app. Qed.

Lemma launched_filter l : launched l = launched (filter is_launch l).
Proof.
  induction l as [|ev l IH]; [reflexivity|].
  destruct ev; simpl; try exact IH. now rewrite IH.
Qed.

Lemma launched_none (l : list stamped) :
  only page_event l -> launched (map snd l) = [].
Proof.
  induction 1 as [|[t ev] l Hev _ IH]; [reflexivity|].
  simpl in *. rewrite IH. now destruct ev.
Qed.

Lemma launched_in url l : In url (launched l) -> In (EvLaunch url) l.
Proof.
  unfold launched. rewrite in_flat_map. intros (ev & Hin & Hev).
  destruct ev; simpl in Hev; try tauto.
  destruct Hev as [->|[]]. exact Hin.
Qed.

Lemma page_event_not_launch ev : page_event ev = true -> is_launch ev = false.
Proof. now destruct ev. Qed.

(** All page audits are started on the tick at which they are mapped, so
    their launches are the first calls they make, in page order. *)
Lemma page_audits_launch_first w t urls x :
  In x (concat (map events (map (fun url => auditPage w url t) urls))) ->
  is_launch (snd x) = true -> fst x = 0%nat.
Proof.
  induction urls as [|url urls IH]; simpl; [tauto|].
  rewrite in_app_iff. intros [Hin|Hin] Hx; [|now apply IH].
  destruct (auditPage_events w url t) as (later & Hev & Hlater).
  rewrite Hev in Hin. destruct Hin as [<-|Hin]; [reflexivity|].
  apply (only_in _ _ _ Hlater), page_event_not_launch in Hin. congruence.
Qed.

Lemma page_audits_launched w t urls :
  launched (map snd (concat (map events (map (fun url => auditPage w url t) urls))))
  = urls.
Proof.
  induction urls as [|url urls IH]; [reflexivity|].
  cbn [map concat]. rewrite map_app, launched_app.
  destruct (auditPage_events w url t) as (later & -> & Hlater).
  cbn [map snd]. change (launched (EvLaunch url :: map snd later))
    with (url :: launched (map snd later)).
  rewrite (launched_none _ Hlater). cbn [app]. f_equal. exact IH.
Qed.

(** ** The calls of a whole audit *)

Lemma performAudit_result w o :
  result (performAudit w o)
  = match findClinic w (clinicId o) with
    | Rejected e => Rejected e
    | Resolved false => Rejected clinic_not_found
    | Resolved true =>
        match result (promise_all (pageTasks w o)) with
        | Rejected e => Rejected e
        | Resolved ps =>
            match createFails w (auditRecord o ps) with
            | None => Resolved (auditRecord o ps)
            | Some e => Rejected e
            end
        end
    end.
Proof.
  unfold performAudit, pageTasks.
  rewrite rethrow_result, result_bind, result_call.
  destruct (findClinic w (clinicId o)) as [[|]|e]; try reflexivity.
  cbn [negb]. rewrite result_bind.
  destruct (result (promise_all _)) as [ps|e]; [|reflexivity].
  rewrite result_bind, result_call.
  destruct (createFails w (auditRecord o ps)); reflexivity.
Qed.

Lemma performAudit_events w o :
  events (performAudit w o)
  = (0%nat, EvFindClinic (clinicId o))
    :: match findClinic w (clinicId o) with
       | Resolved true =>
           shift (S (latency w (EvFindClinic (clinicId o))))
             (concat (map events (pageTasks w o))
              ++ match result (promise_all (pageTasks w o)) with
                 | Resolved ps =>
                     shift (took (promise_all (pageTasks w o))) (persists w o ps)
                 | Rejected _ => []
                 end)
       | _ => []
       end.
Proof.
  unfold performAudit, pageTasks.
  rewrite rethrow_events, events_bind, events_call, result_call, took_call.
  cbn [app]. f_equal.
  destruct (findClinic w (clinicId o)) as [[|]|e]; try reflexivity.
  cbn [negb]. rewrite events_bind, promise_all_events. do 2 f_equal.
  destruct (result (promise_all _)) as [ps|e]; [|reflexivity]. f_equal.
  rewrite events_bind, events_call, result_call, took_call.
  unfold persists. cbn [app]. f_equal.
  destruct (createFails w (auditRecord o ps)); [reflexivity|].
  cbn. rewrite !Nat.add_0_r. reflexivity.
Qed.

Lemma persists_only w o ps : only persist_event (persists w o ps).
Proof.
  unfold persists. destruct (createFails w (auditRecord o ps));
    repeat constructor.
Qed.

(** The calls of [performAudit] are the clinic lookup, calls of page
    audits, and calls that store the record. *)
Lemma performAudit_call_kinds w o x :
  In x (events (performAudit w o)) ->
  x = (0%nat, EvFindClinic (clinicId o))
  \/ (findClinic w (clinicId o) = Resolved true /\
      ((exists y, In y (concat (map events (pageTasks w o))) /\
                  x = ((S (latency w (EvFindClinic (clinicId o))) + fst y)%nat, snd y))
       \/ (persist_event (snd x) = true /\
           exists ps, result (promise_all (pageTasks w o)) = Resolved ps /\
                      In (snd x) (map snd (persists w o ps))))).
Proof.
  rewrite performAudit_events. intros [<-|Hin]; [now left|]. right.
  destruct (findClinic w (clinicId o)) as [[|]|e]; try destruct Hin.
  split; [reflexivity|].
  apply shift_in in Hin as (y & Hy & ->).
  apply in_app_iff in Hy as [Hy|Hy]; [left; now exists y|]. right.
  destruct (result (promise_all (pageTasks w o))) as [ps|e]; [|destruct Hy].
  apply shift_in in Hy as (z & Hz & ->). cbn [snd]. split.
  - exact (only_in _ _ _ (persists_only w o ps) Hz).
  - exists ps. split; [reflexivity|]. now apply in_map.
Qed.

Lemma performAudit_launched w o :
  findClinic w (clinicId o) = Resolved true ->
  launched (calls (performAudit w o)) = pages o.
Proof.
  intros Hc. rewrite launched_filter.
  rewrite calls_keep with (k := S (latency w (EvFindClinic (clinicId o)))).
  - rewrite <- launched_filter, performAudit_events, Hc.
    cbn [map snd]. change (launched (EvFindClinic (clinicId o) :: ?l))
      with (launched l).
    rewrite shift_calls, map_app, launched_app.
    unfold pageTasks. rewrite page_audits_launched.
    destruct (result (promise_all _)) as [ps|e]; [|apply app_nil_r].
    rewrite shift_calls.
    assert (launched (map snd (persists w o ps)) = []) as ->;
      [|apply app_nil_r].
    unfold persists. now destruct (createFails w (auditRecord o ps)).
  - intros x Hin Hx.
    apply performAudit_call_kinds in Hin
        as [->|(_ & [(y & Hy & ->)|(Hp & _)])].
    + discriminate.
    + cbn [fst snd] in *.
      rewrite (page_audits_launch_first w (auditType o) (pages o) y Hy Hx).
      apply Nat.add_0_r.
    + destruct (snd x); discriminate.
Qed.

Lemma performAudit_page_failure w o url :
  findClinic w (clinicId o) = Resolved true ->
  In url (pages o) ->
  is_rejected (result (auditPage w url (auditType o))) = true ->
  is_rejected (result (performAudit w o)) = true.
Proof.
  intros Hc Hin Hrej. rewrite performAudit_result, Hc.
  assert (is_rejected (result (promise_all (pageTasks w o))) = true) as H.
  { apply promise_all_rejected with (t := auditPage w url (auditType o));
      [|exact Hrej].
    apply in_map_iff. now exists url. }
  destruct (result (promise_all _)); [discriminate|reflexivity].
Qed.

Lemma performAudit_no_clinic w o :
  findClinic w (clinicId o) = Resolved false ->
  calls (performAudit w o) = [EvFindClinic (clinicId o)] /\
  result (performAudit w o) = Rejected clinic_not_found.
Proof.
  intros Hc. unfold calls.
  rewrite performAudit_events, performAudit_result, Hc. now split.
Qed.

(** ** Determinism and order of the aggregation *)

Lemma aggregate_results_only pageAudits1 pageAudits2 :
  map pa_results pageAudits1 = map pa_results pageAudits2 ->
  aggregate pageAudits1 = aggregate pageAudits2.
Proof.
  intros H. unfold aggregate.
  assert (aggregateAuditResults pageAudits1 = aggregateAuditResults pageAudits2)
    as ->; [|reflexivity].
  unfold aggregateAuditResults.
  destruct pageAudits1 as [|p1 l1], pageAudits2 as [|p2 l2];
    try discriminate; [reflexivity|].
  injection H as -> _. reflexivity.
Qed.

Lemma issues_shape metrics :
  identifyIssues metrics = []
  \/ identifyIssues metrics = [poor_desktop_performance]
  \/ identifyIssues metrics = [missing_localbusiness_schema]
  \/ identifyIssues metrics
     = [poor_desktop_performance; missing_localbusiness_schema].
Proof.
  unfold identifyIssues. destruct (below _ 70), (negb _); simpl; tauto.
Qed.

Lemma issue_before_asym i j :
  (i = poor_desktop_performance \/ i = missing_localbusiness_schema) ->
  (j = poor_desktop_performance \/ j = missing_localbusiness_schema) ->
  issue_before i j -> ~ issue_before j i.
Proof.
  intros [-> | ->] [-> | ->]; unfold issue_before; cbn;
    intros [H|[H|[H|H]]] [H'|[H'|[H'|H']]];
    repeat match goal with H : _ /\ _ |- _ => destruct H end;
    try lia; discriminate.
Qed.

(** C6: aggregation is a function of the check results alone: two calls on
    page-audit lists that carry the same results, whatever their URLs and
    timestamps, and in particular two calls on the same list, yield the same
    score, the same issues in the same order and the same recommendations.
    The issue list is strictly ordered by severity, then by number of
    affected pages descending, then by category name, then by first
    affected page; that order is total on the list.  The code reaches this
    without sorting: it emits at most the "high" performance issue followed
    by the "medium" schema issue, so no two issues of a list share a
    severity and none of the tie-breaking rules is ever needed. *)
Theorem C6_aggregate_deterministic_ordered pageAudits1 pageAudits2 out1 out2 :
  map pa_results pageAudits1 = map pa_results pageAudits2 ->
  out1 = aggregate pageAudits1 ->
  out2 = aggregate pageAudits2 ->
  out1 = out2 /\
  ag_score out1 = ag_score out2 /\
  ag_issues out1 = ag_issues out2 /\
  StronglySorted issue_before (ag_issues out1) /\
  StronglySorted
    (fun i j => (severity_rank (severity i) < severity_rank (severity j))%nat)
    (ag_issues out1) /\
  (forall i j,
      In i (ag_issues out1) -> In j (ag_issues out1) ->
      i = j \/ issue_before i j \/ issue_before j i) /\
  (forall i j,
      In i (ag_issues out1) -> In j (ag_issues out1) ->
      issue_before i j -> ~ issue_before j i).
Proof.
  intros Hsame -> ->. rewrite (aggregate_results_only _ _ Hsame).
  split; [reflexivity|]. split; [reflexivity|]. split; [reflexivity|].
  unfold aggregate. cbn [ag_issues].
  assert (issue_before poor_desktop_performance missing_localbusiness_schema)
    as Hbefore by (left; cbn; lia).
  destruct (issues_shape (aggregateAuditResults pageAudits2))
    as [-> | [-> | [-> | ->]]];
    (split; [repeat (constructor; auto)|]);
    (split; [repeat (constructor; cbn; auto)|]);
    (split;
     [cbn [In]; intros i j Hi Hj; intuition (subst; auto)
     |intros i j Hi Hj; apply issue_before_asym;
      cbn [In] in Hi, Hj; intuition auto]).
Qed.

Lemma C6_aggregate_deterministic_ordered_witness :
  aggregate first_run = aggregate second_run /\
  map pa_url first_run <> map pa_url second_run /\
  ag_issues (aggregate second_run)
  = [poor_desktop_performance; missing_localbusiness_schema] /\
  StronglySorted issue_before (ag_issues (aggregate first_run)).
Proof.
  destruct (C6_aggregate_deterministic_ordered first_run second_run
              (aggregate first_run) (aggregate second_run)
              eq_refl eq_refl eq_refl)
    as (Hsame & _ & Hissues & Hsorted & _).
  split; [exact Hsame|]. split; [discriminate|].
  split; [rewrite <- Hissues; reflexivity|exact Hsorted].
Defined.

(** ** Single-page audits *)

Ltac run_check :=
  unfold auditPageSpeed, auditSEOElements, auditSchemaMarkup,
    auditCrawlability, auditMobileOptimization, page_goto, status, call,
    await, try_catch, bind, after, ret, throw;
  cbn.

Lemma speed_contained w url :
  exists s,
    result (auditPageSpeed w url) = Resolved (only_siteSpeed s) /\
    s <> Unset /\
    ((exists ff e, lighthouse w url ff = Rejected e) -> s = Null).
Proof.
  run_check.
  destruct (lighthouse w url DesktopForm) as [d|e1] eqn:Hd; cbn;
    [destruct (lighthouse w url MobileForm) as [m|e2] eqn:Hm; cbn|];
    eexists; (split; [reflexivity|]); (split; [discriminate|]);
    try reflexivity.
  intros ([|] & e & He); congruence.
Qed.

Lemma crawl_contained w url domain :
  urlOrigin w url = Some domain ->
  result (auditCrawlability w url)
  = Resolved (only_crawlability
                match goto w (String.append domain "/robots.txt"),
                      goto w (String.append domain "/sitemap.xml") with
                | NavStatus r, NavStatus s => crawl_scored r s
                | _, _ => crawl_fallback
                end).
Proof.
  intros Hdom. unfold auditCrawlability. rewrite Hdom. run_check.
  destruct (goto w (String.append domain "/robots.txt")); cbn; try reflexivity.
  destruct (goto w (String.append domain "/sitemap.xml")); reflexivity.
Qed.

Lemma seo_resolved w url r :
  result (auditSEOElements w url) = Resolved r ->
  exists d,
    r = {| r_siteSpeed := Unset; r_seoElements := Some d;
           r_schemaMarkup := None; r_crawlability := None;
           r_mobileOptimization := None |}.
Proof.
  run_check.
  destruct (goto w url); cbn; try discriminate;
    destruct (seoDom w url) as [d|e]; cbn; try discriminate;
    intros [= <-]; now exists d.
Qed.

Lemma schema_resolved w url r :
  result (auditSchemaMarkup w url) = Resolved r ->
  exists m, r = only_schemaMarkup m.
Proof.
  run_check.
  destruct (goto w url); cbn; try discriminate;
    destruct (ldJson w url) as [d|e]; cbn; try discriminate;
    intros [= <-]; eexists; reflexivity.
Qed.

Lemma score_or_zero_zscore A (score : A -> Z) m :
  score_or_zero score m = inject_Z (zscore score m).
Proof. now destruct m. Qed.

Lemma Math_round_comp x y : (x == y)%Q -> Js.Math_round x = Js.Math_round y.
Proof. intros H. unfold Js.Math_round. apply Qfloor_comp. now rewrite H. Qed.

Lemma overall_score_without_speed page :
  r_siteSpeed (pa_results page) = Null ->
  calculateOverallScore (aggregateAuditResults [page])
  = Js.Math_round
      (inject_Z (0 + 0
                 + zscore cr_score (r_crawlability (pa_results page))
                 + zscore sm_score (r_schemaMarkup (pa_results page))
                 + zscore mo_score (r_mobileOptimization (pa_results page)))
       / 5)%Q.
Proof.
  intros Hs. unfold calculateOverallScore, aggregateAuditResults, overall_scores.
  simpl. rewrite Hs. simpl. rewrite !score_or_zero_zscore.
  apply Math_round_comp. rewrite !inject_Z_plus. simpl. field.
Qed.

Lemma auditPage_browser_works w url t :
  browser_works w url ->
  result (auditPage w url t)
  = match result (promise_all (auditPromises w url t)) with
    | Rejected e => Rejected e
    | Resolved results =>
        Resolved {| pa_url := url;
                    pa_timestamp := now w url;
                    pa_results := fold_left spread results empty_results |}
    end.
Proof.
  intros (Hl & Hn & Hv & Hu & Hc).
  now rewrite auditPage_result, Hl, Hc, Hn, Hv, Hu.
Qed.

(** C2, refuted as stated: Lighthouse times out on a page whose
    crawlability, schema and mobile checks complete with scores 85, 55 and
    100.  Exactly one check errors and the other three results are
    present, as specified; but the score computed for this page is 48, the
    rounded mean of five scores with the failed check counted as two zeros,
    where the specification asks for the mean of the three non-errored
    scores, 80. *)
Lemma C2_counterexample :
  (exists ff e, lighthouse speed_down Demo.home ff = Rejected e) /\
  exists page c s m q,
    result (auditPage speed_down Demo.home Comprehensive) = Resolved page /\
    r_siteSpeed (pa_results page) = Null /\
    r_crawlability (pa_results page) = Some c /\
    r_schemaMarkup (pa_results page) = Some s /\
    r_mobileOptimization (pa_results page) = Some m /\
    (cr_score c, sm_score s, mo_score m) = (85, 55, 100) /\
    spec_composite [None; Some (cr_score c); Some (sm_score s);
                    Some (mo_score m)] = Some q /\
    (q == 80)%Q /\
    calculateOverallScore (aggregateAuditResults [page]) = 48 /\
    ~ (inject_Z (calculateOverallScore (aggregateAuditResults [page])) == q)%Q.
Proof.
  split; [exists DesktopForm, Demo.timeout_error; reflexivity|].
  do 5 eexists.
  split; [vm_compute; reflexivity|].
  split; [reflexivity|]. split; [reflexivity|]. split; [reflexivity|].
  split; [reflexivity|]. split; [reflexivity|]. split; [reflexivity|].
  split; [reflexivity|]. split; [reflexivity|].
  vm_compute. discriminate.
Qed.

(** C2, amended: in a comprehensive single-page audit whose browser
    launches, sets up its page and closes without error, whose URL parses
    and whose SEO, schema and mobile checks complete, a failure of the
    page-speed check or of a crawlability fetch is contained: the page
    audit resolves, the results of the other checks are reported unchanged,
    the failed speed check appears as siteSpeed = null and a failed
    robots.txt fetch as the fallback crawlability record.  The score
    computed for such a page counts the failed speed check as two zeros in
    a mean over five scores (desktop, mobile, crawlability, schema, mobile
    optimization), rounded. *)
Theorem C2_contained_failures w url seoR schemaR mobR :
  browser_works w url ->
  urlOrigin w url <> None ->
  result (auditSEOElements w url) = Resolved seoR ->
  result (auditSchemaMarkup w url) = Resolved schemaR ->
  result (auditMobileOptimization w url) = Resolved mobR ->
  exists page,
    result (auditPage w url Comprehensive) = Resolved page /\
    r_seoElements (pa_results page) = r_seoElements seoR /\
    r_schemaMarkup (pa_results page) = r_schemaMarkup schemaR /\
    r_mobileOptimization (pa_results page) = r_mobileOptimization mobR /\
    r_crawlability (pa_results page) <> None /\
    r_siteSpeed (pa_results page) <> Unset /\
    (forall domain e,
        urlOrigin w url = Some domain ->
        goto w (String.append domain "/robots.txt") = NavThrow e ->
        r_crawlability (pa_results page) = Some crawl_fallback) /\
    ((exists ff e, lighthouse w url ff = Rejected e) ->
     r_siteSpeed (pa_results page) = Null /\
     calculateOverallScore (aggregateAuditResults [page])
     = Js.Math_round
         (inject_Z (0 + 0
                    + zscore cr_score (r_crawlability (pa_results page))
                    + zscore sm_score (r_schemaMarkup (pa_results page))
                    + zscore mo_score (r_mobileOptimization (pa_results page)))
          / 5)%Q).
Proof.
  intros Hbrowser Horigin Hseo Hschema Hmob.
  destruct (urlOrigin w url) as [domain|] eqn:Hdom; [clear Horigin|congruence].
  destruct (speed_contained w url) as (s & Hspeed & Hset & Hnull).
  pose proof (crawl_contained w url domain Hdom) as Hcrawl.
  destruct (seo_resolved _ _ _ Hseo) as (d & ->).
  destruct (schema_resolved _ _ _ Hschema) as (m & ->).
  destruct (mobile_resolved _ _ _ Hmob) as (dom & _ & ->).
  eexists. split.
  - rewrite (auditPage_browser_works _ _ _ Hbrowser).
    erewrite promise_all_resolved; [reflexivity|].
    simpl. repeat constructor; eassumption.
  - simpl. repeat split; try discriminate.
    + destruct s; [congruence|discriminate|discriminate].
    + intros domain' e [= <-] Hrobots. now rewrite Hrobots.
    + destruct s; auto; congruence || (apply Hnull in H; discriminate).
    + apply overall_score_without_speed. simpl.
      apply Hnull in H. now subst.
Qed.

Lemma C2_contained_failures_witness :
  exists page,
    result (auditPage speed_down Demo.home Comprehensive) = Resolved page /\
    r_siteSpeed (pa_results page) = Null /\
    r_schemaMarkup (pa_results page)
    = r_schemaMarkup
        (resolved_or empty_results
           (result (auditSchemaMarkup speed_down Demo.home))) /\
    calculateOverallScore (aggregateAuditResults [page]) = 48.
Proof.
  destruct (C2_contained_failures speed_down Demo.home
              (resolved_or empty_results
                 (result (auditSEOElements speed_down Demo.home)))
              (resolved_or empty_results
                 (result (auditSchemaMarkup speed_down Demo.home)))
              (resolved_or empty_results
                 (result (auditMobileOptimization speed_down Demo.home)))
              (conj eq_refl (conj eq_refl (conj eq_refl (conj eq_refl eq_refl))))
              ltac:(discriminate) eq_refl eq_refl eq_refl)
    as (page & Hpage & _ & Hschema & _ & _ & _ & _ & Hdown).
  exists page. split; [exact Hpage|].
  destruct Hdown as [Hnull Hscore];
    [exists DesktopForm, Demo.timeout_error; reflexivity|].
  split; [exact Hnull|]. split; [exact Hschema|].
  vm_compute in Hpage. injection Hpage as <-. reflexivity.
Defined.

(** ** Orchestration *)

Lemma unparsed_url_rejects w url :
  urlOrigin w url = None ->
  is_rejected (result (auditPage w url Comprehensive)) = true.
Proof.
  intros Hnone. rewrite auditPage_result.
  assert (is_rejected (result (promise_all (auditPromises w url Comprehensive)))
          = true) as H.
  { apply promise_all_rejected with (t := auditCrawlability w url).
    - simpl. tauto.
    - unfold auditCrawlability. now rewrite Hnone. }
  destruct (launch w url), (closeBrowser w url), (newPage w url),
    (setViewport w url 1200 800), (setUserAgent w url),
    (result (promise_all _)); try reflexivity; discriminate.
Qed.

(** Which rejection [Promise.all] keeps. *)
Lemma first_rejection_now A (t : Async A) ts e :
  result t = Rejected e -> took t = 0%nat ->
  first_rejection (t :: ts) = Some (0%nat, e).
Proof.
  intros Hr Ht. simpl. rewrite Hr, Ht.
  now destruct (first_rejection ts) as [[d e']|].
Qed.

Lemma first_rejection_later A (t : Async A) ts e :
  (0 < took t)%nat -> first_rejection ts = Some (0%nat, e) ->
  first_rejection (t :: ts) = Some (0%nat, e).
Proof.
  intros Ht Hts. simpl. rewrite Hts.
  destruct (result t); [reflexivity|].
  destruct (Nat.leb_spec (took t) 0); [lia|reflexivity].
Qed.

Lemma checks_take_time w url :
  (0 < took (auditPageSpeed w url))%nat /\
  (0 < took (auditSEOElements w url))%nat /\
  (0 < took (auditSchemaMarkup w url))%nat /\
  (0 < took (auditMobileOptimization w url))%nat.
Proof.
  unfold auditPageSpeed, auditSEOElements, auditSchemaMarkup,
    auditMobileOptimization, page_goto.
  rewrite took_try_catch, !took_bind, !took_call. lia.
Qed.

(** The synchronous TypeError of [new URL] is the first rejection
    [Promise.all] sees, whatever the other checks do later. *)
Lemma unparsed_url_error w url :
  urlOrigin w url = None ->
  result (promise_all (auditPromises w url Comprehensive))
  = Rejected (type_error "Invalid URL").
Proof.
  intros Hnone.
  destruct (checks_take_time w url) as (H1 & H2 & H3 & H4).
  unfold promise_all.
  assert (first_rejection (auditPromises w url Comprehensive)
          = Some (0%nat, type_error "Invalid URL")) as ->; [|reflexivity].
  unfold auditPromises. cbn [is_comprehensive orb app].
  do 3 (apply first_rejection_later; [assumption|]).
  apply first_rejection_now; unfold auditCrawlability; now rewrite Hnone.
Qed.

Lemma promise_all_single A (t : Async A) :
  result (promise_all [t])
  = match result t with
    | Resolved a => Resolved [a]
    | Rejected e => Rejected e
    end.
Proof. unfold promise_all, values. simpl. now destruct (result t). Qed.

(** C7, refuted as stated: for an existing clinic, an empty URL list is
    accepted and yields a record with score 0; and for the list holding
    "not-a-url" a browser is launched for that string before the call
    fails, with the error of a failing check and not an
    InvalidRequestError. *)
Lemma C7_counterexample :
  (exists a,
      result (performAudit Demo.world (Demo.options [])) = Resolved a /\
      ta_score a = 0) /\
  In (EvLaunch "not-a-url")
     (calls (performAudit Demo.world (Demo.options ["not-a-url"]))) /\
  exists e,
    result (performAudit Demo.world (Demo.options ["not-a-url"])) = Rejected e /\
    err_name e <> "InvalidRequestError".
Proof.
  split; [eexists; split; vm_compute; reflexivity|].
  split; [vm_compute; tauto|].
  eexists. split; [vm_compute; reflexivity|]. cbn. discriminate.
Qed.

(** C7, amended: performAudit does not validate urls.  For every call
    whose clinic lookup finds the clinic: with an empty urls list no
    browser is launched and the call goes on to insert a record with score
    0 and no page audits, and it succeeds with that record exactly when
    the insert succeeds, failing with the error of the insert otherwise.
    Every listed string, well-formed URL or not, has a browser launched for
    it; a listed string that does not parse as a URL makes a comprehensive
    audit fail, after that launch; when it is the only string listed and
    its browser launches, sets up its page and closes without error, the
    call fails with the TypeError "Invalid URL" of the crawlability
    check. *)
Theorem C7_no_url_validation w o :
  findClinic w (clinicId o) = Resolved true ->
  (pages o = [] ->
   launched (calls (performAudit w o)) = [] /\
   In (EvCreate (clinicId o)) (calls (performAudit w o)) /\
   ta_score (auditRecord o []) = 0 /\
   ta_rawData (auditRecord o []) = [] /\
   result (performAudit w o)
   = match createFails w (auditRecord o []) with
     | None => Resolved (auditRecord o [])
     | Some e => Rejected e
     end) /\
  (forall url, In url (pages o) -> In (EvLaunch url) (calls (performAudit w o))) /\
  (forall url,
      In url (pages o) -> urlOrigin w url = None ->
      auditType o = Comprehensive ->
      is_rejected (result (performAudit w o)) = true) /\
  (forall url,
      pages o = [url] -> urlOrigin w url = None ->
      auditType o = Comprehensive ->
      browser_works w url ->
      result (performAudit w o) = Rejected (type_error "Invalid URL")).
Proof.
  intros Hc. split; [|split; [|split]].
  - intros Hnil. split; [now rewrite performAudit_launched|].
    split; [|split; [reflexivity|split; [reflexivity|]]].
    + apply calls_in. rewrite performAudit_events, Hc.
      unfold pageTasks. rewrite Hnil. eexists. right.
      cbn. left. reflexivity.
    + rewrite performAudit_result, Hc. unfold pageTasks. now rewrite Hnil.
  - intros url Hin. apply launched_in. now rewrite performAudit_launched.
  - intros url Hin Hnone Ht.
    apply performAudit_page_failure with (url := url); try assumption.
    rewrite Ht. now apply unparsed_url_rejects.
  - intros url Hpages Hnone Ht Hbrowser.
    rewrite performAudit_result, Hc. unfold pageTasks.
    rewrite Hpages, Ht. cbn [map]. rewrite promise_all_single.
    rewrite (auditPage_browser_works _ _ _ Hbrowser).
    now rewrite (unparsed_url_error _ _ Hnone).
Qed.

Lemma C7_no_url_validation_witness :
  result (performAudit Demo.world (Demo.options []))
  = Resolved (auditRecord (Demo.options []) []) /\
  is_rejected (result (performAudit insert_fails (Demo.options []))) = true /\
  In (EvLaunch "not-a-url")
     (calls (performAudit Demo.world (Demo.options ["not-a-url"]))) /\
  result (performAudit Demo.world (Demo.options ["not-a-url"]))
  = Rejected (type_error "Invalid URL").
Proof.
  destruct (C7_no_url_validation Demo.world (Demo.options []) eq_refl)
    as (Hempty & _ & _ & _).
  destruct (C7_no_url_validation insert_fails (Demo.options []) eq_refl)
    as (Hfails & _ & _ & _).
  destruct (C7_no_url_validation Demo.world (Demo.options ["not-a-url"]) eq_refl)
    as (_ & Hlaunch & _ & Herror).
  destruct (Hempty eq_refl) as (_ & _ & _ & _ & Hrecord).
  destruct (Hfails eq_refl) as (_ & _ & _ & _ & Hrejected).
  split; [exact Hrecord|].
  split; [rewrite Hrejected; reflexivity|].
  split.
  - apply Hlaunch. simpl. tauto.
  - apply (Herror "not-a-url"); try reflexivity.
    repeat split.
Defined.

(** C8, refuted as stated: when every navigation to the page times out,
    the page audit fails with the timeout error, a browser is launched for
    the URL once and not twice, and the whole audit call fails with that
    error: no page is marked unauditable. *)
Lemma C8_counterexample :
  result (auditPage pages_time_out Demo.home Comprehensive)
  = Rejected Demo.timeout_error /\
  launched (calls (performAudit pages_time_out (Demo.options [Demo.home])))
  = [Demo.home] /\
  count_occ string_dec
    (launched (calls (performAudit pages_time_out (Demo.options [Demo.home]))))
    Demo.home = 1%nat /\
  result (performAudit pages_time_out (Demo.options [Demo.home]))
  = Rejected Demo.timeout_error.
Proof. repeat split; vm_compute; reflexivity. Qed.

(** C8, amended: performAudit never retries a page.  For an existing
    clinic, one call launches a browser exactly once per entry of urls, in
    order, whatever errors occur, transient or not; a page audit that fails
    makes the whole call fail.  The only retry setting of the service is
    the job-level attempts = 2 that queueAudit passes to the job queue,
    which does not depend on the kind of error. *)
Theorem C8_no_page_retry w o :
  findClinic w (clinicId o) = Resolved true ->
  launched (calls (performAudit w o)) = pages o /\
  (forall url,
      count_occ string_dec (launched (calls (performAudit w o))) url
      = count_occ string_dec (pages o) url) /\
  (forall url,
      In url (pages o) ->
      is_rejected (result (auditPage w url (auditType o))) = true ->
      is_rejected (result (performAudit w o)) = true) /\
  attempts (job_settings (queueAudit o)) = 2.
Proof.
  intros Hc. split; [now apply performAudit_launched|].
  split; [intros url; now rewrite performAudit_launched|].
  split; [|reflexivity].
  intros url. now apply performAudit_page_failure.
Qed.

Lemma C8_no_page_retry_witness :
  launched (calls (performAudit pages_time_out (Demo.options [Demo.home])))
  = [Demo.home] /\
  count_occ string_dec
    (launched (calls (performAudit pages_time_out (Demo.options [Demo.home]))))
    Demo.home = 1%nat /\
  is_rejected
    (result (performAudit pages_time_out (Demo.options [Demo.home]))) = true /\
  attempts (job_settings (queueAudit (Demo.options [Demo.home]))) = 2.
Proof.
  destruct (C8_no_page_retry pages_time_out (Demo.options [Demo.home]) eq_refl)
    as (Hlaunched & Hcount & Hfail & Hattempts).
  split; [exact Hlaunched|].
  split; [rewrite Hcount; reflexivity|].
  split; [|exact Hattempts].
  apply (Hfail Demo.home); [simpl; tauto|reflexivity].
Defined.

(** ** Page tasks in flight *)

Module LifecycleFacts.
Import Lifecycle.

Lemma step_urls s s' : step s s' -> map t_url s' = map t_url s.
Proof. intros [pre t post p _]. now rewrite !map_app. Qed.

Lemma reachable_urls s s' : reachable s s' -> map t_url s' = map t_url s.
Proof.
  induction 1 as [s s' H| |s s1 s2 _ IH1 _ IH2];
    [now apply step_urls|reflexivity|congruence].
Qed.

Lemma start_urls pages : map t_url (start pages) = pages.
Proof. unfold start. rewrite map_map. simpl. apply map_id. Qed.

Lemma open_browsers_bound ts : (open_browsers ts <= List.length ts)%nat.
Proof. apply filter_length_le. Qed.

Lemma open_browsers_all_open pages :
  open_browsers (all_open pages) = List.length pages.
Proof.
  unfold open_browsers, all_open.
  induction pages as [|url pages IH]; simpl; [reflexivity|now rewrite IH].
Qed.

Lemma all_open_reachable_from pre pages :
  reachable (pre ++ start pages) (pre ++ all_open pages).
Proof.
  revert pre. induction pages as [|url pages IH]; intros pre; simpl.
  - apply rt_refl.
  - apply rt_trans with (pre ++ {| t_url := url; t_phase := Open |} :: start pages).
    + apply rt_step.
      apply (step_at pre {| t_url := url; t_phase := Launching |}
               (start pages) Open).
      constructor.
    + specialize (IH (pre ++ [{| t_url := url; t_phase := Open |}])).
      now rewrite <- !app_assoc in IH.
Qed.

Lemma all_open_reachable pages : reachable (start pages) (all_open pages).
Proof. apply (all_open_reachable_from []). Qed.

End LifecycleFacts.

(** C9, refuted as stated: with five URLs the run reaches a point where
    five browsers are open at once, above the ceiling of 4 (and of 2). *)
Lemma C9_counterexample :
  exists st,
    Lifecycle.reachable (Lifecycle.start five_urls) st /\
    (4 < Lifecycle.open_browsers st)%nat /\
    (2 < Lifecycle.open_browsers st)%nat.
Proof.
  exists (Lifecycle.all_open five_urls).
  split; [apply LifecycleFacts.all_open_reachable|].
  cbn. lia.
Qed.

(** C9, amended: performAudit has no concurrency limit.  It starts one
    page audit per URL at once, in submission order, each launching its own
    browser; during a run the number of browsers open simultaneously can
    reach the number of URLs, whatever that number is, and never exceeds
    it. *)
Theorem C9_no_concurrency_ceiling urls :
  map Lifecycle.t_url (Lifecycle.start urls) = urls /\
  Forall (fun t => Lifecycle.t_phase t = Lifecycle.Launching)
         (Lifecycle.start urls) /\
  Lifecycle.reachable (Lifecycle.start urls) (Lifecycle.all_open urls) /\
  Lifecycle.open_browsers (Lifecycle.all_open urls) = List.length urls /\
  (forall st,
      Lifecycle.reachable (Lifecycle.start urls) st ->
      map Lifecycle.t_url st = urls /\
      (Lifecycle.open_browsers st <= List.length urls)%nat) /\
  (forall w o,
      pages o = urls -> findClinic w (clinicId o) = Resolved true ->
      launched (calls (performAudit w o)) = urls).
Proof.
  split; [apply LifecycleFacts.start_urls|].
  split; [unfold Lifecycle.start; apply Forall_map, Forall_forall; reflexivity|].
  split; [apply LifecycleFacts.all_open_reachable|].
  split; [apply LifecycleFacts.open_browsers_all_open|].
  split.
  - intros st Hst.
    pose proof (LifecycleFacts.reachable_urls _ _ Hst) as Hurls.
    rewrite LifecycleFacts.start_urls in Hurls. split; [exact Hurls|].
    rewrite <- Hurls, length_map.
    apply LifecycleFacts.open_browsers_bound.
  - intros w o <- Hc. now apply performAudit_launched.
Qed.

Lemma C9_no_concurrency_ceiling_witness :
  Lifecycle.reachable (Lifecycle.start five_urls) (Lifecycle.all_open five_urls) /\
  Lifecycle.open_browsers (Lifecycle.all_open five_urls) = 5%nat /\
  launched (calls (performAudit Demo.world (Demo.options five_urls))) = five_urls.
Proof.
  destruct (C9_no_concurrency_ceiling five_urls)
    as (_ & _ & Hreach & Hopen & _ & Hlaunched).
  split; [exact Hreach|]. split; [exact Hopen|].
  apply Hlaunched; reflexivity.
Defined.

(** * Further properties of the audit service *)

(** ** What a resolved run was made of *)

Lemma auditPage_resolved_inv w url t page :
  result (auditPage w url t) = Resolved page ->
  launch_resolves w url = true /\
  exists results,
    Forall2 (fun c r => result c = Resolved r) (auditPromises w url t) results /\
    page = {| pa_url := url; pa_timestamp := now w url;
              pa_results := fold_left spread results empty_results |}.
Proof.
  rewrite auditPage_result. unfold launch_resolves.
  destruct (launch w url); [|discriminate].
  destruct (closeBrowser w url); [|discriminate].
  destruct (newPage w url); [|discriminate].
  destruct (setViewport w url 1200 800); [|discriminate].
  destruct (setUserAgent w url); [|discriminate].
  destruct (result (promise_all (auditPromises w url t))) as [results|e] eqn:Hall;
    [|discriminate].
  intros [= <-]. split; [reflexivity|].
  exists results. split; [now apply promise_all_resolved_inv|reflexivity].
Qed.

Lemma auditPage_resolved_browser w url t page :
  result (auditPage w url t) = Resolved page ->
  browser_works w url /\
  first_rejection (auditPromises w url t) = None.
Proof.
  rewrite auditPage_result. unfold browser_works.
  destruct (launch w url) as [[]|]; [|discriminate].
  destruct (closeBrowser w url) as [[]|]; [|discriminate].
  destruct (newPage w url) as [[]|]; [|discriminate].
  destruct (setViewport w url 1200 800) as [[]|]; [|discriminate].
  destruct (setUserAgent w url) as [[]|]; [|discriminate].
  unfold promise_all.
  destruct (first_rejection (auditPromises w url t)) as [[d e]|];
    [discriminate|].
  intros _. repeat split.
Qed.

Lemma page_tasks_resolved w t urls ps :
  Forall2 (fun task p => result task = Resolved p)
          (map (fun url => auditPage w url t) urls) ps ->
  Forall2 (fun url p => result (auditPage w url t) = Resolved p) urls ps.
Proof.
  revert ps. induction urls as [|url urls IH]; intros ps H;
    inversion H; subst; constructor; auto.
Qed.

Lemma performAudit_resolved_inv w o a :
  result (performAudit w o) = Resolved a ->
  findClinic w (clinicId o) = Resolved true /\
  Forall2 (fun url p => result (auditPage w url (auditType o)) = Resolved p)
          (pages o) (ta_rawData a) /\
  ta_clinicId a = clinicId o /\
  ta_auditType a = auditType o /\
  ta_metrics a = aggregateAuditResults (ta_rawData a) /\
  ta_score a = calculateOverallScore (ta_metrics a) /\
  ta_issues a = identifyIssues (ta_metrics a) /\
  ta_recommendations a = generateRecommendations (ta_metrics a) (ta_issues a).
Proof.
  rewrite performAudit_result.
  destruct (findClinic w (clinicId o)) as [[|]|e]; try discriminate.
  destruct (result (promise_all _)) as [ps|e] eqn:Hall; [|discriminate].
  destruct (createFails w (auditRecord o ps)); [discriminate|].
  intros [= <-]. split; [reflexivity|]. split; [|repeat split].
  apply promise_all_resolved_inv in Hall.
  now apply page_tasks_resolved.
Qed.

Lemma performAudit_aggregates w o a :
  result (performAudit w o) = Resolved a ->
  ta_score a = ag_score (aggregate (ta_rawData a)) /\
  ta_issues a = ag_issues (aggregate (ta_rawData a)) /\
  ta_recommendations a = ag_recommendations (aggregate (ta_rawData a)).
Proof.
  intros H. apply performAudit_resolved_inv
    in H as (_ & _ & _ & _ & Hm & Hs & Hi & Hr).
  rewrite Hs, Hi, Hr, Hi, Hm. repeat split.
Qed.

Lemma speed_resolved w url r :
  result (auditPageSpeed w url) = Resolved r ->
  (r = only_siteSpeed Null /\ exists ff e, lighthouse w url ff = Rejected e)
  \/ exists d m,
       lighthouse w url DesktopForm = Resolved d /\
       lighthouse w url MobileForm = Resolved m /\
       r = only_siteSpeed (Val (speed_of d m)).
Proof.
  run_check.
  destruct (lighthouse w url DesktopForm) as [d|e1] eqn:Hd; cbn;
    [destruct (lighthouse w url MobileForm) as [m|e2] eqn:Hm; cbn|];
    intros [= <-].
  - right. now exists d, m.
  - left. split; [reflexivity|]. now exists MobileForm, e2.
  - left. split; [reflexivity|]. now exists DesktopForm, e1.
Qed.

Lemma crawl_resolved w url r :
  result (auditCrawlability w url) = Resolved r ->
  exists c, r = only_crawlability c /\ In (cr_score c) [60; 85; 90; 95; 100].
Proof.
  unfold auditCrawlability.
  destruct (urlOrigin w url) as [domain|]; [|discriminate].
  run_check.
  destruct (goto w (String.append domain "/robots.txt")) as [e| |rs]; cbn;
    try (intros [= <-]; eexists; split; [reflexivity|cbn; tauto]).
  destruct (goto w (String.append domain "/sitemap.xml")) as [e| |ss]; cbn;
    try (intros [= <-]; eexists; split; [reflexivity|cbn; tauto]).
  intros [= <-]. eexists. split; [reflexivity|].
  cbn. destruct (rs =? 200), (ss =? 200); cbn; tauto.
Qed.

Lemma schema_resolved_blocks w url r :
  result (auditSchemaMarkup w url) = Resolved r ->
  exists blocks,
    ldJson w url = Resolved blocks /\ r = only_schemaMarkup (schema_of blocks).
Proof.
  run_check.
  destruct (goto w url); cbn; try discriminate;
    destruct (ldJson w url) as [blocks|e]; cbn; try discriminate;
    intros [= <-]; now exists blocks.
Qed.

Lemma mobile_resolved_dom w url r :
  result (auditMobileOptimization w url) = Resolved r ->
  exists dom,
    r = {| r_siteSpeed := Unset; r_seoElements := None; r_schemaMarkup := None;
           r_crawlability := None;
           r_mobileOptimization := Some (mobile_of dom) |}.
Proof.
  intros H. apply mobile_resolved in H as (dom & _ & ->). now exists dom.
Qed.

(** The shape of the merged results of a resolved page audit. *)
Lemma auditPage_results w url t page :
  result (auditPage w url t) = Resolved page ->
  pa_url page = url /\
  (if runs_speed t
   then (r_siteSpeed (pa_results page) = Null
         /\ exists ff e, lighthouse w url ff = Rejected e)
        \/ exists d m,
             lighthouse w url DesktopForm = Resolved d /\
             lighthouse w url MobileForm = Resolved m /\
             r_siteSpeed (pa_results page) = Val (speed_of d m)
   else r_siteSpeed (pa_results page) = Unset) /\
  (if runs_seo t
   then exists d, r_seoElements (pa_results page) = Some d
   else r_seoElements (pa_results page) = None) /\
  (if runs_seo t
   then exists blocks,
          ldJson w url = Resolved blocks /\
          r_schemaMarkup (pa_results page) = Some (schema_of blocks)
   else r_schemaMarkup (pa_results page) = None) /\
  (if is_comprehensive t
   then exists c,
          r_crawlability (pa_results page) = Some c /\
          In (cr_score c) [60; 85; 90; 95; 100]
   else r_crawlability (pa_results page) = None) /\
  (if is_comprehensive t
   then exists dom, r_mobileOptimization (pa_results page) = Some (mobile_of dom)
   else r_mobileOptimization (pa_results page) = None).
Proof.
  intros H. apply auditPage_resolved_inv in H as (_ & results & Hall & ->).
  simpl. split; [reflexivity|].
  destruct t; unfold auditPromises in Hall; simpl in Hall;
    repeat match goal with
           | H : Forall2 _ (_ :: _) _ |- _ => inversion H; subst; clear H
           | H : Forall2 _ [] _ |- _ => inversion H; subst; clear H
           end;
    repeat match goal with
           | H : result (auditPageSpeed _ _) = Resolved _ |- _ =>
               apply speed_resolved in H as [(-> & ?)|(? & ? & ? & ? & ->)]
           | H : result (auditSEOElements _ _) = Resolved _ |- _ =>
               apply seo_resolved in H as (? & ->)
           | H : result (auditSchemaMarkup _ _) = Resolved _ |- _ =>
               apply schema_resolved_blocks in H as (? & ? & ->)
           | H : result (auditCrawlability _ _) = Resolved _ |- _ =>
               apply crawl_resolved in H as (? & -> & ?)
           | H : result (auditMobileOptimization _ _) = Resolved _ |- _ =>
               apply mobile_resolved_dom in H as (? & ->)
           end;
    simpl; repeat match goal with |- _ /\ _ => split end; eauto 10.
Qed.


(** ** Runs whose calls are all made before they settle *)

Lemma tidy_call A w ev (o : outcome A) : tidy (call w ev o).
Proof.
  unfold tidy. rewrite events_call, took_call.
  constructor; [cbn [fst]; lia|constructor].
Qed.

Lemma tidy_ret A (a : A) : tidy (ret a).
Proof. constructor. Qed.

Lemma tidy_throw A e : tidy (@throw A e).
Proof. constructor. Qed.

Lemma tidy_status r : tidy (status r).
Proof. destruct r; constructor. Qed.

Lemma tidy_after A (m : Async A) (l : list stamped) d :
  tidy m -> Forall (fun x => (fst x < d)%nat) l ->
  Forall (fun x => (fst x < took m + d)%nat) (events m ++ shift (took m) l).
Proof.
  intros Hm Hl. apply Forall_app. split.
  - eapply Forall_impl; [|exact Hm]. cbn. intros; lia.
  - unfold shift. apply Forall_map.
    eapply Forall_impl; [|exact Hl]. cbn. intros; lia.
Qed.

Lemma tidy_bind A B (m : Async A) (k : A -> Async B) :
  tidy m -> (forall a, tidy (k a)) -> tidy (bind m k).
Proof.
  intros Hm Hk. unfold tidy. rewrite events_bind, took_bind.
  destruct (result m) as [a|e];
    [apply tidy_after; [exact Hm|exact (Hk a)]|].
  apply (tidy_after _ m [] 0 Hm). constructor.
Qed.

Lemma tidy_try_catch A (m : Async A) (h : error -> Async A) :
  tidy m -> (forall e, tidy (h e)) -> tidy (try_catch m h).
Proof.
  intros Hm Hh. unfold tidy. rewrite events_try_catch, took_try_catch.
  destruct (result m) as [a|e];
    [|apply tidy_after; [exact Hm|exact (Hh e)]].
  apply (tidy_after _ m [] 0 Hm). constructor.
Qed.

Lemma tidy_try_finally A (m : Async A) (c : Async unit) :
  tidy m -> tidy c -> tidy (try_finally m c).
Proof. intros Hm Hc. apply tidy_after; assumption. Qed.

Lemma last_settled_bound A (ts : list (Async A)) t :
  In t ts -> (took t <= last_settled ts)%nat.
Proof.
  induction ts as [|t' ts IH]; simpl; [tauto|].
  intros [->|Hin]; [lia|]. specialize (IH Hin). lia.
Qed.

(** When no task rejects, [Promise.all] settles after the last call of
    every task. *)
Lemma tidy_promise_all A (ts : list (Async A)) :
  Forall tidy ts -> first_rejection ts = None -> tidy (promise_all ts).
Proof.
  intros Hts Hnone. unfold tidy.
  rewrite promise_all_events, (promise_all_took_resolved _ _ Hnone).
  apply Forall_forall. intros x Hx.
  apply in_concat in Hx as (l & Hl & Hx).
  apply in_map_iff in Hl as (t & <- & Ht).
  rewrite Forall_forall in Hts. specialize (Hts t Ht).
  unfold tidy in Hts. rewrite Forall_forall in Hts. specialize (Hts x Hx).
  pose proof (last_settled_bound _ ts t Ht). lia.
Qed.

Create HintDb tidy.

#[local] Hint Resolve tidy_call tidy_ret tidy_throw tidy_status tidy_bind
  tidy_try_catch tidy_try_finally : tidy.

Lemma checks_tidy w url t : Forall tidy (auditPromises w url t).
Proof.
  unfold auditPromises.
  assert (tidy (auditPageSpeed w url)) as H1
    by (unfold auditPageSpeed; auto 10 with tidy).
  assert (tidy (auditSEOElements w url)) as H2
    by (unfold auditSEOElements, page_goto; auto 10 with tidy).
  assert (tidy (auditSchemaMarkup w url)) as H3
    by (unfold auditSchemaMarkup, page_goto; cbv zeta; auto 10 with tidy).
  assert (tidy (auditCrawlability w url)) as H4
    by (unfold auditCrawlability, page_goto; destruct (urlOrigin w url);
        cbv zeta; auto 12 with tidy).
  assert (tidy (auditMobileOptimization w url)) as H5
    by (unfold auditMobileOptimization, page_goto; cbv zeta;
        auto 10 with tidy).
  destruct t; simpl; repeat constructor; assumption.
Qed.

Lemma auditPage_tidy w url t page :
  result (auditPage w url t) = Resolved page -> tidy (auditPage w url t).
Proof.
  intros H. apply auditPage_resolved_browser in H as (_ & Hnone).
  unfold auditPage.
  apply tidy_bind; [auto with tidy|intros _].
  apply tidy_try_finally; [|auto with tidy].
  repeat (apply tidy_bind; [auto with tidy|intros _]).
  apply tidy_bind; [|auto with tidy].
  apply tidy_promise_all; [apply checks_tidy|exact Hnone].
Qed.

(** ** Reading the log of a sequence *)

Lemma insert_shift d x l :
  insert ((d + fst x)%nat, snd x) (shift d l) = shift d (insert x l).
Proof.
  induction l as [|y l IH]; [reflexivity|].
  cbn [shift map insert fst snd].
  destruct (Nat.leb_spec (fst x) (fst y));
    destruct (Nat.leb_spec (d + fst x) (d + fst y)); try lia.
  - reflexivity.
  - cbn [map]. f_equal. exact IH.
Qed.

Lemma by_time_shift d l : by_time (shift d l) = shift d (by_time l).
Proof.
  induction l as [|x l IH]; [reflexivity|].
  cbn [shift map by_time fold_right].
  change (fold_right insert [] (map (fun e => ((d + fst e)%nat, snd e)) l))
    with (by_time (shift d l)).
  rewrite IH. apply insert_shift.
Qed.

Lemma calls_bind_call A B w ev (o : outcome A) (k : A -> Async B) :
  calls (bind (call w ev o) k)
  = ev :: match o with
          | Resolved a => calls (k a)
          | Rejected _ => []
          end.
Proof.
  unfold calls. rewrite events_bind, events_call, result_call. cbn [app].
  rewrite by_time_cons_first by (apply Forall_forall; cbn; intros; lia).
  cbn [map snd]. f_equal.
  destruct o; [|reflexivity].
  now rewrite by_time_shift, shift_calls.
Qed.

Lemma calls_then_ret A B (m : Async A) (f : A -> B) :
  calls (bind m (fun a => ret (f a))) = calls m.
Proof.
  unfold calls. rewrite events_bind.
  destruct (result m); cbn [ret events shift map]; now rewrite app_nil_r.
Qed.

Lemma calls_finally_call A (m : Async A) w ev (o : outcome unit) :
  tidy m -> calls (try_finally m (call w ev o)) = calls m ++ [ev].
Proof.
  intros Hm. unfold calls.
  rewrite events_try_finally, events_call.
  rewrite by_time_app, map_app; [reflexivity|].
  intros x y Hx [<-|[]]. cbn.
  unfold tidy in Hm. rewrite Forall_forall in Hm. specialize (Hm x Hx). lia.
Qed.

(** ** Browser teardown and persistence *)

Lemma closed_app l1 l2 : closed (l1 ++ l2) = closed l1 ++ closed l2.
Proof. apply flat_map_app. Qed.

Lemma closed_none (l : list stamped) :
  only (fun ev => negb (is_close ev)) l -> closed (map snd l) = [].
Proof.
  induction 1 as [|[t ev] l Hev _ IH]; [reflexivity|].
  cbn [map snd]. change (closed (ev :: map snd l))
    with (close_of ev ++ closed (map snd l)).
  rewrite IH. cbn in Hev. now destruct ev.
Qed.

Lemma closed_calls A (m : Async A) :
  Permutation (closed (calls m)) (closed (map snd (events m))).
Proof.
  unfold closed, calls. apply Permutation_flat_map, Permutation_map.
  apply by_time_perm.
Qed.

(** The calls of a page audit, up to the order in which they are made:
    the launch, calls that close nothing, and one close if the browser was
    launched. *)
Lemma auditPage_closed_events w url t :
  closed (map snd (events (auditPage w url t)))
  = if launch_resolves w url then [url] else [].
Proof.
  unfold auditPage, launch_resolves.
  rewrite events_bind, events_call, result_call.
  destruct (launch w url); [|reflexivity].
  cbn [app map snd is_rejected negb].
  change (closed (EvLaunch url :: ?l)) with (closed l).
  rewrite shift_calls, events_try_finally, events_call, map_app, closed_app.
  rewrite closed_none; [reflexivity|].
  repeat (apply only_bind; [auto with calls|intros _]).
  apply only_bind; [|auto with calls].
  apply only_promise_all.
  eapply Forall_impl; [|apply checks_only_check_events].
  intros c. apply only_weaken. now intros [].
Qed.

Lemma auditPage_closed w url t :
  closed (calls (auditPage w url t))
  = if launch_resolves w url then [url] else [].
Proof.
  pose proof (closed_calls _ (auditPage w url t)) as H.
  rewrite auditPage_closed_events in H.
  destruct (launch_resolves w url).
  - now apply Permutation_sym, Permutation_length_1_inv in H.
  - now apply Permutation_sym, Permutation_nil in H.
Qed.

Lemma auditPage_calls_resolved w url t page :
  result (auditPage w url t) = Resolved page ->
  calls (auditPage w url t)
  = [EvLaunch url; EvNewPage url; EvSetViewport url 1200 800;
     EvSetUserAgent url]
    ++ calls (promise_all (auditPromises w url t)) ++ [EvClose url].
Proof.
  intros H. apply auditPage_resolved_browser in H as (Hb & Hnone).
  destruct Hb as (Hl & Hn & Hv & Hu & _).
  unfold auditPage. rewrite calls_bind_call, Hl.
  rewrite calls_finally_call.
  - rewrite !calls_bind_call, Hn, Hv, Hu, calls_then_ret. reflexivity.
  - repeat (apply tidy_bind; [auto with tidy|intros _]).
    apply tidy_bind; [|auto with tidy].
    apply tidy_promise_all; [apply checks_tidy|exact Hnone].
Qed.

Lemma page_audits_closed w t urls :
  closed (map snd (concat (map events (map (fun url => auditPage w url t) urls))))
  = filter (launch_resolves w) urls.
Proof.
  induction urls as [|url urls IH]; [reflexivity|].
  cbn [map concat filter]. rewrite map_app, closed_app, auditPage_closed_events.
  destruct (launch_resolves w url); cbn [app]; [f_equal|]; exact IH.
Qed.

Lemma performAudit_closed w o :
  findClinic w (clinicId o) = Resolved true ->
  Permutation (closed (calls (performAudit w o)))
              (filter (launch_resolves w) (pages o)).
Proof.
  intros Hc. rewrite closed_calls, performAudit_events, Hc.
  cbn [map snd]. change (closed (EvFindClinic (clinicId o) :: ?l))
    with (closed l).
  rewrite shift_calls, map_app, closed_app.
  unfold pageTasks. rewrite page_audits_closed.
  assert (forall ps d, closed (map snd (shift d (persists w o ps))) = []) as Hp.
  { intros ps d. rewrite shift_calls. unfold persists.
    now destruct (createFails w (auditRecord o ps)). }
  destruct (result (promise_all _)) as [ps|e];
    [rewrite Hp|]; now rewrite app_nil_r.
Qed.

(** X1: a browser that was launched is closed exactly once on every exit
    path of a page audit, and nothing is closed when the launch itself
    fails.  When the page audit succeeds, its calls are the launch, the
    page set-up (newPage, setViewport 1200x800, setUserAgent), then calls of
    the checks only, then the close, which is the last call.  When a check
    fails the close need not be last: it can precede calls of checks that
    are still running.  Over a whole audit whose clinic is found, the
    browsers closed are exactly those launched successfully, each once,
    whether or not the audit succeeds. *)
Theorem X1_browser_teardown w o :
  findClinic w (clinicId o) = Resolved true ->
  (forall url,
      closed (calls (auditPage w url (auditType o)))
      = if launch_resolves w url then [url] else []) /\
  (forall url page,
      result (auditPage w url (auditType o)) = Resolved page ->
      exists mid,
        Forall (fun ev => check_event ev = true) mid /\
        calls (auditPage w url (auditType o))
        = [EvLaunch url; EvNewPage url; EvSetViewport url 1200 800;
           EvSetUserAgent url] ++ mid ++ [EvClose url]) /\
  Permutation (closed (calls (performAudit w o)))
              (filter (launch_resolves w) (pages o)) /\
  (forall url,
      count_occ string_dec (closed (calls (performAudit w o))) url
      = count_occ string_dec (filter (launch_resolves w) (pages o)) url) /\
  (exists w' url before late,
      is_rejected (result (auditPage w' url Comprehensive)) = true /\
      check_event late = true /\
      calls (auditPage w' url Comprehensive)
      = before ++ [EvClose url; late]).
Proof.
  intros Hc. split; [intros url; apply auditPage_closed|].
  split; [|split; [|split]].
  - intros url page Hpage.
    exists (calls (promise_all (auditPromises w url (auditType o)))).
    split; [|now apply auditPage_calls_resolved with (page := page)].
    apply calls_only, only_promise_all, checks_only_check_events.
  - now apply performAudit_closed.
  - intros url. apply Permutation_count_occ. now apply performAudit_closed.
  - exists schema_down, Demo.home,
      (firstn 14 (calls (auditPage schema_down Demo.home Comprehensive))),
      (EvLighthouse Demo.home MobileForm).
    repeat split.
Qed.

Lemma X1_browser_teardown_witness :
  closed (calls (performAudit services_unlaunchable
                   (Demo.options [Demo.home; Demo.services])))
  = [Demo.home] /\
  is_rejected
    (result (performAudit services_unlaunchable
               (Demo.options [Demo.home; Demo.services]))) = true /\
  (exists before,
      calls (auditPage schema_down Demo.home Comprehensive)
      = before ++ [EvClose Demo.home; EvLighthouse Demo.home MobileForm]) /\
  closed (calls (auditPage schema_down Demo.home Comprehensive)) = [Demo.home].
Proof.
  destruct (X1_browser_teardown services_unlaunchable
              (Demo.options [Demo.home; Demo.services]) eq_refl)
    as (_ & _ & Hclosed & _ & _).
  destruct (X1_browser_teardown schema_down (Demo.options [Demo.home]) eq_refl)
    as (Hpage & _ & _ & _ & _).
  split; [|split; [reflexivity|split]].
  - apply Permutation_sym, Permutation_length_1_inv in Hclosed. exact Hclosed.
  - exists (firstn 14 (calls (auditPage schema_down Demo.home Comprehensive))).
    vm_compute. reflexivity.
  - exact (Hpage Demo.home).
Defined.

Lemma page_tasks_only w o :
  only browser_event (concat (map events (pageTasks w o))).
Proof.
  apply only_concat, Forall_map. unfold pageTasks. apply Forall_map.
  apply Forall_forall. intros url _.
  destruct (auditPage_events w url (auditType o)) as (later & -> & Hlater).
  constructor; [reflexivity|].
  eapply only_weaken; [|exact Hlater].
  intros ev Hev. unfold browser_event. rewrite Hev. apply orb_true_r.
Qed.

Lemma page_tasks_tidy w o ps :
  result (promise_all (pageTasks w o)) = Resolved ps ->
  tidy (promise_all (pageTasks w o)).
Proof.
  intros H.
  assert (first_rejection (pageTasks w o) = None) as Hnone.
  { unfold promise_all in H.
    now destruct (first_rejection (pageTasks w o)) as [[d e]|]. }
  apply tidy_promise_all; [|exact Hnone].
  apply first_rejection_none in Hnone.
  apply Forall_forall. intros task Hin.
  rewrite Forall_forall in Hnone. specialize (Hnone task Hin).
  apply in_map_iff in Hin as (url & <- & _).
  destruct (result (auditPage w url (auditType o))) as [page|e] eqn:Hpage;
    [|discriminate].
  now apply auditPage_tidy with (page := page).
Qed.

(** The calls of a successful audit: the clinic lookup, the calls of the
    page audits, then the insert and the two invalidations. *)
Lemma performAudit_calls_resolved w o a :
  result (performAudit w o) = Resolved a ->
  calls (performAudit w o)
  = EvFindClinic (clinicId o)
    :: calls (promise_all (pageTasks w o))
    ++ [EvCreate (clinicId o);
        EvInvalidate (String.append "clinic:dashboard:" (clinicId o));
        EvInvalidate (String.append "clinic:audit:" (clinicId o))].
Proof.
  intros H. rewrite performAudit_result in H.
  unfold calls at 1. rewrite performAudit_events.
  destruct (findClinic w (clinicId o)) as [[|]|e]; try discriminate.
  destruct (result (promise_all (pageTasks w o))) as [ps|e] eqn:Hps;
    [|discriminate].
  pose proof (page_tasks_tidy w o ps Hps) as Htidy.
  unfold persists.
  destruct (createFails w (auditRecord o ps)); [discriminate|]. clear H.
  rewrite by_time_cons_first by (apply Forall_forall; cbn; intros; lia).
  cbn [map snd]. f_equal.
  rewrite by_time_shift, shift_calls, <- promise_all_events.
  rewrite by_time_app, map_app.
  - f_equal. rewrite by_time_shift, shift_calls.
    rewrite by_time_cons_first by (apply Forall_forall; cbn; intros; lia).
    rewrite by_time_cons_first;
      [reflexivity|constructor; [cbn [fst]; lia|constructor]].
  - intros x y Hx Hy. apply shift_in in Hy as (z & _ & ->). cbn [fst].
    unfold tidy in Htidy. rewrite Forall_forall in Htidy.
    specialize (Htidy x Hx). lia.
Qed.

Lemma browser_not_persist ev :
  browser_event ev = true -> persist_event ev = false.
Proof. now destruct ev. Qed.

(** X2: an audit record is written exactly when the audit call succeeds.
    A successful call ends with one TechnicalAudit.create followed by the
    invalidation of the clinic's dashboard and audit cache keys.  A failed
    call invalidates no cache, and calls TechnicalAudit.create only when
    all page audits succeeded and it is the insert itself that fails, in
    which case the call fails with the error of the insert.  A call whose
    clinic is not found, or one of whose page audits fails, neither calls
    create nor invalidates a cache. *)
Theorem X2_record_iff_success w o :
  (is_rejected (result (performAudit w o)) = false ->
   exists before,
     calls (performAudit w o)
     = before ++ [EvCreate (clinicId o);
                  EvInvalidate (String.append "clinic:dashboard:" (clinicId o));
                  EvInvalidate (String.append "clinic:audit:" (clinicId o))] /\
     forall ev, In ev before ->
                match ev with
                | EvCreate _ | EvInvalidate _ => False
                | _ => True
                end) /\
  (is_rejected (result (performAudit w o)) = true ->
   (forall ev, In ev (calls (performAudit w o)) ->
               match ev with
               | EvInvalidate _ => False
               | _ => True
               end) /\
   (forall id, In (EvCreate id) (calls (performAudit w o)) ->
               exists ps e,
                 result (promise_all (pageTasks w o)) = Resolved ps /\
                 createFails w (auditRecord o ps) = Some e /\
                 result (performAudit w o) = Rejected e)) /\
  (findClinic w (clinicId o) <> Resolved true
   \/ (exists url,
          In url (pages o) /\
          is_rejected (result (auditPage w url (auditType o))) = true) ->
   forall ev, In ev (calls (performAudit w o)) ->
              match ev with
              | EvCreate _ | EvInvalidate _ => False
              | _ => True
              end).
Proof.
  assert (forall ev,
             In ev (calls (performAudit w o)) -> persist_event ev = true ->
             findClinic w (clinicId o) = Resolved true /\
             exists ps, result (promise_all (pageTasks w o)) = Resolved ps /\
                        In ev (map snd (persists w o ps))) as Hpersist.
  { intros ev Hin Hev. apply calls_in in Hin as (t & Hin).
    apply performAudit_call_kinds in Hin
        as [[= _ ->]|(Hc & [(y & Hy & [= _ ->])|(_ & Hps)])].
    - discriminate.
    - apply (only_in _ _ _ (page_tasks_only w o)), browser_not_persist in Hy.
      congruence.
    - split; [exact Hc|exact Hps]. }
  split; [|split].
  - intros Hok.
    destruct (result (performAudit w o)) as [a|e] eqn:Ha; [|discriminate].
    rewrite (performAudit_calls_resolved w o a Ha).
    exists (EvFindClinic (clinicId o) :: calls (promise_all (pageTasks w o))).
    split; [now rewrite <- app_comm_cons|].
    intros ev [<-|Hin]; [exact I|].
    apply calls_in in Hin as (t & Hin). rewrite promise_all_events in Hin.
    apply (only_in _ _ _ (page_tasks_only w o)) in Hin.
    cbn [snd] in Hin. now destruct ev.
  - intros Hrej.
    assert (forall ev,
               In ev (calls (performAudit w o)) -> persist_event ev = true ->
               exists ps e,
                 result (promise_all (pageTasks w o)) = Resolved ps /\
                 createFails w (auditRecord o ps) = Some e /\
                 result (performAudit w o) = Rejected e /\
                 ev = EvCreate (clinicId o)) as Hfailed.
    { intros ev Hin Hev.
      destruct (Hpersist ev Hin Hev) as (Hc & ps & Hps & Hev').
      rewrite performAudit_result, Hc, Hps in Hrej.
      unfold persists in Hev'.
      destruct (createFails w (auditRecord o ps)) as [e|] eqn:He;
        [|discriminate].
      exists ps, e. split; [exact Hps|]. split; [exact He|].
      split; [now rewrite performAudit_result, Hc, Hps, He|].
      destruct Hev' as [<-|[]]. reflexivity. }
    split.
    + intros ev Hin. destruct ev; try exact I.
      destruct (Hfailed _ Hin eq_refl) as (_ & _ & _ & _ & _ & [=]).
    + intros id Hin.
      destruct (Hfailed _ Hin eq_refl) as (ps & e & Hps & He & Hres & _).
      now exists ps, e.
  - intros Hwhy ev Hin.
    assert (persist_event ev = false) as Hev; [|now destruct ev].
    destruct (persist_event ev) eqn:Hev; [|reflexivity].
    destruct (Hpersist ev Hin Hev) as (Hc & ps & Hps & _).
    destruct Hwhy as [Hno|(url & Hurl & Hrej)]; [now elim Hno|].
    assert (is_rejected (result (promise_all (pageTasks w o))) = true) as H.
    { apply promise_all_rejected with (t := auditPage w url (auditType o));
        [|exact Hrej].
      apply in_map_iff. now exists url. }
    rewrite Hps in H. discriminate.
Qed.

Lemma X2_record_iff_success_witness :
  (exists before,
      calls (performAudit Demo.world (Demo.options [Demo.home]))
      = before ++ [EvCreate "clinic-1";
                   EvInvalidate "clinic:dashboard:clinic-1";
                   EvInvalidate "clinic:audit:clinic-1"]) /\
  ~ In (EvCreate "clinic-1")
       (calls (performAudit schema_down (Demo.options [Demo.home]))) /\
  ~ In (EvInvalidate "clinic:audit:clinic-1")
       (calls (performAudit insert_fails (Demo.options [Demo.home]))) /\
  In (EvCreate "clinic-1")
     (calls (performAudit insert_fails (Demo.options [Demo.home]))).
Proof.
  destruct (X2_record_iff_success Demo.world (Demo.options [Demo.home]))
    as (Hok & _ & _).
  destruct (X2_record_iff_success schema_down (Demo.options [Demo.home]))
    as (_ & _ & Hpage).
  destruct (X2_record_iff_success insert_fails (Demo.options [Demo.home]))
    as (_ & Hfail & _).
  split; [|split; [|split]].
  - destruct (Hok eq_refl) as (before & Hcalls & _). now exists before.
  - intros Hin. refine (Hpage _ _ Hin). right. exists Demo.home.
    split; [simpl; tauto|reflexivity].
  - intros Hin. exact (proj1 (Hfail eq_refl) _ Hin).
  - vm_compute. tauto.
Defined.

(** ** Which results a page audit carries *)

(** X3: the result keys of a completed page audit are fixed by the audit
    type: siteSpeed is set (to a value or to null) exactly for
    comprehensive and performance audits, seoElements and schemaMarkup
    exactly for comprehensive and seo audits, crawlability and
    mobileOptimization exactly for comprehensive audits; a basic audit
    carries no result at all.  The page keeps the URL it was asked for. *)
Theorem X3_result_keys w url t page :
  result (auditPage w url t) = Resolved page ->
  pa_url page = url /\
  (r_siteSpeed (pa_results page) <> Unset
   <-> t = Comprehensive \/ t = Performance) /\
  (r_seoElements (pa_results page) <> None <-> t = Comprehensive \/ t = Seo) /\
  (r_schemaMarkup (pa_results page) <> None <-> t = Comprehensive \/ t = Seo) /\
  (r_crawlability (pa_results page) <> None <-> t = Comprehensive) /\
  (r_mobileOptimization (pa_results page) <> None <-> t = Comprehensive) /\
  (t = Basic -> pa_results page = empty_results).
Proof.
  intros H.
  pose proof (auditPage_resolved_inv _ _ _ _ H) as (_ & results & Hall & Hpage).
  apply auditPage_results in H as (Hurl & Hspeed & Hseo & Hschema & Hcrawl & Hmob).
  split; [exact Hurl|].
  destruct t; simpl in *;
    repeat match goal with
           | H : exists _, _ |- _ => destruct H
           | H : _ /\ _ |- _ => destruct H
           | H : _ \/ _ |- _ => destruct H
           end;
    repeat match goal with
           | H : _ = _ |- _ => rewrite H
           end;
    repeat split; try (intros; discriminate); try tauto;
    try (intros [|]; discriminate); try (intros; congruence);
    try (intros Hne; exfalso; apply Hne; reflexivity).
  unfold auditPromises in Hall. simpl in Hall. inversion Hall. subst.
  reflexivity.
Qed.

Lemma X3_result_keys_witness :
  exists page,
    result (auditPage Demo.world Demo.home Seo) = Resolved page /\
    r_siteSpeed (pa_results page) = Unset /\
    r_schemaMarkup (pa_results page) <> None /\
    r_crawlability (pa_results page) = None.
Proof.
  destruct (result (auditPage Demo.world Demo.home Seo)) as [page|e] eqn:H;
    [|vm_compute in H; discriminate].
  exists page. split; [reflexivity|].
  destruct (X3_result_keys Demo.world Demo.home Seo page H)
    as (_ & Hspeed & _ & Hschema & Hcrawl & _).
  split; [|split].
  - destruct (r_siteSpeed (pa_results page)); try reflexivity;
      exfalso; (assert (Seo = Comprehensive \/ Seo = Performance) as [|]
                  by (apply Hspeed; discriminate)); discriminate.
  - apply Hschema. now right.
  - destruct (r_crawlability (pa_results page)); [|reflexivity].
    assert (Seo = Comprehensive) by (apply Hcrawl; discriminate). discriminate.
Defined.

(** ** Score ranges *)

Lemma Math_round_range (lo hi : Z) (x : Q) :
  (inject_Z lo <= x <= inject_Z hi)%Q -> lo <= Js.Math_round x <= hi.
Proof.
  intros [Hlo Hhi]. unfold Js.Math_round. split.
  - rewrite <- (Qfloor_Z lo). apply Qfloor_resp_le.
    apply Qle_trans with x; [exact Hlo|].
    rewrite <- (Qplus_0_r x) at 1. apply Qplus_le_r. discriminate.
  - pose proof (Qfloor_le (x + (1 # 2))) as Hfl.
    assert (inject_Z (Qfloor (x + (1 # 2))) < inject_Z (hi + 1))%Q as Hlt.
    { rewrite inject_Z_plus. change (inject_Z 1) with 1%Q.
      apply Qle_lt_trans with (x + (1 # 2))%Q; [exact Hfl|].
      apply Qle_lt_trans with (inject_Z hi + (1 # 2))%Q;
        [now apply Qplus_le_l|].
      apply Qplus_lt_r. reflexivity. }
    rewrite <- Zlt_Qlt in Hlt. lia.
Qed.

Lemma schema_score_range blocks :
  0 <= calculateSchemaScore (schemaDataOf blocks) <= 100.
Proof.
  rewrite calculateSchemaScore_points. unfold points.
  destruct (localBusinessSchema _), (dentistSchema _), (faqSchema _),
    (reviewSchema _), (organizationSchema _); lia.
Qed.

Lemma mobile_score_range dom : 50 <= mo_score (mobile_of dom) <= 100.
Proof.
  unfold mobile_of, mobile_values, mobileDataOf. simpl.
  destruct (Js.includes _ _), (innerWidth dom <=? 768); cbn; lia.
Qed.

Lemma inject_range (lo hi z : Z) :
  lo <= z <= hi -> (inject_Z lo <= inject_Z z <= inject_Z hi)%Q.
Proof. now rewrite <- !Zle_Qle. Qed.

Lemma speed_profile_range r :
  (0 <= lhr_performance r <= 1)%Q ->
  (0 <= sp_score (speedProfileOf r) <= 100)%Q.
Proof. simpl. lra. Qed.

(** For a first page produced by [auditPage], the five scores that enter
    the overall score, with the range each can take under the audit type. *)
Lemma first_page_scores w url t p rest :
  (runs_speed t = true -> lighthouse_in_unit w) ->
  result (auditPage w url t) = Resolved p ->
  exists d m c s mo : Q,
    overall_scores (aggregateAuditResults (p :: rest)) = [d; m; c; s; mo] /\
    (0 <= d <= if runs_speed t then 100 else 0)%Q /\
    (0 <= m <= if runs_speed t then 100 else 0)%Q /\
    ((if is_comprehensive t then 60 else 0) <= c
     <= if is_comprehensive t then 100 else 0)%Q /\
    (0 <= s <= if runs_seo t then 100 else 0)%Q /\
    ((if is_comprehensive t then 50 else 0) <= mo
     <= if is_comprehensive t then 100 else 0)%Q.
Proof.
  intros Hlh H.
  apply auditPage_results in H as (_ & Hspeed & _ & Hschema & Hcrawl & Hmob).
  unfold overall_scores, aggregateAuditResults. simpl.
  do 5 eexists. split; [reflexivity|].
  split; [|split]; [| |split; [|split]].
  - destruct (runs_speed t).
    + destruct Hspeed as [(-> & _)|(d & m & Hd & Hm & ->)]; simpl; [lra|].
      apply (speed_profile_range d), (Hlh eq_refl url DesktopForm d Hd).
    + rewrite Hspeed. simpl. lra.
  - destruct (runs_speed t).
    + destruct Hspeed as [(-> & _)|(d & m & Hd & Hm & ->)]; simpl; [lra|].
      apply (speed_profile_range m), (Hlh eq_refl url MobileForm m Hm).
    + rewrite Hspeed. simpl. lra.
  - destruct (is_comprehensive t).
    + destruct Hcrawl as (c & -> & Hc). simpl.
      apply (inject_range 60 100). simpl in Hc. lia.
    + rewrite Hcrawl. simpl. lra.
  - destruct (runs_seo t).
    + destruct Hschema as (blocks & _ & ->). simpl.
      apply (inject_range 0 100), schema_score_range.
    + rewrite Hschema. simpl. lra.
  - destruct (is_comprehensive t).
    + destruct Hmob as (dom & ->).
      apply (inject_range 50 100), mobile_score_range.
    + rewrite Hmob. simpl. lra.
Qed.

Lemma overall_score_of_scores metrics d m c s mo :
  overall_scores metrics = [d; m; c; s; mo] ->
  calculateOverallScore metrics = Js.Math_round ((d + m + c + s + mo) / 5)%Q.
Proof.
  intros H. unfold calculateOverallScore. rewrite H. simpl.
  apply Math_round_comp. field.
Qed.

Ltac fifth_bounds :=
  unfold inject_Z, Qdiv; change (/ 5)%Q with (1 # 5)%Q; split; lra.

(** X4: the overall score of a completed audit is confined by the audit
    type, whatever the pages contain.  A basic audit always scores 0; an
    seo audit scores at most 20 and a performance audit at most 40, because
    the checks they skip count as zeros in a mean over five scores; a
    comprehensive audit of at least one page scores between 22 and 100, and
    0 on an empty page list.  (Lighthouse performance scores are taken to
    lie between 0 and 1 where Lighthouse runs.) *)
Theorem X4_score_range_by_type w o a :
  (runs_speed (auditType o) = true -> lighthouse_in_unit w) ->
  result (performAudit w o) = Resolved a ->
  match auditType o with
  | Basic => ta_score a = 0
  | Seo => 0 <= ta_score a <= 20
  | Performance => 0 <= ta_score a <= 40
  | Comprehensive =>
      (pages o = [] -> ta_score a = 0) /\
      (pages o <> [] -> 22 <= ta_score a <= 100)
  end.
Proof.
  intros Hlh H.
  apply performAudit_resolved_inv
    in H as (_ & Hpages & _ & _ & Hmetrics & Hscore & _ & _).
  rewrite Hscore, Hmetrics. clear Hscore Hmetrics.
  destruct Hpages as [|url p urls ps Hp _].
  - assert (calculateOverallScore (aggregateAuditResults []) = 0) as ->
      by reflexivity.
    destruct (auditType o); try lia. split; [reflexivity|congruence].
  - destruct (first_page_scores w url (auditType o) p ps Hlh Hp)
      as (d & m & c & s & mo & Hscores & Hd & Hm & Hc & Hs & Hmo).
    rewrite (overall_score_of_scores _ _ _ _ _ _ Hscores).
    destruct (auditType o); simpl in *.
    + assert (Js.Math_round ((d + m + c + s + mo) / 5)%Q = 0); [|assumption].
      enough (0 <= Js.Math_round ((d + m + c + s + mo) / 5)%Q <= 0) by lia.
      apply Math_round_range. fifth_bounds.
    + split; [discriminate|]. intros _. apply Math_round_range. fifth_bounds.
    + apply Math_round_range. fifth_bounds.
    + apply Math_round_range. fifth_bounds.
Qed.

Lemma X4_score_range_by_type_witness :
  exists a,
    result (performAudit Demo.world (Demo.options [Demo.home; Demo.services]))
    = Resolved a /\
    22 <= ta_score a <= 100.
Proof.
  destruct (result (performAudit Demo.world
                      (Demo.options [Demo.home; Demo.services])))
    as [a|e] eqn:H; [|vm_compute in H; discriminate].
  exists a. split; [reflexivity|].
  refine (proj2 (X4_score_range_by_type Demo.world
                   (Demo.options [Demo.home; Demo.services]) a _ H) _).
  - intros _ url ff r. simpl.
    destruct (String.eqb url Demo.home);
      [|destruct (String.eqb url Demo.services)];
      intros [= <-]; simpl; split; unfold Qle; simpl; lia.
  - simpl. discriminate.
Defined.

(** ** Issues and recommendations *)

Lemma first_page_schema w o a url rest :
  result (performAudit w o) = Resolved a ->
  pages o = url :: rest ->
  exists p ps,
    ta_rawData a = p :: ps /\
    result (auditPage w url (auditType o)) = Resolved p.
Proof.
  intros H Hpages.
  apply performAudit_resolved_inv in H as (_ & Hall & _).
  rewrite Hpages in Hall. inversion Hall as [|? p ? ps Hp _]; subst.
  now exists p, ps.
Qed.

Lemma schema_score_without_localbusiness blocks :
  localBusinessSchema (schemaDataOf blocks) = false ->
  calculateSchemaScore (schemaDataOf blocks) <= 70.
Proof.
  intros H. rewrite calculateSchemaScore_points, H. unfold points.
  destruct (dentistSchema _), (faqSchema _), (reviewSchema _),
    (organizationSchema _); simpl; lia.
Qed.

Lemma missing_schema_issue_iff metrics :
  In missing_localbusiness_schema (identifyIssues metrics)
  <-> match schemaMarkup metrics with
      | Some s => localBusinessSchema (sm_data s) = false
      | None => True
      end.
Proof.
  unfold identifyIssues.
  destruct (schemaMarkup metrics) as [s|];
    [destruct (localBusinessSchema (sm_data s))|];
    destruct (below _ 70); simpl; split; try tauto;
    try discriminate; intros [Heq|[]]; discriminate Heq.
Qed.

Lemma enhance_schema_recommendation_iff metrics issues :
  In enhance_schema_markup (generateRecommendations metrics issues)
  <-> match schemaMarkup metrics with
      | Some s => sm_score s < 80
      | None => False
      end.
Proof.
  unfold generateRecommendations.
  destruct (schemaMarkup metrics) as [s|];
    [destruct (Z.ltb_spec (sm_score s) 80)|];
    destruct (below _ 60); simpl; split; try tauto; try lia;
    intros [Heq|[]]; discriminate Heq.
Qed.

(** X5: how the LocalBusiness issue and the schema recommendation go
    together in a completed audit.  When the schema check did not run on
    the first page (basic and performance audits, or an empty page list)
    the issue "Missing LocalBusiness schema" is always reported and the
    recommendation "Enhance schema markup" never is.  When the check ran
    (seo and comprehensive audits with at least one page), the issue always
    comes with the recommendation. *)
Theorem X5_schema_issue_and_recommendation w o a :
  result (performAudit w o) = Resolved a ->
  (auditType o = Basic \/ auditType o = Performance \/ pages o = [] ->
   In missing_localbusiness_schema (ta_issues a) /\
   ~ In enhance_schema_markup (ta_recommendations a)) /\
  (auditType o = Seo \/ auditType o = Comprehensive ->
   pages o <> [] ->
   In missing_localbusiness_schema (ta_issues a) ->
   In enhance_schema_markup (ta_recommendations a)).
Proof.
  intros H.
  pose proof (performAudit_resolved_inv _ _ _ H)
    as (_ & Hall & _ & _ & Hmetrics & _ & Hissues & Hrecs).
  rewrite Hissues, Hrecs, missing_schema_issue_iff,
    enhance_schema_recommendation_iff, Hmetrics.
  clear Hissues Hrecs Hmetrics.
  destruct (pages o) as [|url rest] eqn:Hpages.
  - inversion Hall; subst. simpl. split; [tauto|congruence].
  - destruct (first_page_schema _ _ _ _ _ H Hpages) as (p & ps & -> & Hp).
    apply auditPage_results in Hp as (_ & _ & _ & Hschema & _).
    unfold aggregateAuditResults. cbn [schemaMarkup].
    split.
    + intros Ht.
      assert (runs_seo (auditType o) = false) as Hruns
        by (destruct Ht as [-> |[-> |Ht]];
            [reflexivity|reflexivity|discriminate]).
      rewrite Hruns in Hschema. rewrite Hschema. tauto.
    + intros Ht _.
      assert (runs_seo (auditType o) = true) as Hruns
        by (destruct Ht as [-> | ->]; reflexivity).
      rewrite Hruns in Hschema. destruct Hschema as (blocks & _ & ->).
      unfold schema_of. cbn [sm_data sm_score]. intros Hlb.
      pose proof (schema_score_without_localbusiness blocks Hlb). lia.
Qed.

Lemma X5_schema_issue_and_recommendation_witness :
  exists a,
    result (performAudit no_schema (Demo.options [Demo.home])) = Resolved a /\
    In missing_localbusiness_schema (ta_issues a) /\
    In enhance_schema_markup (ta_recommendations a).
Proof.
  destruct (result (performAudit no_schema (Demo.options [Demo.home])))
    as [a|e] eqn:H; [|vm_compute in H; discriminate].
  exists a. split; [reflexivity|].
  destruct (X5_schema_issue_and_recommendation no_schema
              (Demo.options [Demo.home]) a H) as (_ & Himp).
  assert (In missing_localbusiness_schema (ta_issues a)) as Hissue
    by (vm_compute in H; injection H as <-; simpl; tauto).
  split; [exact Hissue|].
  apply Himp; [now right|discriminate|exact Hissue].
Defined.

Lemma poor_performance_issue_iff metrics :
  In poor_desktop_performance (identifyIssues metrics)
  <-> below (desktop (siteSpeed metrics)) 70 = true.
Proof.
  unfold identifyIssues.
  destruct (below _ 70), (negb _); simpl; split; try tauto; try discriminate;
    try (intros [Heq|[]]; discriminate Heq).
Qed.

Lemma improve_mobile_recommendation_iff metrics issues :
  In improve_mobile_speed (generateRecommendations metrics issues)
  <-> below (mobile (siteSpeed metrics)) 60 = true.
Proof.
  unfold generateRecommendations.
  destruct (below _ 60), (match schemaMarkup metrics with
                          | Some s => sm_score s <? 80
                          | None => false
                          end);
    simpl; split; try tauto; try discriminate;
    try (intros [Heq|[]]; discriminate Heq).
Qed.

Lemma first_page_check_scores w url t p rest :
  result (auditPage w url t) = Resolved p ->
  exists c s mo : Q,
    overall_scores (aggregateAuditResults (p :: rest))
    = [profile_score (desktop (siteSpeed (aggregateAuditResults (p :: rest))));
       profile_score (mobile (siteSpeed (aggregateAuditResults (p :: rest))));
       c; s; mo] /\
    (0 <= c <= 100)%Q /\ (0 <= s <= 100)%Q /\ (0 <= mo <= 100)%Q.
Proof.
  intros H.
  apply auditPage_results in H as (_ & _ & _ & Hschema & Hcrawl & Hmob).
  unfold overall_scores. do 3 eexists. split; [reflexivity|].
  unfold aggregateAuditResults. cbn [crawlability schemaMarkup mobileOptimization].
  split; [|split].
  - destruct (is_comprehensive t).
    + destruct Hcrawl as (c & -> & Hc).
      apply (inject_range 0 100). simpl in Hc. lia.
    + rewrite Hcrawl. simpl. lra.
  - destruct (runs_seo t).
    + destruct Hschema as (blocks & _ & ->).
      apply (inject_range 0 100), schema_score_range.
    + rewrite Hschema. simpl. lra.
  - destruct (is_comprehensive t).
    + destruct Hmob as (dom & ->).
      apply (inject_range 0 100).
      pose proof (mobile_score_range dom). simpl in *. lia.
    + rewrite Hmob. simpl. lra.
Qed.

(** X6: a Lighthouse failure on the first page is never reported.  When
    either Lighthouse run of the first page fails and the audit still
    completes, the record carries neither the issue "Poor desktop
    performance" nor the recommendation "Improve mobile page speed", while
    both speed scores enter the overall score as zeros, so that the score
    is at most 60. *)
Theorem X6_failed_lighthouse_unreported w o a url rest :
  pages o = url :: rest ->
  (exists ff e, lighthouse w url ff = Rejected e) ->
  result (performAudit w o) = Resolved a ->
  ~ In poor_desktop_performance (ta_issues a) /\
  ~ In improve_mobile_speed (ta_recommendations a) /\
  siteSpeed (ta_metrics a) = default_siteSpeed /\
  0 <= ta_score a <= 60.
Proof.
  intros Hpages Hfail H.
  pose proof (performAudit_resolved_inv _ _ _ H)
    as (_ & _ & _ & _ & Hmetrics & Hscore & Hissues & Hrecs).
  destruct (first_page_schema _ _ _ _ _ H Hpages) as (p & ps & Hraw & Hp).
  rewrite Hraw in Hmetrics.
  assert (siteSpeed (ta_metrics a) = default_siteSpeed) as Hdefault.
  { rewrite Hmetrics. unfold aggregateAuditResults. cbn [siteSpeed].
    apply auditPage_results in Hp as (_ & Hspeed & _).
    destruct (runs_speed (auditType o)).
    - destruct Hspeed as [(-> & _)|(d & m & Hd & Hm & _)]; [reflexivity|].
      destruct Hfail as ([|] & e & He); congruence.
    - now rewrite Hspeed. }
  rewrite Hissues, Hrecs, poor_performance_issue_iff,
    improve_mobile_recommendation_iff, Hdefault.
  split; [simpl; discriminate|]. split; [simpl; discriminate|].
  split; [reflexivity|].
  destruct (first_page_check_scores w url (auditType o) p ps Hp)
    as (c & s & mo & Hscores & Hc & Hs & Hmo).
  rewrite Hscore, Hmetrics, (overall_score_of_scores _ _ _ _ _ _ Hscores).
  rewrite <- Hmetrics, Hdefault. simpl.
  apply Math_round_range. fifth_bounds.
Qed.

Lemma X6_failed_lighthouse_unreported_witness :
  exists a,
    result (performAudit speed_down (Demo.options [Demo.home])) = Resolved a /\
    ~ In poor_desktop_performance (ta_issues a) /\
    ta_score a <= 60.
Proof.
  destruct (result (performAudit speed_down (Demo.options [Demo.home])))
    as [a|e] eqn:H; [|vm_compute in H; discriminate].
  exists a. split; [reflexivity|].
  destruct (X6_failed_lighthouse_unreported speed_down
              (Demo.options [Demo.home]) a Demo.home [] eq_refl
              (ex_intro _ DesktopForm (ex_intro _ Demo.timeout_error eq_refl)) H)
    as (Hissue & _ & _ & _ & Hscore).
  split; assumption.
Defined.

(** ** Structured data *)

Lemma existsb_truthy_perm (f : Js.json -> bool) blocks blocks' :
  Permutation blocks blocks' ->
  existsb f (filter Js.truthy (map parse_or_null blocks))
  = existsb f (filter Js.truthy (map parse_or_null blocks')).
Proof.
  induction 1 as [|b l l' _ IH|a b l|l1 l2 l3 _ IH1 _ IH2]; simpl.
  - reflexivity.
  - destruct (Js.truthy (parse_or_null b)); simpl; now rewrite IH.
  - destruct (Js.truthy (parse_or_null a)), (Js.truthy (parse_or_null b));
      simpl; try reflexivity.
    now rewrite !orb_assoc, (orb_comm (f (parse_or_null b))).
  - congruence.
Qed.

Lemma existsb_truthy_app (f : Js.json -> bool) blocks more :
  existsb f (filter Js.truthy (map parse_or_null (blocks ++ more)))
  = existsb f (filter Js.truthy (map parse_or_null blocks))
    || existsb f (filter Js.truthy (map parse_or_null more)).
Proof. now rewrite map_app, filter_app, existsb_app. Qed.

Lemma points_le p b b' : 0 <= p -> points p b <= points p (b || b').
Proof. destruct b, b'; simpl; lia. Qed.

(** X7: the schema score depends on which kinds of block a page carries,
    not on their order or number.  Reordering the JSON-LD blocks leaves the
    five flags and the score unchanged; adding blocks, well-formed or not,
    never lowers the score; repeating the blocks changes nothing. *)
Theorem X7_schema_score_order_and_growth blocks blocks' more :
  (Permutation blocks blocks' ->
   calculateSchemaScore (schemaDataOf blocks)
   = calculateSchemaScore (schemaDataOf blocks')) /\
  calculateSchemaScore (schemaDataOf blocks)
  <= calculateSchemaScore (schemaDataOf (blocks ++ more)) /\
  calculateSchemaScore (schemaDataOf (blocks ++ blocks))
  = calculateSchemaScore (schemaDataOf blocks).
Proof.
  rewrite !calculateSchemaScore_points. unfold schemaDataOf. simpl.
  split; [|split].
  - intros Hperm. now rewrite !(existsb_truthy_perm _ _ _ Hperm).
  - rewrite !existsb_truthy_app.
    repeat apply Z.add_le_mono; apply points_le; lia.
  - rewrite !existsb_truthy_app, !orb_diag. reflexivity.
Qed.

Lemma X7_schema_score_order_and_growth_witness :
  calculateSchemaScore
    (schemaDataOf [Some (Demo.typed "FAQPage"); None;
                   Some (Demo.typed "Organization")])
  = calculateSchemaScore
      (schemaDataOf [Some (Demo.typed "Organization");
                     Some (Demo.typed "FAQPage"); None]).
Proof.
  destruct (X7_schema_score_order_and_growth
              [Some (Demo.typed "FAQPage"); None; Some (Demo.typed "Organization")]
              [Some (Demo.typed "Organization"); Some (Demo.typed "FAQPage"); None]
              []) as (Hperm & _ & _).
  apply Hperm.
  apply perm_trans
    with [Some (Demo.typed "FAQPage"); Some (Demo.typed "Organization"); None].
  - apply perm_skip, perm_swap.
  - apply perm_swap.
Defined.

(** ** Crawlability navigations *)

(** X8: the crawlability check navigates the audited page's browser tab
    to robots.txt first and to sitemap.xml only after robots.txt produced
    a response with a status: when the robots.txt navigation throws or
    yields no response, sitemap.xml is never requested.  When the URL does
    not parse, the check fails before any navigation. *)
Theorem X8_crawl_navigations w url :
  match urlOrigin w url with
  | None =>
      calls (auditCrawlability w url) = [] /\
      is_rejected (result (auditCrawlability w url)) = true
  | Some domain =>
      calls (auditCrawlability w url)
      = EvGoto (String.append domain "/robots.txt")
          :: match goto w (String.append domain "/robots.txt") with
             | NavStatus _ => [EvGoto (String.append domain "/sitemap.xml")]
             | _ => []
             end
  end.
Proof.
  unfold auditCrawlability.
  destruct (urlOrigin w url) as [domain|]; [|split; reflexivity].
  unfold calls. run_check.
  destruct (goto w (String.append domain "/robots.txt")); cbn;
    try reflexivity.
  destruct (goto w (String.append domain "/sitemap.xml")); reflexivity.
Qed.

(** * Properties of the base service and of competitor discovery *)

(** ** The rate limiter *)

Module BaseServiceFacts.
Import BaseService.

Lemma checkRateLimit_step r key limit window :
  0 <= count r key ->
  let (ok, r') := checkRateLimit r key limit window in
  ok = (count r key + 1 <=? limit) /\
  count r' key = count r key + 1 /\
  ttl r' key = (if count r key =? 0 then Some window else ttl r key) /\
  forall k, String.eqb k key = false ->
            count r' k = count r k /\ ttl r' k = ttl r k.
Proof.
  intros Hc. unfold checkRateLimit, incr, expire. simpl.
  destruct (Z.eqb_spec (count r key + 1) 1) as [H1|H1]; simpl;
    rewrite ?String.eqb_refl.
  - replace (count r key) with 0 by lia. simpl.
    repeat split; intros; now rewrite ?H.
  - destruct (Z.eqb_spec (count r key) 0); [lia|].
    repeat split; intros; now rewrite ?H.
Qed.

End BaseServiceFacts.

(** X9: the rate limiter counts calls per key.  Starting from a key whose
    counter is c (0 for a key Redis does not hold), the k-th of n
    successive calls is allowed exactly when c + k is at most the limit;
    afterwards the counter is c + n, refused calls included.  The time to
    live is set to the window by the call that finds the counter at 0 and
    is never set again by a later call, so the window runs from the first
    call and is not extended.  Other keys are untouched. *)
Theorem X9_rate_limit_counts n r key limit window :
  0 <= BaseService.count r key ->
  fst (BaseService.checkRateLimit_times n r key limit window)
  = map (fun k => BaseService.count r key + Z.of_nat k <=? limit) (seq 1 n) /\
  BaseService.count
    (snd (BaseService.checkRateLimit_times n r key limit window)) key
  = BaseService.count r key + Z.of_nat n /\
  BaseService.ttl
    (snd (BaseService.checkRateLimit_times n r key limit window)) key
  = (if (BaseService.count r key =? 0) && negb (Nat.eqb n 0)
     then Some window else BaseService.ttl r key) /\
  forall k,
    String.eqb k key = false ->
    BaseService.count
      (snd (BaseService.checkRateLimit_times n r key limit window)) k
    = BaseService.count r k /\
    BaseService.ttl
      (snd (BaseService.checkRateLimit_times n r key limit window)) k
    = BaseService.ttl r k.
Proof.
  revert r. induction n as [|n IH]; intros r Hc.
  - simpl. rewrite andb_false_r. repeat split; lia.
  - cbn [BaseService.checkRateLimit_times].
    pose proof (BaseServiceFacts.checkRateLimit_step r key limit window Hc) as Hstep.
    destruct (BaseService.checkRateLimit r key limit window) as [ok r1].
    destruct Hstep as (Hok & Hcount & Httl & Hother).
    assert (0 <= BaseService.count r1 key) as Hc1 by lia.
    specialize (IH r1 Hc1).
    destruct (BaseService.checkRateLimit_times n r1 key limit window)
      as [oks r2].
    simpl in IH. destruct IH as (IHoks & IHcount & IHttl & IHother).
    cbn [fst snd]. split; [|split; [|split]].
    + cbn [seq map]. f_equal; [rewrite Hok; f_equal; lia|].
      rewrite IHoks, <- (seq_shift n 1), map_map.
      apply map_ext. intros k. rewrite Hcount. f_equal. lia.
    + rewrite IHcount, Hcount. lia.
    + rewrite IHttl, Httl, Hcount.
      destruct (Z.eqb_spec (BaseService.count r key + 1) 0); [lia|].
      simpl. destruct (BaseService.count r key =? 0); reflexivity.
    + intros k Hk. destruct (IHother k Hk) as [-> ->]. now apply Hother.
Qed.

Lemma X9_rate_limit_counts_witness :
  fst (BaseService.checkRateLimit_times 4 BaseService.fresh "k" 2 3600)
  = [true; true; false; false] /\
  BaseService.ttl
    (snd (BaseService.checkRateLimit_times 4 BaseService.fresh "k" 2 3600)) "k"
  = Some 3600.
Proof.
  destruct (X9_rate_limit_counts 4 BaseService.fresh "k" 2 3600)
    as (Hoks & _ & Httl & _); [simpl; lia|].
  split; [rewrite Hoks; reflexivity|rewrite Httl; reflexivity].
Defined.

(** ** Deduplication of competitors *)

Module CompetitorFacts.
Import CompetitorAnalysis.

Lemma seen_iff d seen :
  existsb (String.eqb d) seen = true <-> In d seen.
Proof.
  rewrite existsb_exists. split.
  - intros (x & Hin & Heq). apply String.eqb_eq in Heq. now subst.
  - intros Hin. exists d. split; [exact Hin|apply String.eqb_refl].
Qed.

Lemma dedup_from_in seen cs c :
  In c (dedup_from seen cs) -> In c cs /\ ~ In (cd_domain c) seen.
Proof.
  revert seen. induction cs as [|c0 cs IH]; intros seen; simpl; [tauto|].
  destruct (existsb (String.eqb (cd_domain c0)) seen) eqn:Hseen.
  - intros Hin. apply IH in Hin. tauto.
  - intros [<-|Hin].
    + split; [now left|]. rewrite <- seen_iff. congruence.
    + apply IH in Hin as (Hin & Hnot). split; [now right|].
      intros Hs. apply Hnot. now right.
Qed.

Lemma dedup_from_nodup seen cs :
  NoDup (map cd_domain (dedup_from seen cs)).
Proof.
  revert seen. induction cs as [|c0 cs IH]; intros seen; simpl;
    [constructor|].
  destruct (existsb (String.eqb (cd_domain c0)) seen); [apply IH|].
  simpl. constructor; [|apply IH].
  rewrite in_map_iff. intros (c & Heq & Hin).
  apply dedup_from_in in Hin as (_ & Hnot). apply Hnot. left. congruence.
Qed.

Lemma dedup_from_find seen cs d :
  ~ In d seen ->
  find (fun c => String.eqb (cd_domain c) d) (dedup_from seen cs)
  = find (fun c => String.eqb (cd_domain c) d) cs.
Proof.
  revert seen. induction cs as [|c0 cs IH]; intros seen Hd; simpl;
    [reflexivity|].
  destruct (existsb (String.eqb (cd_domain c0)) seen) eqn:Hseen.
  - destruct (String.eqb_spec (cd_domain c0) d) as [Heq|Hne].
    + apply seen_iff in Hseen. congruence.
    + now apply IH.
  - simpl. destruct (String.eqb_spec (cd_domain c0) d) as [Heq|Hne];
      [reflexivity|].
    apply IH. intros [Heq|Hin]; tauto.
Qed.

Lemma dedup_from_fixed seen cs :
  (forall c, In c cs -> ~ In (cd_domain c) seen) ->
  NoDup (map cd_domain cs) ->
  dedup_from seen cs = cs.
Proof.
  revert seen. induction cs as [|c0 cs IH]; intros seen Hfresh Hnd; simpl;
    [reflexivity|].
  inversion Hnd as [|? ? Hnot Hnd']; subst.
  destruct (existsb (String.eqb (cd_domain c0)) seen) eqn:Hseen.
  - apply seen_iff in Hseen. exfalso. apply (Hfresh c0); [now left|exact Hseen].
  - f_equal. apply IH; [|exact Hnd'].
    intros c Hin [Heq|Hs].
    + apply Hnot. rewrite Heq. now apply in_map.
    + apply (Hfresh c); [now right|exact Hs].
Qed.

Lemma dedup_from_length seen cs :
  (List.length (dedup_from seen cs) <= List.length cs)%nat.
Proof.
  revert seen. induction cs as [|c0 cs IH]; intros seen; simpl; [lia|].
  destruct (existsb _ seen); simpl.
  - specialize (IH seen). lia.
  - specialize (IH (cd_domain c0 :: seen)). lia.
Qed.

End CompetitorFacts.

(** X10: deduplicateCompetitors keeps, for every domain of the input, the
    first competitor with that domain and drops the later ones: no two
    kept competitors share a domain, the first competitor found for a
    domain is the same before and after, every kept competitor comes from
    the input, the result is never longer than the input, and applying the
    function again changes nothing. *)
Theorem X10_deduplicate_first_per_domain cs :
  NoDup (map CompetitorAnalysis.cd_domain
             (CompetitorAnalysis.deduplicateCompetitors cs)) /\
  (forall d,
      find (fun c => String.eqb (CompetitorAnalysis.cd_domain c) d)
           (CompetitorAnalysis.deduplicateCompetitors cs)
      = find (fun c => String.eqb (CompetitorAnalysis.cd_domain c) d) cs) /\
  (forall c, In c (CompetitorAnalysis.deduplicateCompetitors cs) -> In c cs) /\
  (List.length (CompetitorAnalysis.deduplicateCompetitors cs)
   <= List.length cs)%nat /\
  CompetitorAnalysis.deduplicateCompetitors
    (CompetitorAnalysis.deduplicateCompetitors cs)
  = CompetitorAnalysis.deduplicateCompetitors cs.
Proof.
  unfold CompetitorAnalysis.deduplicateCompetitors.
  split; [apply CompetitorFacts.dedup_from_nodup|].
  split; [intros d; now apply CompetitorFacts.dedup_from_find|].
  split; [intros c Hin; now apply CompetitorFacts.dedup_from_in in Hin|].
  split; [apply CompetitorFacts.dedup_from_length|].
  apply CompetitorFacts.dedup_from_fixed.
  - intros c _ [].
  - apply CompetitorFacts.dedup_from_nodup.
Qed.

(** ** Competitor discovery *)

Module CompetitorProps.
Import CompetitorAnalysis CompetitorDemo.

Lemma snd_andThen A B (m : Run A) (k : A -> Run B) :
  snd (andThen m k)
  = match snd m with
    | Resolved a => snd (k a)
    | Rejected e => Rejected e
    end.
Proof. destruct m as [l [a|e]]; simpl; [now destruct (k a)|reflexivity]. Qed.

Lemma fst_andThen A B (m : Run A) (k : A -> Run B) :
  fst (andThen m k)
  = fst m ++ match snd m with
             | Resolved a => fst (k a)
             | Rejected _ => []
             end.
Proof.
  destruct m as [l [a|e]]; simpl; [now destruct (k a)|now rewrite app_nil_r].
Qed.

Lemma snd_recover A (m : Run A) (h : error -> Run A) :
  snd (recover m h)
  = match snd m with
    | Resolved a => Resolved a
    | Rejected e => snd (h e)
    end.
Proof. destruct m as [l [a|e]]; simpl; [reflexivity|now destruct (h e)]. Qed.

Lemma fst_recover A (m : Run A) (h : error -> Run A) :
  fst (recover m h)
  = fst m ++ match snd m with
             | Resolved _ => []
             | Rejected e => fst (h e)
             end.
Proof.
  destruct m as [l [a|e]]; simpl; [now rewrite app_nil_r|now destruct (h e)].
Qed.

Lemma getFromCache_total w key :
  exists cached, getFromCache w key = ([CacheGet key], Resolved cached).
Proof.
  unfold getFromCache, recover, andThen, ask, done, fail.
  destruct (redisGet w key) as [[text|]|e]; simpl; eauto.
  destruct (negb (String.eqb text "")); simpl; eauto.
  destruct (jsonParse w text); simpl; eauto.
Qed.

Lemma organic_visit_keeps w id kw acc r cs :
  snd acc = Resolved cs -> snd (organic_visit w id kw acc r) = Resolved cs.
Proof.
  intros H. unfold organic_visit. rewrite snd_andThen, H.
  destruct (str_truthy (or_domain r)); [|reflexivity].
  now rewrite snd_andThen.
Qed.

Lemma local_visit_keeps w id acc r cs :
  snd acc = Resolved cs -> snd (local_visit w id acc r) = Resolved cs.
Proof.
  intros H. unfold local_visit. rewrite snd_andThen, H.
  destruct (str_truthy (lr_website r)); [|reflexivity].
  now rewrite snd_andThen.
Qed.

Lemma paid_visit_keeps w id kw acc r cs :
  snd acc = Resolved cs -> snd (paid_visit w id kw acc r) = Resolved cs.
Proof.
  intros H. unfold paid_visit. rewrite snd_andThen, H.
  destruct (str_truthy (ad_domain r)); [|reflexivity].
  now rewrite snd_andThen.
Qed.

Lemma fold_keeps A B (f : Run A -> B -> Run A) (a : A) :
  (forall acc b, snd acc = Resolved a -> snd (f acc b) = Resolved a) ->
  forall bs acc, snd acc = Resolved a -> snd (fold_left f bs acc) = Resolved a.
Proof.
  intros Hf. induction bs as [|b bs IH]; intros acc Hacc; simpl;
    [exact Hacc|].
  apply IH, Hf, Hacc.
Qed.

Lemma organic_nothing w o :
  snd (discoverOrganicCompetitors w o) = Resolved [].
Proof.
  unfold discoverOrganicCompetitors.
  apply fold_keeps; [|reflexivity].
  intros acc keyword Hacc. rewrite snd_andThen, Hacc, snd_recover, snd_andThen.
  simpl. destruct (searchKeyword w keyword (d_location o)); [|reflexivity].
  rewrite (fold_keeps _ _ _ [] (fun acc r => organic_visit_keeps w _ _ acc r []));
    reflexivity.
Qed.

Lemma paid_nothing w o :
  snd (discoverPaidCompetitors w o) = Resolved [].
Proof.
  unfold discoverPaidCompetitors.
  apply fold_keeps; [|reflexivity].
  intros acc keyword Hacc. rewrite snd_andThen, Hacc, snd_recover, snd_andThen.
  simpl. destruct (searchKeyword w keyword (d_location o)); [|reflexivity].
  rewrite (fold_keeps _ _ _ [] (fun acc r => paid_visit_keeps w _ _ acc r []));
    reflexivity.
Qed.

Lemma local_nothing w o :
  snd (discoverLocalCompetitors w o) = Resolved [].
Proof.
  unfold discoverLocalCompetitors. rewrite snd_recover, snd_andThen. simpl.
  destruct (searchLocal w _ (d_location o)) as [rs|e]; [|reflexivity].
  destruct (local_results rs) as [l|]; [|reflexivity].
  rewrite (fold_keeps _ _ _ [] (fun acc r => local_visit_keeps w _ acc r []));
    reflexivity.
Qed.

(** X11: the three discovery methods never return a competitor.  Each of
    them tests [!this.isOwnDomain(...)] without awaiting the promise that
    [isOwnDomain] returns; the promise is truthy, so the test fails for
    every search result and nothing is ever pushed.  Whatever the search
    engine answers, fails or not, the organic, local and paid discoveries
    all resolve with the empty list. *)
Theorem X11_discovery_collects_nothing w o :
  snd (discoverOrganicCompetitors w o) = Resolved [] /\
  snd (discoverLocalCompetitors w o) = Resolved [] /\
  snd (discoverPaidCompetitors w o) = Resolved [].
Proof.
  split; [apply organic_nothing|].
  split; [apply local_nothing|apply paid_nothing].
Qed.

Lemma fold_quiet B (f : Run (list Candidate) -> B -> Run (list Candidate)) :
  (forall acc b, quiet acc -> quiet (f acc b)) ->
  forall bs acc, quiet acc -> quiet (fold_left f bs acc).
Proof.
  intros Hf. induction bs as [|b bs IH]; intros acc Hacc; simpl;
    [exact Hacc|].
  apply IH, Hf, Hacc.
Qed.

Lemma isOwnDomain_calls w domain id :
  fst (isOwnDomain w domain id) = [FindClinic id].
Proof.
  unfold isOwnDomain, andThen, ask, done.
  destruct (findClinic w id) as [[c|]|e]; reflexivity.
Qed.

Lemma organic_visit_quiet w id kw acc r :
  quiet acc -> quiet (organic_visit w id kw acc r).
Proof.
  intros [Hs Hf]. split; [now apply organic_visit_keeps|].
  unfold organic_visit. rewrite fst_andThen, Hs.
  apply Forall_app. split; [exact Hf|].
  destruct (str_truthy (or_domain r)); [|constructor].
  rewrite fst_andThen. simpl. rewrite isOwnDomain_calls. repeat constructor.
Qed.

Lemma local_visit_quiet w id acc r :
  quiet acc -> quiet (local_visit w id acc r).
Proof.
  intros [Hs Hf]. split; [now apply local_visit_keeps|].
  unfold local_visit. rewrite fst_andThen, Hs.
  apply Forall_app. split; [exact Hf|].
  destruct (str_truthy (lr_website r)); [|constructor].
  rewrite fst_andThen. simpl. rewrite isOwnDomain_calls. repeat constructor.
Qed.

Lemma paid_visit_quiet w id kw acc r :
  quiet acc -> quiet (paid_visit w id kw acc r).
Proof.
  intros [Hs Hf]. split; [now apply paid_visit_keeps|].
  unfold paid_visit. rewrite fst_andThen, Hs.
  apply Forall_app. split; [exact Hf|].
  destruct (str_truthy (ad_domain r)); [|constructor].
  rewrite fst_andThen. simpl. rewrite isOwnDomain_calls. repeat constructor.
Qed.

Lemma organic_quiet w o : quiet (discoverOrganicCompetitors w o).
Proof.
  unfold discoverOrganicCompetitors.
  apply fold_quiet; [|split; [reflexivity|constructor]].
  intros acc keyword [Hs Hf].
  split.
  - rewrite snd_andThen, Hs, snd_recover, snd_andThen. simpl.
    destruct (searchKeyword w keyword (d_location o)); [|reflexivity].
    rewrite (fold_keeps _ _ _ [] (fun acc r => organic_visit_keeps w _ _ acc r []));
      reflexivity.
  - rewrite fst_andThen, Hs, fst_recover, fst_andThen, snd_andThen. simpl.
    apply Forall_app. split; [exact Hf|].
    constructor; [exact I|].
    destruct (searchKeyword w keyword (d_location o)) as [serp|e]; simpl;
      [|constructor].
    apply Forall_app. split.
    + apply fold_quiet; [intros; now apply organic_visit_quiet|].
      split; [reflexivity|constructor].
    + rewrite (fold_keeps _ _ _ [] (fun acc r => organic_visit_keeps w _ _ acc r []));
        [constructor|reflexivity].
Qed.

Lemma paid_quiet w o : quiet (discoverPaidCompetitors w o).
Proof.
  unfold discoverPaidCompetitors.
  apply fold_quiet; [|split; [reflexivity|constructor]].
  intros acc keyword [Hs Hf].
  split.
  - rewrite snd_andThen, Hs, snd_recover, snd_andThen. simpl.
    destruct (searchKeyword w keyword (d_location o)); [|reflexivity].
    rewrite (fold_keeps _ _ _ [] (fun acc r => paid_visit_keeps w _ _ acc r []));
      reflexivity.
  - rewrite fst_andThen, Hs, fst_recover, fst_andThen, snd_andThen. simpl.
    apply Forall_app. split; [exact Hf|].
    constructor; [exact I|].
    destruct (searchKeyword w keyword (d_location o)) as [serp|e]; simpl;
      [|constructor].
    apply Forall_app. split.
    + apply fold_quiet; [intros; now apply paid_visit_quiet|].
      split; [reflexivity|constructor].
    + rewrite (fold_keeps _ _ _ [] (fun acc r => paid_visit_keeps w _ _ acc r []));
        [constructor|reflexivity].
Qed.

Lemma local_quiet w o : quiet (discoverLocalCompetitors w o).
Proof.
  split; [apply local_nothing|].
  unfold discoverLocalCompetitors.
  rewrite fst_recover, fst_andThen, snd_andThen. simpl.
  constructor; [exact I|].
  destruct (searchLocal w _ (d_location o)) as [rs|e]; simpl; [|constructor].
  destruct (local_results rs) as [l|]; [|constructor].
  apply Forall_app. split.
  - apply fold_quiet; [intros; now apply local_visit_quiet|].
    split; [reflexivity|constructor].
  - rewrite (fold_keeps _ _ _ [] (fun acc r => local_visit_keeps w _ acc r []));
      [constructor|reflexivity].
Qed.

Lemma slice0_nil A (n : Z) : slice0 (@nil A) n = [].
Proof. unfold slice0. destruct (n <? 0); apply firstn_nil. Qed.

Lemma setCache_total w key value seconds :
  setCache w key value seconds = ([CacheSet key value seconds], Resolved tt).
Proof.
  unfold setCache, recover, ask, done.
  destruct (redisSetex w key seconds) as [[]|e]; reflexivity.
Qed.

Lemma lookups_app l1 l2 : lookups (l1 ++ l2) = lookups l1 ++ lookups l2.
Proof. apply flat_map_app. Qed.

Lemma lookups_searches l :
  Forall search_call l -> lookups l = [].
Proof.
  induction 1 as [|c l Hc _ IH]; [reflexivity|].
  simpl. rewrite IH. now destruct c.
Qed.

(** X12: the outcomes of discoverCompetitors.  The cache is read first and
    never makes the call fail; a truthy cached value is returned as it is,
    with no other call made.  Otherwise the clinic is looked up: a failing
    lookup or a missing clinic rejects the call ("Clinic not found"), with
    nothing cached.  For an existing clinic the call always succeeds with
    the empty list, saves no competitor, and caches the empty list for 24
    hours, whatever the searches returned. *)
Theorem X12_discoverCompetitors_outcomes w o :
  exists cached,
    getFromCache w (cacheKey w o)
    = ([CacheGet (cacheKey w o)], Resolved cached) /\
    match cache_hit cached with
    | Some v =>
        discoverCompetitors w o
        = ([CacheGet (cacheKey w o)], Resolved (FromCache v))
    | None =>
        match findClinic w (d_clinicId o) with
        | Rejected e =>
            discoverCompetitors w o
            = ([CacheGet (cacheKey w o); FindClinic (d_clinicId o)], Rejected e)
        | Resolved None =>
            discoverCompetitors w o
            = ([CacheGet (cacheKey w o); FindClinic (d_clinicId o)],
               Rejected clinic_not_found)
        | Resolved (Some _) =>
            snd (discoverCompetitors w o) = Resolved (Saved []) /\
            lookups (fst (discoverCompetitors w o)) = [] /\
            exists searches,
              fst (discoverCompetitors w o)
              = [CacheGet (cacheKey w o); FindClinic (d_clinicId o)]
                ++ searches
                ++ [CacheSet (cacheKey w o) [] (24 * 3600)] /\
              Forall search_call searches
        end
    end.
Proof.
  destruct (getFromCache_total w (cacheKey w o)) as (cached & Hget).
  exists cached. split; [exact Hget|].
  remember (discoverCompetitors w o) as whole eqn:Hwhole.
  unfold discoverCompetitors in Hwhole. rewrite Hget in Hwhole.
  unfold andThen at 1 in Hwhole. cbv beta in Hwhole.
  destruct (cache_hit cached) as [v|]; [exact Hwhole|].
  destruct (findClinic w (d_clinicId o)) as [[clinic|]|e] eqn:Hclinic;
    try exact Hwhole.
  destruct (organic_quiet w o) as [Ho Hof].
  assert (quiet (if d_includeLocal o then discoverLocalCompetitors w o
                 else done [])) as [Hl Hlf]
    by (destruct (d_includeLocal o);
        [apply local_quiet|split; [reflexivity|constructor]]).
  assert (quiet (if d_includePaid o then discoverPaidCompetitors w o
                 else done [])) as [Hp Hpf]
    by (destruct (d_includePaid o);
        [apply paid_quiet|split; [reflexivity|constructor]]).
  match type of Hwhole with
  | context [recover ?m ?h] => remember (recover m h) as run eqn:Hrun
  end.
  assert (snd run = Resolved (Saved [])
          /\ fst run
             = FindClinic (d_clinicId o)
                 :: (fst (discoverOrganicCompetitors w o)
                     ++ fst (if d_includeLocal o
                             then discoverLocalCompetitors w o else done [])
                     ++ fst (if d_includePaid o
                             then discoverPaidCompetitors w o else done []))
                 ++ [CacheSet (cacheKey w o) [] (24 * 3600)]) as [Hs Hf].
  { subst run. split.
    - rewrite snd_recover, snd_andThen. simpl.
      rewrite !snd_andThen, Ho, !snd_andThen, Hl, !snd_andThen, Hp.
      cbn [app deduplicateCompetitors dedup_from].
      rewrite slice0_nil. simpl. rewrite setCache_total. reflexivity.
    - rewrite fst_recover, fst_andThen, snd_andThen. simpl.
      rewrite !fst_andThen, !snd_andThen, Ho, !fst_andThen, !snd_andThen, Hl,
        !fst_andThen, !snd_andThen, Hp.
      cbn [app deduplicateCompetitors dedup_from]. rewrite slice0_nil.
      simpl. rewrite setCache_total. simpl.
      rewrite !app_nil_r, <- !app_assoc. reflexivity. }
  clear Hrun. destruct run as [l r]. simpl in Hs, Hf. subst l r whole.
  cbn [fst snd].
  split; [reflexivity|].
  assert (Forall search_call
                 (fst (discoverOrganicCompetitors w o)
                  ++ fst (if d_includeLocal o
                          then discoverLocalCompetitors w o else done [])
                  ++ fst (if d_includePaid o
                          then discoverPaidCompetitors w o else done [])))
    as Hall by (repeat (apply Forall_app; split); assumption).
  split.
  - change (lookups
              ([CacheGet (cacheKey w o); FindClinic (d_clinicId o)]
               ++ (fst (discoverOrganicCompetitors w o)
                   ++ fst (if d_includeLocal o
                           then discoverLocalCompetitors w o else done [])
                   ++ fst (if d_includePaid o
                           then discoverPaidCompetitors w o else done []))
               ++ [CacheSet (cacheKey w o) [] (24 * 3600)]) = []).
    do 2 rewrite lookups_app. rewrite (lookups_searches _ Hall). reflexivity.
  - eexists. split; [reflexivity|exact Hall].
Qed.

(** ** Saving discovered competitors *)

Lemma save_one_rows w id saved index comp :
  snd (save_one w id saved index comp)
  = Resolved (saved ++ match row_for w id index comp with
                       | Some row => [row]
                       | None => []
                       end) /\
  lookups (fst (save_one w id saved index comp)) = [cd_domain comp] /\
  creations (fst (save_one w id saved index comp))
  = match findOne w id (cd_domain comp) with
    | Resolved None => [cd_domain comp]
    | _ => []
    end.
Proof.
  unfold save_one, row_for, new_competitor, recover, andThen, ask, done.
  destruct (findOne w id (cd_domain comp)) as [[row|]|e]; simpl.
  - repeat split.
  - destruct (create w _) as [row|e]; simpl; rewrite ?app_nil_r;
      repeat split.
  - rewrite app_nil_r. repeat split.
Qed.

Lemma save_from_rows w id cs :
  forall index saved,
    snd (save_from w id index saved cs)
    = Resolved (saved ++ rows_from w id index cs) /\
    lookups (fst (save_from w id index saved cs)) = map cd_domain cs /\
    creations (fst (save_from w id index saved cs))
    = map cd_domain
        (filter (fun comp =>
                   match findOne w id (cd_domain comp) with
                   | Resolved None => true
                   | _ => false
                   end) cs).
Proof.
  induction cs as [|comp cs IH]; intros index saved; simpl.
  - rewrite app_nil_r. repeat split.
  - destruct (save_one_rows w id saved index comp) as (Hone & Hlook & Hcreate).
    destruct (IH (index + 1)
                 (saved ++ match row_for w id index comp with
                           | Some row => [row]
                           | None => []
                           end)) as (Hrest & Hlooks & Hcreates).
    rewrite snd_andThen, fst_andThen, Hone, Hrest.
    split; [now rewrite <- app_assoc|]. split.
    + unfold lookups in *. rewrite flat_map_app, Hlook, Hlooks. reflexivity.
    + unfold creations in *. rewrite flat_map_app, Hcreate, Hcreates.
      now destruct (findOne w id (cd_domain comp)) as [[row|]|e].
Qed.

Lemma rows_from_in w id cs row :
  forall index,
    In row (rows_from w id index cs)
    <-> exists n comp,
          nth_error cs n = Some comp /\
          row_for w id (index + Z.of_nat n) comp = Some row.
Proof.
  induction cs as [|comp cs IH]; intros index; simpl.
  - split; [tauto|]. intros ([|n] & c & H & _); discriminate.
  - rewrite in_app_iff, IH. split.
    + intros [Hin|(n & c & Hn & Hrow)].
      * exists 0%nat, comp. split; [reflexivity|].
        rewrite Z.add_0_r.
        destruct (row_for w id index comp) as [r|]; [|destruct Hin].
        destruct Hin as [->|[]]. reflexivity.
      * exists (S n), c. split; [exact Hn|].
        rewrite <- Hrow. f_equal. lia.
    + intros ([|n] & c & Hn & Hrow).
      * injection Hn as <-. rewrite Z.add_0_r in Hrow. rewrite Hrow.
        left. now left.
      * right. exists n, c. split; [exact Hn|].
        rewrite <- Hrow. f_equal. lia.
Qed.

Lemma rows_from_length w id cs :
  forall index, (List.length (rows_from w id index cs) <= List.length cs)%nat.
Proof.
  induction cs as [|comp cs IH]; intros index; simpl; [lia|].
  rewrite length_app. specialize (IH (index + 1)).
  destruct (row_for w id index comp); simpl; lia.
Qed.

(** X13: saveDiscoveredCompetitors never fails.  Whatever the database
    answers, it resolves; it looks every competitor up exactly once, in
    list order, and calls create exactly for those the lookup did not
    find.  The rows it returns are, in list order, one row for every
    competitor whose lookup found a row (that row) or whose lookup found
    nothing and whose creation succeeded (the created row, with
    marketPosition the position in the list counted from 1): a competitor
    is left out exactly when its lookup fails or its creation fails, and
    the competitors after it are still processed. *)
Theorem X13_save_skips_failures w id cs :
  snd (saveDiscoveredCompetitors w id cs) = Resolved (rows_from w id 0 cs) /\
  lookups (fst (saveDiscoveredCompetitors w id cs)) = map cd_domain cs /\
  creations (fst (saveDiscoveredCompetitors w id cs))
  = map cd_domain
      (filter (fun comp =>
                 match findOne w id (cd_domain comp) with
                 | Resolved None => true
                 | _ => false
                 end) cs) /\
  (List.length (rows_from w id 0 cs) <= List.length cs)%nat /\
  (forall row,
      In row (rows_from w id 0 cs)
      <-> exists n comp,
            nth_error cs n = Some comp /\
            (findOne w id (cd_domain comp) = Resolved (Some row)
             \/ (findOne w id (cd_domain comp) = Resolved None /\
                 create w (new_competitor id (Z.of_nat n) comp)
                 = Resolved row))) /\
  ((forall comp,
       In comp cs ->
       exists row, findOne w id (cd_domain comp) = Resolved (Some row)) ->
   List.length (rows_from w id 0 cs) = List.length cs).
Proof.
  destruct (save_from_rows w id cs 0 []) as (Hs & Hl & Hc).
  split; [exact Hs|]. split; [exact Hl|]. split; [exact Hc|].
  split; [apply rows_from_length|]. split.
  - intros row. rewrite rows_from_in. split.
    + intros (n & comp & Hn & Hrow). exists n, comp. split; [exact Hn|].
      unfold row_for in Hrow. cbn [Z.add] in Hrow.
      destruct (findOne w id (cd_domain comp)) as [[r|]|e]; try discriminate.
      * left. congruence.
      * right. split; [reflexivity|].
        destruct (create w _) as [r|e]; [congruence|discriminate].
    + intros (n & comp & Hn & Hrow). exists n, comp. split; [exact Hn|].
      unfold row_for. cbn [Z.add].
      destruct Hrow as [-> | (-> & ->)]; reflexivity.
  - intros Hall. clear Hs Hl Hc. generalize 0 as index.
    induction cs as [|comp cs IH]; intros index; [reflexivity|].
    simpl. rewrite length_app, IH.
    + destruct (Hall comp (or_introl eq_refl)) as (row & Hrow).
      unfold row_for. now rewrite Hrow.
    + intros c Hc. apply Hall. now right.
Qed.

Lemma X13_save_skips_failures_witness :
  option_map (map co_domain)
    (match snd (saveDiscoveredCompetitors flaky "clinic-1"
                  [candidate "a.test" Organic; candidate "b.test" Organic;
                   candidate "c.test" Local; candidate "d.test" Paid]) with
     | Resolved saved => Some saved
     | Rejected _ => None
     end)
  = Some ["a.test"; "d.test"] /\
  creations (fst (saveDiscoveredCompetitors flaky "clinic-1"
                    [candidate "a.test" Organic; candidate "b.test" Organic;
                     candidate "c.test" Local; candidate "d.test" Paid]))
  = ["c.test"; "d.test"] /\
  List.length (rows_from flaky "clinic-1" 0
                 [candidate "a.test" Organic; candidate "a.test" Paid])
  = 2%nat.
Proof.
  destruct (X13_save_skips_failures flaky "clinic-1"
              [candidate "a.test" Organic; candidate "b.test" Organic;
               candidate "c.test" Local; candidate "d.test" Paid])
    as (Hs & _ & Hc & _).
  destruct (X13_save_skips_failures flaky "clinic-1"
              [candidate "a.test" Organic; candidate "a.test" Paid])
    as (_ & _ & _ & _ & _ & Hfull).
  split; [rewrite Hs; reflexivity|]. split; [rewrite Hc; reflexivity|].
  apply Hfull. intros comp [<-|[<-|[]]]; eexists; reflexivity.
Defined.

(** ** Updating competitor metrics *)

Lemma update_step w redis id c :
  findCompetitor w id = Resolved (Some c) ->
  0 <= BaseService.count redis (rateLimitKey (co_domain c)) ->
  BaseService.count (snd (updateCompetitorMetrics w redis id))
                    (rateLimitKey (co_domain c))
  = BaseService.count redis (rateLimitKey (co_domain c)) + 1 /\
  if BaseService.count redis (rateLimitKey (co_domain c)) <? 10
  then In (SerpDomainMetrics (co_domain c))
          (fst (fst (updateCompetitorMetrics w redis id))) /\
       In (AhrefsDomainMetrics (co_domain c))
          (fst (fst (updateCompetitorMetrics w redis id)))
  else fst (updateCompetitorMetrics w redis id)
       = ([FindCompetitor id], Resolved tt).
Proof.
  intros Hfind Hc. unfold updateCompetitorMetrics. rewrite Hfind.
  pose proof (BaseServiceFacts.checkRateLimit_step
                redis (rateLimitKey (co_domain c)) 10 3600 Hc) as Hstep.
  destruct (BaseService.checkRateLimit redis _ 10 3600) as [ok redis'].
  destruct Hstep as (Hok & Hcount & _).
  destruct (Z.ltb_spec (BaseService.count redis (rateLimitKey (co_domain c))) 10)
    as [Hlt|Hge].
  - assert (ok = true) as -> by (rewrite Hok; apply Z.leb_le; lia).
    cbn [negb fst snd]. split; [exact Hcount|].
    rewrite !fst_andThen. cbn [fst snd ask both app].
    destruct (serpDomainMetrics w (co_domain c)),
      (ahrefsDomainMetrics w (co_domain c)); simpl; tauto.
  - assert (ok = false) as -> by (rewrite Hok; apply Z.leb_gt; lia).
    simpl. split; [exact Hcount|reflexivity].
Qed.

(** X14: updates of one competitor are rate limited to 10 per window, and
    a refused update is silent.  From a counter at c for the competitor's
    domain, the k-th (from 0) of n successive calls fetches fresh metrics
    exactly when c + k is below 10; every later call resolves without
    fetching, updating or invalidating anything, having made the
    competitor lookup only. *)
Theorem X14_update_rate_limited w id c n :
  findCompetitor w id = Resolved (Some c) ->
  forall redis k run,
    0 <= BaseService.count redis (rateLimitKey (co_domain c)) ->
    nth_error (fst (update_times w n redis id)) k = Some run ->
    if BaseService.count redis (rateLimitKey (co_domain c)) + Z.of_nat k <? 10
    then In (SerpDomainMetrics (co_domain c)) (fst run) /\
         In (AhrefsDomainMetrics (co_domain c)) (fst run)
    else run = ([FindCompetitor id], Resolved tt).
Proof.
  intros Hfind. induction n as [|n IH]; intros redis k run Hc Hnth.
  - destruct k; discriminate.
  - cbn [update_times] in Hnth.
    pose proof (update_step w redis id c Hfind Hc) as (Hcount & Hrun).
    destruct (updateCompetitorMetrics w redis id) as [run0 redis1].
    specialize (IH redis1).
    destruct (update_times w n redis1 id) as [runs redis2].
    simpl in *. destruct k as [|k]; simpl in Hnth.
    + injection Hnth as <-. now rewrite Z.add_0_r.
    + assert (0 <= BaseService.count redis1 (rateLimitKey (co_domain c)))
        as Hc1 by lia.
      specialize (IH k run Hc1 Hnth). rewrite Hcount in IH.
      replace (BaseService.count redis (rateLimitKey (co_domain c))
               + Z.of_nat (S k))
        with (BaseService.count redis (rateLimitKey (co_domain c)) + 1
              + Z.of_nat k) by lia.
      exact IH.
Qed.

Lemma X14_update_rate_limited_witness :
  nth_error (fst (update_times CompetitorDemo.world 12 BaseService.fresh "c-7")) 10
  = Some ([FindCompetitor "c-7"], Resolved tt).
Proof.
  destruct (nth_error
              (fst (update_times CompetitorDemo.world 12 BaseService.fresh "c-7"))
              10) as [run|] eqn:Hnth; [|vm_compute in Hnth; discriminate].
  f_equal.
  exact (X14_update_rate_limited CompetitorDemo.world "c-7" rival 12 eq_refl
           BaseService.fresh 10%nat run ltac:(simpl; lia) Hnth).
Defined.

Lemma num_or_kept reported old : kept_or_replaced reported old (num_or reported old).
Proof.
  unfold kept_or_replaced, num_or. split.
  - intros [->| ->]; reflexivity.
  - intros v -> Hv. destruct (Z.eqb_spec v 0); [contradiction|reflexivity].
Qed.

(** X15: what an update writes.  When the update is allowed and both
    metric sources answer, exactly one metrics object is written, after
    the fetches and before the cache invalidations (which only happen if
    the write succeeds).  In it, a reported value that is missing or 0
    never replaces the stored value, while any other reported value does;
    the social followers are always replaced by the three fresh counts;
    lastUpdated is the time of the call; properties the service does not
    know are carried over unchanged. *)
Theorem X15_update_merge w redis id c s a :
  findCompetitor w id = Resolved (Some c) ->
  0 <= BaseService.count redis (rateLimitKey (co_domain c)) < 10 ->
  serpDomainMetrics w (co_domain c) = Resolved s ->
  ahrefsDomainMetrics w (co_domain c) = Resolved a ->
  exists m,
    fst (fst (updateCompetitorMetrics w redis id))
    = [FindCompetitor id; SerpDomainMetrics (co_domain c);
       AhrefsDomainMetrics (co_domain c); UpdateMetrics id m]
      ++ match updateMetrics w id m with
         | Resolved _ =>
             [Invalidate (String.append "competitor:*:" id);
              Invalidate (String.append "clinic:dashboard:" (co_clinicId c))]
         | Rejected _ => []
         end /\
    kept_or_replaced (serp_visibility s)
                     (visibility (co_metrics c)) (visibility m) /\
    kept_or_replaced (organicTraffic a)
                     (estimatedTraffic (co_metrics c)) (estimatedTraffic m) /\
    kept_or_replaced (ahrefs_backlinks a)
                     (backlinks (co_metrics c)) (backlinks m) /\
    kept_or_replaced (domainRating a)
                     (domainAuthority (co_metrics c)) (domainAuthority m) /\
    map fst (socialFollowers m) = ["facebook"; "instagram"; "linkedin"] /\
    lastUpdated m = Some (clock w) /\
    otherMetrics m = otherMetrics (co_metrics c).
Proof.
  intros Hfind [Hc Hlt] Hs Ha.
  exists (mergeMetrics w (co_metrics c) s a (getSocialMetrics w (co_domain c))).
  split.
  - unfold updateCompetitorMetrics. rewrite Hfind.
    pose proof (BaseServiceFacts.checkRateLimit_step
                  redis (rateLimitKey (co_domain c)) 10 3600 Hc) as Hstep.
    destruct (BaseService.checkRateLimit redis _ 10 3600) as [ok redis'].
    destruct Hstep as (Hok & _).
    assert (ok = true) as -> by (rewrite Hok; apply Z.leb_le; lia).
    simpl. rewrite Hs, Ha. simpl.
    destruct (updateMetrics w id _) as [[]|e]; reflexivity.
  - unfold mergeMetrics. simpl.
    repeat split; try apply num_or_kept.
    unfold getSocialMetrics. now destruct (random3 w (co_domain c)) as [[r1 r2] r3].
Qed.

Lemma X15_update_merge_witness :
  exists m,
    In (UpdateMetrics "c-7" m)
       (fst (fst (updateCompetitorMetrics CompetitorDemo.world
                    BaseService.fresh "c-7"))) /\
    visibility m = 40 /\ estimatedTraffic m = 1500 /\
    backlinks m = 35 /\ domainAuthority m = 22.
Proof.
  destruct (X15_update_merge CompetitorDemo.world BaseService.fresh "c-7" rival
              {| serp_visibility := Some 0 |}
              {| organicTraffic := Some 1500; ahrefs_backlinks := None;
                 domainRating := Some 0 |}
              eq_refl ltac:(simpl; lia) eq_refl eq_refl)
    as (m & Hcalls & Hv & Ht & Hb & Hd & _).
  exists m. split; [rewrite Hcalls; simpl; tauto|].
  split; [apply (proj1 Hv); now right|].
  split; [apply (proj2 Ht 1500); [reflexivity|lia]|].
  split; [apply (proj1 Hb); now left|apply (proj1 Hd); now right].
Defined.

End CompetitorProps.

(** ** The cache helpers of the base service *)

Module CacheProps.
Import CompetitorAnalysis.

(** X16: the cache helpers never fail and make one Redis call each.
    getFromCache resolves with the parsed value when Redis holds a
    non-empty text that parses, and with null in every other case: a Redis
    error, no entry, an empty text, or a text that JSON.parse rejects.
    setCache resolves whether or not Redis accepted the write. *)
Theorem X16_cache_helpers_never_fail w key value seconds :
  getFromCache w key
  = ([CacheGet key],
     Resolved match redisGet w key with
              | Resolved (Some text) =>
                  if String.eqb text EmptyString then None
                  else jsonParse w text
              | _ => None
              end) /\
  setCache w key value seconds = ([CacheSet key value seconds], Resolved tt).
Proof.
  split; [|apply CompetitorProps.setCache_total].
  unfold getFromCache, recover, andThen, ask, done, fail.
  destruct (redisGet w key) as [[text|]|e]; simpl; try reflexivity.
  destruct (String.eqb text EmptyString); simpl; [reflexivity|].
  destruct (jsonParse w text); reflexivity.
Qed.

End CacheProps.

(** ** The page speed check *)

(** X17: the page speed check reports both Lighthouse profiles or none.
    It never fails; it runs the desktop profile first and the mobile
    profile only if the desktop run succeeded; if either run fails the
    result is siteSpeed = null, a successful desktop profile included. *)
Theorem X17_page_speed_all_or_nothing w url :
  exists r,
    result (auditPageSpeed w url) = Resolved r /\
    match lighthouse w url DesktopForm with
    | Rejected _ =>
        r = only_siteSpeed Null /\
        calls (auditPageSpeed w url) = [EvLighthouse url DesktopForm]
    | Resolved d =>
        calls (auditPageSpeed w url)
        = [EvLighthouse url DesktopForm; EvLighthouse url MobileForm] /\
        match lighthouse w url MobileForm with
        | Resolved m => r = only_siteSpeed (Val (speed_of d m))
        | Rejected _ => r = only_siteSpeed Null
        end
    end.
Proof.
  unfold calls. run_check.
  destruct (lighthouse w url DesktopForm) as [d|e1]; cbn;
    [destruct (lighthouse w url MobileForm) as [m|e2]; cbn|];
    eexists; repeat split.
Qed.



(** ** Timing *)






